(** * ESP32 CAN library: framing, reassembly and acknowledgment protocol

    A shallow embedding of [esp32_can_library.h] (class [CANBus]) and the
    properties of its identifier codec, checksum, reassembly table,
    acknowledgment/retry engine and dispatch registry.

    Conventions.
    - [uint8_t] and [uint32_t] values are integers in [Z]; every place where
      the C++ code truncates (an assignment to a [uint8_t], a mask) is
      written out with [Z.land] or [mod].
    - A [std::vector<uint8_t>] is a [list Z].
    - [std::unordered_map] is stdpp's [gmap]; [operator[]] inserts a
      value-initialised element when the key is absent, which is written out.
    - A [steady_clock::time_point] is the number of clock ticks since the
      clock's epoch (nanoseconds, as in libstdc++).
    - Effects visible outside the object (frames handed to [twai_transmit],
      application callbacks, the error callback) are recorded as a list of
      events. *)

From Stdlib Require Import ZArith List Lia Bool Sorted.
From stdpp Require Import base option list gmap.
Import ListNotations.
Local Open Scope Z_scope.

(** ** Fixed-width integers *)

Definition to_u8 (x : Z) : Z := Z.land x 0xFF.
Definition to_u32 (x : Z) : Z := Z.land x 0xFFFFFFFF.

(** ** Constants of the class *)

Definition START : Z := 0.
Definition MIDDLE : Z := 1.
Definition END : Z := 2.
Definition SINGLE : Z := 3.

Definition REASSEMBLY_TIMEOUT : Z := 500.
Definition ACK_TYPE_ID : Z := 0x7.

Inductive esp_err_t := ESP_OK | ESP_FAIL | ESP_ERR (code : Z).

Definition esp_ok (e : esp_err_t) : bool :=
  match e with ESP_OK => true | _ => false end.

(** ** Checksum: [CANBus::crc8] *)

(** One turn of the inner [for (j ...)] loop:
    [crc = (crc & 0x80) ? (crc << 1) ^ 0x31 : (crc << 1)], the result stored
    back into a [uint8_t]. *)
Definition crc8_shift (crc : Z) : Z :=
  if negb (Z.land crc 0x80 =? 0)
  then to_u8 (Z.lxor (Z.shiftl crc 1) 0x31)
  else to_u8 (Z.shiftl crc 1).

(** The inner loop, [n] turns. *)
Fixpoint crc8_inner (n : nat) (crc : Z) : Z :=
  match n with
  | O => crc
  | S n' => crc8_inner n' (crc8_shift crc)
  end.

(** The outer loop [for (i = 0; i < len; ++i)], with [todo = len - i]
    turns left; [data[i]] reads the array at index [i]. *)
Fixpoint crc8_loop (data : list Z) (todo : nat) (i : nat) (crc : Z) : Z :=
  match todo with
  | O => crc
  | S todo' =>
      let crc := to_u8 (Z.lxor crc (nth i data 0)) in
      crc8_loop data todo' (S i) (crc8_inner 8 crc)
  end.

Definition crc8 (data : list Z) (len : nat) : Z := crc8_loop data len 0 0.

(** The checksum as the specification words it: bytes taken in order, each
    XORed into the running 8-bit value, followed by eight steps "if the top
    bit is set, shift left and XOR the polynomial, else shift left". *)
Module ChecksumSpec.

Definition polynomial : Z := 0x31.
Definition initial : Z := 0.

Definition shl8 (c : Z) : Z := (c * 2) mod 256.

Definition bit_step (c : Z) : Z :=
  if Z.testbit c 7 then Z.lxor (shl8 c) polynomial else shl8 c.

Definition byte_step (c b : Z) : Z :=
  Nat.iter 8 bit_step (Z.lxor c b).

Definition checksum (bytes : list Z) : Z :=
  fold_left byte_step bytes initial.

End ChecksumSpec.

(** ** Identifier codec: [CANBus::buildId] and the field extraction of
    [CANBus::handleReceive] *)

Definition buildId (prio addr seq type : Z) : Z :=
  Z.lor (Z.lor (Z.lor (Z.shiftl (Z.land prio 0x03) 9)
                      (Z.shiftl (Z.land addr 0x0F) 5))
               (Z.shiftl (Z.land seq 0x03) 3))
        (Z.land type 0x07).

(** [uint8_t seq = (id >> 3) & 0x03] *)
Definition id_seq (id : Z) : Z := Z.land (Z.shiftr id 3) 0x03.
(** [uint8_t type = id & 0x07] *)
Definition id_type (id : Z) : Z := Z.land id 0x07.
(** [uint8_t from = (id >> 5) & 0x0F] *)
Definition id_from (id : Z) : Z := Z.land (Z.shiftr id 5) 0x0F.
(** [uint32_t baseId = id & ~static_cast<uint32_t>(0x18)] *)
Definition id_base (id : Z) : Z := Z.land id (to_u32 (Z.lnot 0x18)).

(** Modelled from the spec: the header never extracts the priority field
    from a received identifier.  The projection below is the "inverse
    mask/shift" of section 4.1, reading bits 10..9 as laid out in the
    header's identifier schema. *)
Definition id_prio (id : Z) : Z := Z.land (Z.shiftr id 9) 0x03.

Definition decode (id : Z) : Z * Z * Z * Z :=
  (id_prio id, id_from id, id_seq id, id_type id).

(** ** Data model *)

(** [twai_message_t], the fields the library uses.  [data] is the 8-byte
    array; [data_length_code] says how many of its bytes are payload. *)
Record twai_message_t := {
  identifier : Z;
  data_length_code : Z;
  data : list Z
}.

(** A frame whose length code stays inside its array: [m.data] has its 8
    bytes and [data_length_code] is at most 8.  The frames [send] and
    [sendAck] build are of this kind; a received frame need not be, since
    the length code of a frame on the bus may be 9 to 15. *)
Definition in_bounds (m : twai_message_t) : Prop :=
  length (data m) = 8%nat /\ 0 <= data_length_code m <= 8.

(** The range [m.data, m.data + m.data_length_code) that [append] and the
    [SINGLE] branch copy, for a frame that is [in_bounds].  For a length
    code above 8 the code copies that many bytes all the same, reading
    behind the array; what lies there is not part of the frame, and the
    value below then holds the bytes of the array only.  The theorems that
    say which bytes of a received frame are accumulated or handed on
    assume [in_bounds]; the equations of the model they rest on are stated
    for every frame. *)
Definition payload (m : twai_message_t) : list Z :=
  take (Z.to_nat (data_length_code m)) (data m).

(** A zero-initialised [twai_message_t m{}] after
    [memcpy(m.data, src, chunk)]. *)
Definition fill_data (src : list Z) : list Z :=
  src ++ replicate (8 - length src) 0.

(** [struct FragEntry]. *)
Record FragEntry := {
  entry_data : list Z;
  timestamp : Z
}.

(** The closure stored by [onReceive<T>]: it captures the application
    callback [cb] and compares against [sizeof(T)]. *)
Record Handler := {
  handler_sizeof : nat;
  handler_cb : nat
}.

(** A message type [T] as [send<T>] and [onReceive<T>] see it: [sizeof(T)]
    and the value of the compile-time constant [MsgTraits<T, 0>::TypeID],
    which both read into their local [type].  Everything below holds for
    whatever value the constant has.  (With the header as it stands the
    constant is 0 for every [T]: [DEFINE_CAN_MESSAGE(Name, ID, ...)]
    specialises [MsgTraits<Name, ID>], while [MsgTraits<Name, 0>] is the
    primary template, whose [TypeID] is its second argument.) *)
Record MsgType := {
  sizeof : nat;
  TypeID : Z
}.

(** What leaves the object. *)
Inductive Event :=
| Transmit (m : twai_message_t) (timeout_ms : Z)
| Callback (cb : nat) (msg : list Z)
| ErrorCallback (cb : nat) (type addr : Z).

(** The members of [CANBus] that the protocol uses. *)
Record CANBus := {
  retryLimit_ : Z;
  errorCb_ : option nat;
  pendingAck_ : Z;
  fragMap_ : gmap Z FragEntry;
  handlers_ : gmap Z Handler
}.

(** The object as the constructor leaves it. *)
Definition CANBus_new : CANBus :=
  {| retryLimit_ := 3; errorCb_ := None; pendingAck_ := 0;
     fragMap_ := ∅; handlers_ := ∅ |}.

Definition setRetryLimit (n : Z) (b : CANBus) : CANBus :=
  {| retryLimit_ := to_u8 n; errorCb_ := errorCb_ b;
     pendingAck_ := pendingAck_ b; fragMap_ := fragMap_ b;
     handlers_ := handlers_ b |}.

Definition onError (cb : nat) (b : CANBus) : CANBus :=
  {| retryLimit_ := retryLimit_ b; errorCb_ := Some cb;
     pendingAck_ := pendingAck_ b; fragMap_ := fragMap_ b;
     handlers_ := handlers_ b |}.

Definition set_pendingAck (v : Z) (b : CANBus) : CANBus :=
  {| retryLimit_ := retryLimit_ b; errorCb_ := errorCb_ b;
     pendingAck_ := v; fragMap_ := fragMap_ b;
     handlers_ := handlers_ b |}.

Definition set_fragMap (fm : gmap Z FragEntry) (b : CANBus) : CANBus :=
  {| retryLimit_ := retryLimit_ b; errorCb_ := errorCb_ b;
     pendingAck_ := pendingAck_ b; fragMap_ := fm;
     handlers_ := handlers_ b |}.

(** [onReceive<T>(cb)]: [handlers_[type] = closure]. *)
Definition onReceive (T : MsgType) (cb : nat) (b : CANBus) : CANBus :=
  {| retryLimit_ := retryLimit_ b; errorCb_ := errorCb_ b;
     pendingAck_ := pendingAck_ b; fragMap_ := fragMap_ b;
     handlers_ := <[TypeID T := {| handler_sizeof := sizeof T;
                                   handler_cb := cb |}]> (handlers_ b) |}.

(** ** The receive path as a state-and-output monad *)

Definition M (A : Type) : Type := CANBus -> A * CANBus * list Event.

Definition ret {A} (a : A) : M A := fun b => (a, b, []).

Definition bind {A B} (m : M A) (k : A -> M B) : M B :=
  fun b =>
    let '(a, b1, l1) := m b in
    let '(r, b2, l2) := k a b1 in
    (r, b2, l1 ++ l2).

Declare Scope can_scope.
Delimit Scope can_scope with can.
Notation "x <- m ;; k" := (bind m (fun x => k))
  (at level 100, m at next level, right associativity) : can_scope.
Notation "m ;; k" := (bind m (fun _ => k))
  (at level 100, right associativity) : can_scope.

Definition emit (e : Event) : M unit := fun b => (tt, b, [e]).
Definition update (f : CANBus -> CANBus) : M unit := fun b => (tt, f b, []).
Definition gets {A} (f : CANBus -> A) : M A := fun b => (f b, b, []).

(** [steady_clock] ticks per millisecond, and
    [duration_cast<milliseconds>(d).count()], which rounds toward zero. *)
Definition ticks_per_ms : Z := 1000000.
Definition to_ms (d : Z) : Z := Z.quot d ticks_per_ms.

(** [CANBus::expired]. *)
Definition expired (t0 now : Z) : bool :=
  REASSEMBLY_TIMEOUT <? to_ms (now - t0).

(** [CANBus::append]. *)
Definition append (entry : FragEntry) (msg : twai_message_t) : FragEntry :=
  {| entry_data := entry_data entry ++ payload msg;
     timestamp := timestamp entry |}.

(** [FragEntry& entry = fragMap_[baseId]]: the element is created
    value-initialised (no bytes, timestamp at the clock's epoch) when the
    key is absent.  The value read through the reference is returned. *)
Definition frag_ref (baseId : Z) : M FragEntry :=
  fun b =>
    match fragMap_ b !! baseId with
    | Some e => (e, b, [])
    | None =>
        let e := {| entry_data := []; timestamp := 0 |} in
        (e, set_fragMap (<[baseId := e]> (fragMap_ b)) b, [])
    end.

(** A write through the reference [entry]. *)
Definition frag_store (baseId : Z) (e : FragEntry) : M unit :=
  update (fun b => set_fragMap (<[baseId := e]> (fragMap_ b)) b).

(** [fragMap_.erase(baseId)]. *)
Definition frag_erase (baseId : Z) : M unit :=
  update (fun b => set_fragMap (delete baseId (fragMap_ b)) b).

(** The closure of [onReceive<T>] applied to [data]. *)
Definition invoke (h : Handler) (data : list Z) : M unit :=
  if (length data <? handler_sizeof h)%nat then ret tt
  else emit (Callback (handler_cb h) (take (handler_sizeof h) data)).

(** [CANBus::dispatch]. *)
Definition dispatch (type : Z) (data : list Z) : M unit :=
  (it <- gets (fun b => handlers_ b !! type) ;;
   match it with
   | Some h => invoke h data
   | None => ret tt
   end)%can.

(** The frame [a] that [sendAck] builds. *)
Definition ack_frame (to type : Z) : twai_message_t :=
  {| identifier := buildId 3 to SINGLE ACK_TYPE_ID;
     data_length_code := 1;
     data := [type; 0; 0; 0; 0; 0; 0; 0] |}.

(** [CANBus::sendAck]; the result of [twai_transmit] is ignored. *)
Definition sendAck (to type : Z) : M unit :=
  emit (Transmit (ack_frame to type) 20).

(** [m.data_length_code > 0 ? m.data[0] : 0], the value an ACK frame
    leaves in [pendingAck_]. *)
Definition ack_value (m : twai_message_t) : Z :=
  if 0 <? data_length_code m then nth 0 (data m) 0 else 0.

(** The [END] branch after the expiry test. *)
Definition handle_end (baseId type from : Z) (entry : FragEntry)
    (m : twai_message_t) : M unit :=
  (let entry := append entry m in
   frag_store baseId entry ;;
   if (length (entry_data entry) <? 1)%nat then frag_erase baseId
   else
     let recvCrc := List.last (entry_data entry) 0 in
     let entry := {| entry_data := removelast (entry_data entry);
                     timestamp := timestamp entry |} in
     frag_store baseId entry ;;
     (if recvCrc =? crc8 (entry_data entry) (length (entry_data entry))
      then dispatch type (entry_data entry) ;; sendAck from type
      else ret tt) ;;
     frag_erase baseId)%can.

(** [CANBus::handleReceive].  [rx] is what [twai_receive] delivered ([None]
    when it did not return [ESP_OK]) and [now] the reading of
    [steady_clock::now()]. *)
Definition handleReceive (rx : option twai_message_t) (now : Z) : M unit :=
  match rx with
  | None => ret tt
  | Some m =>
      let id := identifier m in
      let seq := id_seq id in
      let type := id_type id in
      let from := id_from id in
      if type =? ACK_TYPE_ID then
        update (set_pendingAck (ack_value m))
      else
        let baseId := id_base id in
        (entry <- frag_ref baseId ;;
         if seq =? START then
           frag_store baseId
             (append {| entry_data := []; timestamp := now |} m)
         else if seq =? MIDDLE then
           if expired (timestamp entry) now then frag_erase baseId
           else frag_store baseId (append entry m)
         else if seq =? END then
           if expired (timestamp entry) now then frag_erase baseId
           else handle_end baseId type from entry m
         else dispatch type (payload m))%can
  end.

(** Successive calls of [handleReceive], each with the outcome of
    [twai_receive] and the clock reading of that call. *)
Fixpoint receive_all (rxs : list (option twai_message_t * Z)) : M unit :=
  match rxs with
  | [] => ret tt
  | (rx, now) :: rest => (handleReceive rx now ;; receive_all rest)%can
  end.

(** ** The send path

    [send] runs on the caller's thread.  While it runs, three things come
    from outside: the result of each [twai_transmit] call, the readings of
    the clock in [waitAck], and calls of [handleReceive] made by whoever
    drives the receive path in the meantime, which write [pendingAck_]. *)

(** One evaluation of the loop condition of [waitAck]: the calls of
    [handleReceive] that completed since the previous one, then the clock
    reading. *)
Record Poll := {
  arrivals : list (option twai_message_t * Z);
  clock : Z
}.

(** One call of [waitAck]: the reading taken for [start] and the polls
    that follow. *)
Record WaitScript := {
  wait_start : Z;
  polls : list Poll
}.

(** The state threaded through [send]: the object, the events of the
    calling thread, and the events of the receive path that ran meanwhile. *)
Record Run := {
  bus : CANBus;
  sent : list Event;
  background : list Event
}.

Definition with_bus (f : CANBus -> CANBus) (r : Run) : Run :=
  {| bus := f (bus r); sent := sent r; background := background r |}.

Definition record (e : Event) (r : Run) : Run :=
  {| bus := bus r; sent := sent r ++ [e]; background := background r |}.

Definition deliver (rxs : list (option twai_message_t * Z)) (r : Run) : Run :=
  let '(_, b, ev) := receive_all rxs (bus r) in
  {| bus := b; sent := sent r; background := background r ++ ev |}.

(** The loop of [CANBus::waitAck].  [None]: the script ended while the loop
    was still spinning. *)
Fixpoint waitAck_loop (type start : Z) (ps : list Poll) (r : Run)
    : option (bool * Run) :=
  match ps with
  | [] => None
  | p :: ps' =>
      let r := deliver (arrivals p) r in
      if to_ms (clock p - start) <? 100 then
        if pendingAck_ (bus r) =? type
        then Some (true, with_bus (set_pendingAck 0) r)
        else waitAck_loop type start ps' r
      else Some (false, r)
  end.

(** [CANBus::waitAck]. *)
Definition waitAck (type addr : Z) (w : WaitScript) (r : Run)
    : option (bool * Run) :=
  waitAck_loop type (wait_start w) (polls w) r.

(** The sequence tag chosen for the chunk at [offset]. *)
Definition chunk_seq (fragmented : bool) (offset chunk size : nat) : Z :=
  if negb fragmented then SINGLE
  else if (offset =? 0)%nat then START
  else if (size <=? offset + chunk)%nat then END
  else MIDDLE.

(** The frame built for the chunk at [offset]. *)
Definition chunk_frame (prio addr type : Z) (fragmented : bool)
    (buf : list Z) (offset : nat) : twai_message_t :=
  let chunk := Nat.min 8 (length buf - offset) in
  {| identifier :=
       buildId prio addr (chunk_seq fragmented offset chunk (length buf)) type;
     data_length_code := Z.of_nat chunk;
     data := fill_data (take chunk (drop offset buf)) |}.

(** The loop [while (offset < buf.size())] of [send].  [drv n] is the
    result of the call of [twai_transmit] made when [n] events have been
    recorded on this thread.  The result is [ESP_OK] when the loop ran to
    its end and the driver's error when it returned early; [None] when
    [fuel] turns did not suffice ([length buf] turns always do, see
    [send_frames_all_ok]). *)
Fixpoint send_frames (fuel : nat) (drv : nat -> esp_err_t)
    (prio addr type : Z) (fragmented : bool) (buf : list Z)
    (offset : nat) (r : Run) : option (esp_err_t * Run) :=
  if (offset <? length buf)%nat then
    match fuel with
    | O => None
    | S fuel' =>
        let chunk := Nat.min 8 (length buf - offset) in
        let m := chunk_frame prio addr type fragmented buf offset in
        let e := drv (length (sent r)) in
        let r := record (Transmit m 100) r in
        if esp_ok e
        then send_frames fuel' drv prio addr type fragmented buf
               (offset + chunk) r
        else Some (e, r)
    end
  else Some (ESP_OK, r).

(** [if (errorCb_) errorCb_(type, addr)]. *)
Definition report_error (type addr : Z) (r : Run) : Run :=
  match errorCb_ (bus r) with
  | Some cb => record (ErrorCallback cb type addr) r
  | None => r
  end.

(** The loop [while (true)] of [send] with what follows it.  Every turn
    that reaches [waitAck] takes the next script.  [None]: the scripts ended
    before [send] returned. *)
Fixpoint send_attempts (drv : nat -> esp_err_t) (prio addr type : Z)
    (fragmented : bool) (buf : list Z) (scripts : list WaitScript)
    (attempts : Z) (r : Run) : option (esp_err_t * Run * list WaitScript) :=
  match send_frames (length buf) drv prio addr type fragmented buf 0 r with
  | None => None
  | Some (e, r1) =>
      if negb (esp_ok e) then Some (e, r1, scripts)
      else if (retryLimit_ (bus r1) =? 0) || negb fragmented
      then Some (ESP_OK, r1, scripts)
      else
        match scripts with
        | [] => None
        | w :: rest =>
            match waitAck type addr w r1 with
            | None => None
            | Some (true, r2) => Some (ESP_OK, r2, rest)
            | Some (false, r2) =>
                let attempts := to_u8 (attempts + 1) in
                if retryLimit_ (bus r2) <? attempts
                then Some (ESP_FAIL, report_error type addr r2, rest)
                else send_attempts drv prio addr type fragmented buf
                       rest attempts r2
            end
        end
  end.

(** [CANBus::send<T>(prio, addr, msg)]; [msg] is the object representation
    of the message. *)
Definition send (T : MsgType) (prio addr : Z) (msg : list Z)
    (drv : nat -> esp_err_t) (scripts : list WaitScript) (r : Run)
    : option (esp_err_t * Run * list WaitScript) :=
  let type := TypeID T in
  let raw := msg in
  let len := sizeof T in
  let buf := take len raw in
  let fragmented := (8 <? len)%nat in
  let buf := if fragmented then buf ++ [crc8 raw len] else buf in
  send_attempts drv prio addr type fragmented buf scripts 0 r.

(** ** Vocabulary of the statements *)

(** The frames among a list of events, in order. *)
Definition frames_of (l : list Event) : list twai_message_t :=
  omap (fun e => match e with Transmit m _ => Some m | _ => None end) l.

(** The application callbacks among a list of events. *)
Definition callbacks_of (l : list Event) : list (nat * list Z) :=
  omap (fun e => match e with Callback cb msg => Some (cb, msg)
                         | _ => None end) l.

(** The error callbacks among a list of events. *)
Definition errors_of (l : list Event) : list (nat * Z * Z) :=
  omap (fun e => match e with ErrorCallback cb t a => Some (cb, t, a)
                         | _ => None end) l.

(** A driver that accepts every frame. *)
Definition drv_ok (_ : nat) : esp_err_t := ESP_OK.

(** A run starting from object [b] with nothing recorded yet. *)
Definition start_run (b : CANBus) : Run :=
  {| bus := b; sent := []; background := [] |}.

(** The entry that [fragMap_[baseId]] denotes: the stored one, or the
    value-initialised one that [operator[]] creates. *)
Definition entry_at (b : CANBus) (baseId : Z) : FragEntry :=
  default {| entry_data := []; timestamp := 0 |} (fragMap_ b !! baseId).

(** The frames one pass of the transmit loop hands to the driver, from
    [offset] on, when the driver accepts each of them. *)
Fixpoint fragments (fuel : nat) (prio addr type : Z) (fragmented : bool)
    (buf : list Z) (offset : nat) : list twai_message_t :=
  if (offset <? length buf)%nat then
    match fuel with
    | O => []
    | S fuel' =>
        chunk_frame prio addr type fragmented buf offset ::
        fragments fuel' prio addr type fragmented buf
          (offset + Nat.min 8 (length buf - offset))
    end
  else [].

(** The byte stream [send<T>] splits, and the frames of one pass over it. *)
Definition send_buf (T : MsgType) (msg : list Z) : list Z :=
  if (8 <? sizeof T)%nat
  then take (sizeof T) msg ++ [crc8 msg (sizeof T)]
  else take (sizeof T) msg.

Definition send_pass (T : MsgType) (prio addr : Z) (msg : list Z)
    : list twai_message_t :=
  let buf := send_buf T msg in
  fragments (length buf) prio addr (TypeID T) (8 <? sizeof T)%nat buf 0.

(** The run after the frames [ms] were handed to [twai_transmit] by the
    transmit loop. *)
Definition record_all (ms : list twai_message_t) (r : Run) : Run :=
  {| bus := bus r;
     sent := sent r ++ map (fun m => Transmit m 100) ms;
     background := background r |}.

(** The sequence tags of a list of frames. *)
Definition seq_tags (ms : list twai_message_t) : list Z :=
  map (fun m => id_seq (identifier m)) ms.

(** An arrival that is an ACK frame whose value is [type]. *)
Definition is_ack_for (type : Z) (rx : option twai_message_t * Z) : bool :=
  match fst rx with
  | Some m => (id_type (identifier m) =? ACK_TYPE_ID) && (ack_value m =? type)
  | None => false
  end.

(** The content of [pendingAck_] after the arrivals [rxs], from content
    [v]: every ACK frame overwrites it. *)
Definition slot_step (v : Z) (rx : option twai_message_t * Z) : Z :=
  match fst rx with
  | Some m => if id_type (identifier m) =? ACK_TYPE_ID then ack_value m else v
  | None => v
  end.

Definition slot_after (rxs : list (option twai_message_t * Z)) (v : Z) : Z :=
  fold_left slot_step rxs v.

(** The polls of a wait that precede the first clock reading at or past
    100 ms after [start]: the evaluations of the loop condition that let
    the body run. *)
Fixpoint in_window (start : Z) (ps : list Poll) : list Poll :=
  match ps with
  | [] => []
  | p :: ps' =>
      if to_ms (clock p - start) <? 100 then p :: in_window start ps' else []
  end.

(** A wait whose clock reaches the end of the window. *)
Definition elapses (w : WaitScript) : Prop :=
  exists p, p ∈ polls w /\ 100 <= to_ms (clock p - wait_start w).

(** A wait during whose window an ACK frame with value [type] arrives. *)
Definition acked_in_window (type : Z) (w : WaitScript) : Prop :=
  exists p rx,
    p ∈ in_window (wait_start w) (polls w) /\ rx ∈ arrivals p /\
    is_ack_for type rx = true.

(** A wait during which no ACK frame with value [type] arrives. *)
Definition unanswered (type : Z) (w : WaitScript) : Prop :=
  forall p rx, p ∈ polls w -> rx ∈ arrivals p -> is_ack_for type rx = false.

(** The events of [dispatch type data] with registry [hs]. *)
Definition dispatch_events (hs : gmap Z Handler) (type : Z) (data : list Z)
    : list Event :=
  match hs !! type with
  | Some h =>
      if (length data <? handler_sizeof h)%nat then []
      else [Callback (handler_cb h) (take (handler_sizeof h) data)]
  | None => []
  end.

(** The identifier fields, checked on one tuple. *)
Definition codec_check (p a s t : Z) : bool :=
  let id := buildId p a s t in
  (id_prio id =? p) && (id_from id =? a) && (id_seq id =? s) &&
  (id_type id =? t) && (id_base id =? buildId p a 0 t) &&
  (0 <=? id) && (id <? 2048).

Definition codec_check_all : bool :=
  forallb (fun p => forallb (fun a => forallb (fun s => forallb (fun t =>
    codec_check p a s t) (seqZ 0 8)) (seqZ 0 4)) (seqZ 0 16)) (seqZ 0 4).

(** ** Vocabulary of the further properties *)

(** The ACK frames among a list of arrivals, in order. *)
Definition ack_frames (rxs : list (option twai_message_t * Z))
    : list twai_message_t :=
  omap (fun rx => match fst rx with
                  | Some m =>
                      if id_type (identifier m) =? ACK_TYPE_ID
                      then Some m else None
                  | None => None
                  end) rxs.

(** An arrival that is a data frame of routing key [key]. *)
Definition about (key : Z) (rx : option twai_message_t * Z) : bool :=
  match fst rx with
  | Some m => negb (id_type (identifier m) =? ACK_TYPE_ID) &&
              (id_base (identifier m) =? key)
  | None => false
  end.

(** The inner loop of [crc8] is one-to-one on bytes, checked value by
    value. *)
Definition crc8_inner_injective_check : bool :=
  forallb (fun x => forallb (fun y =>
    implb (crc8_inner 8 x =? crc8_inner 8 y) (x =? y))
    (seqZ 0 256)) (seqZ 0 256).

(** [MsgTraits<T, TYPE_ID>::TypeID].  [declared] is the [ID] that
    [DEFINE_CAN_MESSAGE(Name, ID, ...)] gave the type, if it was declared
    that way: the macro specialises [MsgTraits<Name, ID>] with
    [TypeID = ID]; every other instance is the primary template, whose
    [TypeID] is its second template argument. *)
Definition MsgTraits_TypeID (declared : option Z) (TYPE_ID : Z) : Z :=
  match declared with
  | Some ID => if TYPE_ID =? ID then ID else TYPE_ID
  | None => TYPE_ID
  end.

(** A message type declared with [DEFINE_CAN_MESSAGE(Name, ID, ...)], as
    [send<Name>] and [onReceive<Name>] see it: both read
    [MsgTraits<Name, 0>::TypeID]. *)
Definition DEFINE_CAN_MESSAGE (ID : Z) (size : nat) : MsgType :=
  {| sizeof := size; TypeID := MsgTraits_TypeID (Some ID) 0 |}.

(** * Properties *)

(** ** Identifier codec *)

Lemma codec_check_all_true : codec_check_all = true.
Proof. vm_compute. reflexivity. Qed.

Lemma in_seqZ_range (x lo n : Z) : lo <= x < lo + n -> In x (seqZ lo n).
Proof. intros H. apply list_elem_of_In, elem_of_seqZ. lia. Qed.

Lemma codec_check_range (p a s t : Z) :
  0 <= p <= 3 -> 0 <= a <= 15 -> 0 <= s <= 3 -> 0 <= t <= 7 ->
  codec_check p a s t = true.
Proof.
  intros Hp Ha Hs Ht.
  pose proof codec_check_all_true as H. unfold codec_check_all in H.
  rewrite forallb_forall in H.
  specialize (H p (in_seqZ_range p 0 4 ltac:(lia))).
  rewrite forallb_forall in H.
  specialize (H a (in_seqZ_range a 0 16 ltac:(lia))).
  rewrite forallb_forall in H.
  specialize (H s (in_seqZ_range s 0 4 ltac:(lia))).
  rewrite forallb_forall in H.
  exact (H t (in_seqZ_range t 0 8 ltac:(lia))).
Qed.

Lemma codec_fields (p a s t : Z) :
  0 <= p <= 3 -> 0 <= a <= 15 -> 0 <= s <= 3 -> 0 <= t <= 7 ->
  let id := buildId p a s t in
  id_prio id = p /\ id_from id = a /\ id_seq id = s /\ id_type id = t /\
  id_base id = buildId p a 0 t /\ 0 <= id < 2048.
Proof.
  intros Hp Ha Hs Ht id.
  pose proof (codec_check_range p a s t Hp Ha Hs Ht) as H.
  unfold codec_check in H. fold id in H.
  repeat (apply andb_prop in H; destruct H as [H ?]).
  repeat split; try (apply Z.eqb_eq; assumption); lia.
Qed.

Lemma land_ones_small (x n : Z) :
  0 <= n -> 0 <= x <= Z.ones n -> Z.land x (Z.ones n) = x.
Proof.
  intros Hn Hx. rewrite Z.land_ones by assumption.
  apply Z.mod_small. rewrite Z.ones_equiv in Hx. lia.
Qed.

(** C6: for priority in [0,3], address in [0,15], sequence in [0,3] and
    type in [0,7], the identifier packed by [buildId] is the 11-bit value
    [priority<<9 | address<<5 | sequence<<3 | type], and decoding it gives
    back exactly the four fields. *)
Theorem decode_buildId_roundtrip (p a s t : Z) :
  0 <= p <= 3 -> 0 <= a <= 15 -> 0 <= s <= 3 -> 0 <= t <= 7 ->
  decode (buildId p a s t) = (p, a, s, t) /\
  buildId p a s t =
    Z.lor (Z.lor (Z.lor (Z.shiftl p 9) (Z.shiftl a 5)) (Z.shiftl s 3)) t /\
  0 <= buildId p a s t < 2 ^ 11.
Proof.
  intros Hp Ha Hs Ht.
  destruct (codec_fields p a s t Hp Ha Hs Ht)
    as (H1 & H2 & H3 & H4 & _ & H6).
  split; [unfold decode; congruence |]. split; [| exact H6].
  assert (Ep : Z.land p 0x03 = p)
    by (apply (land_ones_small p 2); [lia | exact Hp]).
  assert (Ea : Z.land a 0x0F = a)
    by (apply (land_ones_small a 4); [lia | exact Ha]).
  assert (Es : Z.land s 0x03 = s)
    by (apply (land_ones_small s 2); [lia | exact Hs]).
  assert (Et : Z.land t 0x07 = t)
    by (apply (land_ones_small t 3); [lia | exact Ht]).
  unfold buildId. rewrite Ep, Ea, Es, Et. reflexivity.
Qed.

Lemma decode_buildId_roundtrip_witness :
  decode (buildId 2 6 3 1) = (2, 6, 3, 1) /\
  buildId 2 6 3 1 =
    Z.lor (Z.lor (Z.lor (Z.shiftl 2 9) (Z.shiftl 6 5)) (Z.shiftl 3 3)) 1 /\
  0 <= buildId 2 6 3 1 < 2 ^ 11.
Proof. apply decode_buildId_roundtrip; lia. Defined.

(** The example of the usage notes: 0b10_0110_11_001. *)
Example decode_documented_example :
  decode 1241 = (2, 6, 3, 1) /\ 1241 = 2 * 512 + 6 * 32 + 3 * 8 + 1.
Proof. split; reflexivity. Qed.

(** The packing is the sum of the shifted fields, and an 11-bit value. *)
Lemma buildId_packed (p a s t : Z) :
  0 <= p <= 3 -> 0 <= a <= 15 -> 0 <= s <= 3 -> 0 <= t <= 7 ->
  buildId p a s t = p * 512 + a * 32 + s * 8 + t.
Proof.
  intros Hp Ha Hs Ht.
  assert (Hc : forallb (fun p => forallb (fun a => forallb (fun s =>
            forallb (fun t => buildId p a s t =? p * 512 + a * 32 + s * 8 + t)
              (seqZ 0 8)) (seqZ 0 4)) (seqZ 0 16)) (seqZ 0 4) = true)
    by (vm_compute; reflexivity).
  rewrite forallb_forall in Hc.
  specialize (Hc p (in_seqZ_range p 0 4 ltac:(lia))).
  rewrite forallb_forall in Hc.
  specialize (Hc a (in_seqZ_range a 0 16 ltac:(lia))).
  rewrite forallb_forall in Hc.
  specialize (Hc s (in_seqZ_range s 0 4 ltac:(lia))).
  rewrite forallb_forall in Hc.
  apply Z.eqb_eq, (Hc t (in_seqZ_range t 0 8 ltac:(lia))).
Qed.

(** Out-of-range arguments are masked to their field width. *)
Lemma buildId_masks (p a s t : Z) :
  buildId p a s t =
  buildId (Z.land p 0x03) (Z.land a 0x0F) (Z.land s 0x03) (Z.land t 0x07).
Proof.
  unfold buildId.
  rewrite <- !Z.land_assoc. reflexivity.
Qed.

Lemma land_ones_range (x : Z) (n : Z) :
  0 <= n -> 0 <= Z.land x (Z.ones n) <= Z.ones n.
Proof.
  intros Hn. rewrite Z.land_ones by assumption.
  rewrite Z.ones_equiv.
  pose proof (Z.mod_pos_bound x (2 ^ n) ltac:(apply Z.pow_pos_nonneg; lia)).
  lia.
Qed.

(** The fields a receiver reads from an identifier built with arbitrary
    8-bit arguments. *)
Lemma buildId_fields (p a s t : Z) :
  let id := buildId p a s t in
  id_seq id = Z.land s 0x03 /\ id_type id = Z.land t 0x07 /\
  id_from id = Z.land a 0x0F /\
  id_base id = buildId p a 0 t.
Proof.
  intros id. subst id. rewrite buildId_masks.
  pose proof (land_ones_range p 2 ltac:(lia)) as Hp.
  pose proof (land_ones_range a 4 ltac:(lia)) as Ha.
  pose proof (land_ones_range s 2 ltac:(lia)) as Hs.
  pose proof (land_ones_range t 3 ltac:(lia)) as Ht.
  change (Z.ones 2) with 3 in *. change (Z.ones 4) with 15 in *.
  change (Z.ones 3) with 7 in *.
  destruct (codec_fields _ _ _ _ Hp Ha Hs Ht) as (_ & H2 & H3 & H4 & H5 & _).
  repeat split; try assumption.
  rewrite H5. rewrite (buildId_masks p a 0 t). reflexivity.
Qed.

(** ** Checksum *)

Lemma to_u8_mod (x : Z) : to_u8 x = x mod 256.
Proof. unfold to_u8. change 0xFF with (Z.ones 8). apply Z.land_ones. lia. Qed.

Lemma to_u8_range (x : Z) : 0 <= to_u8 x < 256.
Proof. rewrite to_u8_mod. apply Z.mod_pos_bound. lia. Qed.

Lemma top_bit_test (c : Z) :
  negb (Z.land c 0x80 =? 0) = Z.testbit c 7.
Proof.
  assert (H : Z.land c 0x80 = if Z.testbit c 7 then 0x80 else 0).
  { apply Z.bits_inj'. intros n Hn.
    rewrite Z.land_spec.
    assert (Hp : Z.testbit 0x80 n = (7 =? n)).
    { change 0x80 with (2 ^ 7). apply Z.pow2_bits_eqb. lia. }
    rewrite Hp.
    destruct (Z.eqb_spec 7 n) as [<- | Hne].
    - rewrite andb_true_r. destruct (Z.testbit c 7); reflexivity.
    - rewrite andb_false_r.
      destruct (Z.testbit c 7).
      + rewrite Hp. reflexivity.
      + rewrite Z.bits_0. reflexivity. }
  rewrite H. destruct (Z.testbit c 7); reflexivity.
Qed.

Lemma land_lxor_distr (a b c : Z) :
  Z.land (Z.lxor a b) c = Z.lxor (Z.land a c) (Z.land b c).
Proof.
  apply Z.bits_inj'. intros n _.
  rewrite Z.lxor_spec, !Z.land_spec, Z.lxor_spec.
  destruct (Z.testbit a n), (Z.testbit b n), (Z.testbit c n); reflexivity.
Qed.

Lemma crc8_shift_bit_step (c : Z) : crc8_shift c = ChecksumSpec.bit_step c.
Proof.
  unfold crc8_shift, ChecksumSpec.bit_step, ChecksumSpec.shl8,
    ChecksumSpec.polynomial.
  rewrite top_bit_test, Z.shiftl_mul_pow2 by lia.
  change (2 ^ 1) with 2.
  destruct (Z.testbit c 7).
  - unfold to_u8. rewrite land_lxor_distr.
    change (Z.land 0x31 0xFF) with 0x31.
    fold (to_u8 (c * 2)). rewrite to_u8_mod. reflexivity.
  - apply to_u8_mod.
Qed.

Lemma crc8_inner_iter (n : nat) (c : Z) :
  crc8_inner n c = Nat.iter n ChecksumSpec.bit_step c.
Proof.
  revert c. induction n as [| n IH]; intros c; [reflexivity |].
  cbn [crc8_inner]. rewrite IH, crc8_shift_bit_step.
  symmetry. apply Nat.iter_succ_r.
Qed.

Lemma crc8_inner_range (n : nat) (c : Z) :
  0 <= c < 256 -> 0 <= crc8_inner n c < 256.
Proof.
  revert c. induction n as [| n IH]; intros c Hc; [exact Hc |].
  cbn [crc8_inner]. apply IH. unfold crc8_shift.
  destruct (negb _); apply to_u8_range.
Qed.

Lemma crc8_loop_range (data : list Z) (todo i : nat) (c : Z) :
  0 <= c < 256 -> 0 <= crc8_loop data todo i c < 256.
Proof.
  revert i c. induction todo as [| todo IH]; intros i c Hc; [exact Hc |].
  cbn [crc8_loop]. apply IH, crc8_inner_range, to_u8_range.
Qed.

(** Reading [data[i]] for [todo] indices from [i] on is a left fold over
    that slice of the array. *)
Lemma crc8_loop_fold (data : list Z) (todo i : nat) (c : Z) :
  (i + todo <= length data)%nat -> 0 <= c < 256 ->
  Forall (fun b => 0 <= b < 256) data ->
  crc8_loop data todo i c =
  fold_left ChecksumSpec.byte_step (take todo (drop i data)) c.
Proof.
  intros Hlen Hc Hdata. revert i c Hlen Hc.
  induction todo as [| todo IH]; intros i c Hlen Hc; [reflexivity |].
  cbn [crc8_loop].
  destruct (drop i data) as [| x rest] eqn:Hd.
  { apply (f_equal length) in Hd. rewrite length_drop in Hd.
    simpl in Hd. lia. }
  assert (Hx : nth i data 0 = x).
  { rewrite <- (take_drop i data) at 1. rewrite Hd.
    rewrite app_nth2 by (rewrite length_take; lia).
    rewrite length_take. replace (i - i `min` length data)%nat with O by lia.
    reflexivity. }
  assert (Hrest : drop (S i) data = rest).
  { replace (S i) with (i + 1)%nat by lia.
    rewrite <- drop_drop, Hd. reflexivity. }
  assert (Hxr : 0 <= x < 256).
  { rewrite Forall_forall in Hdata. apply Hdata.
    rewrite <- (take_drop i data), Hd. apply elem_of_app. right.
    constructor. }
  rewrite IH; [| lia | apply crc8_inner_range, to_u8_range].
  rewrite Hrest, Hx. cbn [take fold_left]. f_equal.
  unfold ChecksumSpec.byte_step. rewrite <- crc8_inner_iter. f_equal.
  rewrite to_u8_mod. apply Z.mod_small.
  assert (Hb : 0 <= Z.lxor c x < 2 ^ 8); [| exact Hb].
  split.
  - apply Z.lxor_nonneg. lia.
  - destruct (Z.eq_dec (Z.lxor c x) 0) as [-> | Hne]; [reflexivity |].
    apply Z.log2_lt_pow2; [pose proof (proj2 (Z.lxor_nonneg c x)); lia |].
    eapply Z.le_lt_trans; [apply Z.log2_lxor; lia |].
    apply Z.max_lub_lt.
    + destruct (Z.eq_dec c 0) as [-> | ?]; [reflexivity |].
      apply Z.log2_lt_pow2; lia.
    + destruct (Z.eq_dec x 0) as [-> | ?]; [reflexivity |].
      apply Z.log2_lt_pow2; lia.
Qed.

(** C7: on every sequence of bytes, [crc8] is the checksum of the
    specification (polynomial 0x31, initial value 0, bytes in order, each
    XORed in and followed by eight shift-or-shift-and-XOR steps), and its
    result is one byte.  Being a function, it gives equal results on equal
    inputs. *)
Theorem crc8_is_checksum (bytes : list Z) :
  Forall (fun b => 0 <= b < 256) bytes ->
  crc8 bytes (length bytes) = ChecksumSpec.checksum bytes /\
  0 <= crc8 bytes (length bytes) < 256.
Proof.
  intros Hb. split.
  - unfold crc8, ChecksumSpec.checksum, ChecksumSpec.initial.
    rewrite crc8_loop_fold by (simpl; auto; lia).
    rewrite drop_0, firstn_all. reflexivity.
  - apply crc8_loop_range. lia.
Qed.

Lemma crc8_is_checksum_witness :
  crc8 [49; 50; 51; 52; 53; 54; 55; 56; 57] 9 =
    ChecksumSpec.checksum [49; 50; 51; 52; 53; 54; 55; 56; 57] /\
  0 <= crc8 [49; 50; 51; 52; 53; 54; 55; 56; 57] 9 < 256.
Proof.
  apply (crc8_is_checksum [49; 50; 51; 52; 53; 54; 55; 56; 57]).
  repeat constructor; lia.
Defined.

Example crc8_check_value :
  crc8 [49; 50; 51; 52; 53; 54; 55; 56; 57] 9 = 0xA2.
Proof. reflexivity. Qed.

(** ** Dispatch registry *)

Ltac run_m :=
  unfold handle_end, dispatch, invoke, sendAck, frag_ref, frag_store,
    frag_erase, bind, ret, emit, update, gets; cbv beta.

Lemma onReceive_lookup (T : MsgType) (cb : nat) (b : CANBus) :
  handlers_ (onReceive T cb b) !! TypeID T =
  Some {| handler_sizeof := sizeof T; handler_cb := cb |}.
Proof. unfold onReceive; cbn. apply lookup_insert_eq. Qed.

(** Re-registering a type replaces the earlier closure. *)
Lemma onReceive_last_wins (T T' : MsgType) (cb cb' : nat) (b : CANBus) :
  TypeID T = TypeID T' ->
  handlers_ (onReceive T' cb' (onReceive T cb b)) !! TypeID T =
  Some {| handler_sizeof := sizeof T'; handler_cb := cb' |}.
Proof. intros ->. apply onReceive_lookup. Qed.

Lemma dispatch_eq (type : Z) (data : list Z) (b : CANBus) :
  dispatch type data b = (tt, b, dispatch_events (handlers_ b) type data).
Proof.
  unfold dispatch_events. run_m.
  destruct (handlers_ b !! type) as [h |]; [| reflexivity].
  destruct (length data <? handler_sizeof h)%nat; reflexivity.
Qed.

Lemma dispatch_found (type : Z) (data : list Z) (b : CANBus) (h : Handler) :
  handlers_ b !! type = Some h ->
  dispatch type data b =
  (tt, b, if (length data <? handler_sizeof h)%nat then []
          else [Callback (handler_cb h) (take (handler_sizeof h) data)]).
Proof.
  intros H. run_m. rewrite H.
  destruct (length data <? handler_sizeof h)%nat; reflexivity.
Qed.

(** C9: dispatching a type without a registered handler invokes nothing
    and changes nothing; so does dispatching fewer bytes than the
    registered handler's message size. *)
Theorem dispatch_unknown_or_short (type : Z) (data : list Z) (b : CANBus) :
  (handlers_ b !! type = None -> dispatch type data b = (tt, b, [])) /\
  (forall h, handlers_ b !! type = Some h ->
     (length data < handler_sizeof h)%nat ->
     dispatch type data b = (tt, b, [])).
Proof.
  split.
  - intros H. run_m. rewrite H. reflexivity.
  - intros h H Hlt. rewrite (dispatch_found _ _ _ _ H).
    apply Nat.ltb_lt in Hlt. rewrite Hlt. reflexivity.
Qed.

Lemma dispatch_unknown_or_short_witness :
  dispatch 5 [1; 2] CANBus_new = (tt, CANBus_new, []) /\
  dispatch 2 [1; 2; 3]
    (onReceive {| sizeof := 8; TypeID := 2 |} 0%nat CANBus_new) =
  (tt, onReceive {| sizeof := 8; TypeID := 2 |} 0%nat CANBus_new, []).
Proof.
  split.
  - apply (proj1 (dispatch_unknown_or_short 5 [1; 2] CANBus_new)).
    reflexivity.
  - apply (proj2 (dispatch_unknown_or_short 2 [1; 2; 3]
                    (onReceive {| sizeof := 8; TypeID := 2 |} 0%nat
                       CANBus_new))
             {| handler_sizeof := 8; handler_cb := 0 |}).
    + reflexivity.
    + simpl. lia.
Defined.

(** ** Receive path *)

Lemma handleReceive_nothing (now : Z) (b : CANBus) :
  handleReceive None now b = (tt, b, []).
Proof. reflexivity. Qed.

(** C10: a frame whose type field is the ACK type-id, whatever its
    sequence bits, only writes the pending-acknowledgment slot: the first
    payload byte, or 0 for an empty payload.  The reassembly table and the
    registry are left as they were and nothing is invoked or transmitted. *)
Theorem ack_frame_sets_slot_only (m : twai_message_t) (now : Z) (b : CANBus) :
  id_type (identifier m) = ACK_TYPE_ID ->
  exists b',
    handleReceive (Some m) now b = (tt, b', []) /\
    pendingAck_ b' =
      (if 0 <? data_length_code m then nth 0 (data m) 0 else 0) /\
    fragMap_ b' = fragMap_ b /\
    handlers_ b' = handlers_ b /\
    retryLimit_ b' = retryLimit_ b /\
    errorCb_ b' = errorCb_ b.
Proof.
  intros H. exists (set_pendingAck (ack_value m) b).
  unfold handleReceive. rewrite H. cbn. repeat split; reflexivity.
Qed.

Lemma ack_frame_sets_slot_only_witness :
  exists b',
    handleReceive
      (Some {| identifier := buildId 3 4 MIDDLE ACK_TYPE_ID;
               data_length_code := 1;
               data := [5; 0; 0; 0; 0; 0; 0; 0] |}) 0 CANBus_new
      = (tt, b', []) /\
    pendingAck_ b' = 5 /\
    fragMap_ b' = fragMap_ CANBus_new /\
    handlers_ b' = handlers_ CANBus_new /\
    retryLimit_ b' = retryLimit_ CANBus_new /\
    errorCb_ b' = errorCb_ CANBus_new.
Proof.
  apply (ack_frame_sets_slot_only
           {| identifier := buildId 3 4 MIDDLE ACK_TYPE_ID;
              data_length_code := 1;
              data := [5; 0; 0; 0; 0; 0; 0; 0] |} 0 CANBus_new).
  reflexivity.
Defined.

Lemma set_fragMap_twice (f g : gmap Z FragEntry) (b : CANBus) :
  set_fragMap f (set_fragMap g b) = set_fragMap f b.
Proof. reflexivity. Qed.

Lemma entry_at_some (b : CANBus) (k : Z) (e : FragEntry) :
  fragMap_ b !! k = Some e -> entry_at b k = e.
Proof. unfold entry_at. intros ->. reflexivity. Qed.

Lemma entry_at_none (b : CANBus) (k : Z) :
  fragMap_ b !! k = None ->
  entry_at b k = {| entry_data := []; timestamp := 0 |}.
Proof. unfold entry_at. intros ->. reflexivity. Qed.

(** What [fragMap_[baseId]] followed by a continuation amounts to. *)
Lemma frag_ref_bind {A} (k : Z) (f : FragEntry -> M A) (b : CANBus) :
  bind (frag_ref k) f b =
  f (entry_at b k)
    (match fragMap_ b !! k with
     | Some _ => b
     | None => set_fragMap (<[k := entry_at b k]> (fragMap_ b)) b
     end).
Proof.
  unfold bind, frag_ref, entry_at.
  destruct (fragMap_ b !! k) as [e |]; cbn;
    match goal with |- context [f ?e ?s] => destruct (f e s) as [[r b2] l2] end;
    reflexivity.
Qed.

Lemma frag_store_after_ref (k : Z) (e : FragEntry) (b : CANBus) :
  frag_store k e
    (match fragMap_ b !! k with
     | Some _ => b
     | None => set_fragMap (<[k := entry_at b k]> (fragMap_ b)) b
     end) = (tt, set_fragMap (<[k := e]> (fragMap_ b)) b, []).
Proof.
  unfold frag_store, update.
  destruct (fragMap_ b !! k); cbn; [reflexivity |].
  rewrite insert_insert_eq. reflexivity.
Qed.

Lemma frag_erase_after_ref (k : Z) (b : CANBus) :
  frag_erase k
    (match fragMap_ b !! k with
     | Some _ => b
     | None => set_fragMap (<[k := entry_at b k]> (fragMap_ b)) b
     end) = (tt, set_fragMap (delete k (fragMap_ b)) b, []).
Proof.
  unfold frag_erase, update.
  destruct (fragMap_ b !! k); cbn; [reflexivity |].
  rewrite delete_insert_eq. reflexivity.
Qed.

Section ReceiveOneFrame.

Variables (m : twai_message_t) (now : Z) (b : CANBus).

Let id := identifier m.
Let key := id_base id.

Hypothesis not_ack : id_type id <> ACK_TYPE_ID.

(** [START]: the entry is replaced by one holding this frame's bytes and
    the current time. *)
Lemma handleReceive_start :
  id_seq id = START ->
  handleReceive (Some m) now b =
  (tt, set_fragMap
         (<[key := {| entry_data := payload m; timestamp := now |}]>
            (fragMap_ b)) b, []).
Proof.
  intros Hs. unfold handleReceive. fold id.
  apply Z.eqb_neq in not_ack. rewrite not_ack, Hs. fold key.
  rewrite frag_ref_bind. cbn [Z.eqb START Pos.eqb].
  apply frag_store_after_ref.
Qed.

(** [MIDDLE] or [END] on an expired entry: the entry is erased. *)
Lemma handleReceive_expired :
  id_seq id = MIDDLE \/ id_seq id = END ->
  expired (timestamp (entry_at b key)) now = true ->
  handleReceive (Some m) now b =
  (tt, set_fragMap (delete key (fragMap_ b)) b, []).
Proof.
  intros Hs He. unfold handleReceive. fold id.
  apply Z.eqb_neq in not_ack. rewrite not_ack. fold key.
  rewrite frag_ref_bind.
  destruct Hs as [-> | ->]; cbn [Z.eqb START MIDDLE END Pos.eqb];
    rewrite He; apply frag_erase_after_ref.
Qed.

(** [MIDDLE] on a live entry: the frame's bytes are appended. *)
Lemma handleReceive_middle :
  id_seq id = MIDDLE ->
  expired (timestamp (entry_at b key)) now = false ->
  handleReceive (Some m) now b =
  (tt, set_fragMap (<[key := append (entry_at b key) m]> (fragMap_ b)) b, []).
Proof.
  intros Hs He. unfold handleReceive. fold id.
  apply Z.eqb_neq in not_ack. rewrite not_ack, Hs. fold key.
  rewrite frag_ref_bind. cbn [Z.eqb START MIDDLE Pos.eqb].
  rewrite He. apply frag_store_after_ref.
Qed.

(** [END] on a live entry: the last accumulated byte is compared with the
    checksum of the bytes before it; the entry is erased either way. *)
Lemma handleReceive_end :
  id_seq id = END ->
  expired (timestamp (entry_at b key)) now = false ->
  let acc := entry_data (entry_at b key) ++ payload m in
  let body := removelast acc in
  handleReceive (Some m) now b =
  (tt, set_fragMap (delete key (fragMap_ b)) b,
   if (length acc <? 1)%nat then []
   else if List.last acc 0 =? crc8 body (length body)
   then dispatch_events (handlers_ b) (id_type id) body ++
        [Transmit (ack_frame (id_from id) (id_type id)) 20]
   else []).
Proof.
  intros Hs He acc body. unfold handleReceive. fold id.
  apply Z.eqb_neq in not_ack. rewrite not_ack, Hs. fold key.
  rewrite frag_ref_bind. cbn [Z.eqb START MIDDLE END Pos.eqb].
  rewrite He. unfold handle_end.
  unfold bind at 1. rewrite frag_store_after_ref.
  cbn [append entry_data timestamp]. fold acc.
  destruct (length acc <? 1)%nat.
  { unfold frag_erase, update. cbn. rewrite delete_insert_eq. reflexivity. }
  fold body.
  unfold bind at 1. unfold frag_store at 1, update at 1.
  cbn [fragMap_ set_fragMap]. rewrite set_fragMap_twice, insert_insert_eq.
  destruct (List.last acc 0 =? crc8 body (length body)).
  - unfold bind at 1. unfold bind at 1. rewrite dispatch_eq.
    unfold sendAck, emit, frag_erase, update. cbn.
    rewrite delete_insert_eq, app_nil_r. reflexivity.
  - unfold bind, frag_erase, update, ret. cbn.
    rewrite delete_insert_eq. reflexivity.
Qed.

(** [SINGLE]: the frame's bytes go to [dispatch] directly; the table is
    not consulted for a decision, but [fragMap_[baseId]] has run. *)
Lemma handleReceive_single :
  id_seq id = SINGLE ->
  handleReceive (Some m) now b =
  dispatch (id_type id) (payload m)
    (match fragMap_ b !! key with
     | Some _ => b
     | None => set_fragMap (<[key := entry_at b key]> (fragMap_ b)) b
     end).
Proof.
  intros Hs. unfold handleReceive. fold id.
  apply Z.eqb_neq in not_ack. rewrite not_ack, Hs. fold key.
  rewrite frag_ref_bind. reflexivity.
Qed.

End ReceiveOneFrame.

(** ** Reassembly table *)

(** C5: an [END] frame, with a length code of at most 8, processed on an
    entry that has not expired removes the entry for its routing key in
    every case (checksum match, mismatch, nothing accumulated); when the
    popped last byte differs from the checksum of the bytes before it, or
    nothing was accumulated, no handler is invoked and no frame is
    transmitted. *)
Theorem end_frame_checksum_gate (m : twai_message_t) (now : Z) (b : CANBus) :
  let key := id_base (identifier m) in
  let acc := entry_data (entry_at b key) ++ payload m in
  let body := removelast acc in
  in_bounds m ->
  id_type (identifier m) <> ACK_TYPE_ID ->
  id_seq (identifier m) = END ->
  expired (timestamp (entry_at b key)) now = false ->
  exists b' ev,
    handleReceive (Some m) now b = (tt, b', ev) /\
    fragMap_ b' = delete key (fragMap_ b) /\
    fragMap_ b' !! key = None /\
    (acc = [] -> ev = []) /\
    (acc <> [] -> List.last acc 0 <> crc8 body (length body) -> ev = []) /\
    (acc <> [] -> List.last acc 0 = crc8 body (length body) ->
     ev = dispatch_events (handlers_ b) (id_type (identifier m)) body ++
          [Transmit (ack_frame (id_from (identifier m))
                       (id_type (identifier m))) 20]).
Proof.
  intros key acc body _ Hack Hseq Hlive.
  rewrite (handleReceive_end m now b Hack Hseq Hlive).
  fold key. fold acc. fold body.
  eexists _, _. split; [reflexivity |].
  cbn [fragMap_ set_fragMap].
  split; [reflexivity |]. split; [apply lookup_delete_eq |].
  destruct acc as [| x acc'] eqn:Hacc.
  - repeat split; intros; try reflexivity; congruence.
  - assert (Hlen : (length (x :: acc') <? 1)%nat = false)
      by (apply Nat.ltb_ge; simpl; lia).
    rewrite Hlen.
    split; [discriminate |]. split; intros _ Hcrc.
    + apply Z.eqb_neq in Hcrc. rewrite Hcrc. reflexivity.
    + apply Z.eqb_eq in Hcrc. rewrite Hcrc. reflexivity.
Qed.

Lemma end_frame_checksum_gate_witness :
  let m := {| identifier := buildId 0 1 END 2; data_length_code := 2;
              data := [9; 0; 0; 0; 0; 0; 0; 0] |} in
  let b := set_fragMap
             {[ buildId 0 1 0 2 :=
                  {| entry_data := [1; 2; 3; 4; 5; 6; 7; 8];
                     timestamp := 0 |} ]} CANBus_new in
  exists b' ev,
    handleReceive (Some m) 0 b = (tt, b', ev) /\
    fragMap_ b' = delete (id_base (identifier m)) (fragMap_ b) /\
    fragMap_ b' !! id_base (identifier m) = None /\
    ev = [].
Proof.
  intros m b.
  destruct (end_frame_checksum_gate m 0 b) as (b' & ev & H1 & H2 & H3 & _ & H5 & _).
  - split; [reflexivity | cbn; lia].
  - vm_compute. discriminate.
  - reflexivity.
  - reflexivity.
  - exists b', ev. repeat split; try assumption.
    apply H5; vm_compute; discriminate.
Defined.

(** [MIDDLE] or [END] for a key whose entry has expired, or that has no
    entry while the clock reads more than the reassembly timeout: nothing
    is appended, the key is left without entry, nothing is invoked or
    transmitted. *)
Lemma stale_fragment_dropped (m : twai_message_t) (now : Z) (b : CANBus) :
  let key := id_base (identifier m) in
  id_type (identifier m) <> ACK_TYPE_ID ->
  id_seq (identifier m) = MIDDLE \/ id_seq (identifier m) = END ->
  (exists e, fragMap_ b !! key = Some e /\ expired (timestamp e) now = true) \/
  (fragMap_ b !! key = None /\ REASSEMBLY_TIMEOUT < to_ms now) ->
  handleReceive (Some m) now b =
  (tt, set_fragMap (delete key (fragMap_ b)) b, []).
Proof.
  intros key Hack Hseq H.
  apply handleReceive_expired; [assumption | assumption |].
  fold key. destruct H as [(e & He & Hx) | (Hn & Ht)].
  - rewrite (entry_at_some _ _ _ He). exact Hx.
  - rewrite (entry_at_none _ _ Hn). unfold expired. cbn [timestamp].
    rewrite Z.sub_0_r. apply Z.ltb_lt. exact Ht.
Qed.

(** C4, at a failing input: a [MIDDLE] frame for a key without entry,
    received while the clock reads 100 ms, is not discarded.  The entry
    that [fragMap_[baseId]] creates carries the epoch as its timestamp, so
    it does not count as expired, and the frame's bytes are stored in it. *)
Theorem middle_without_entry_is_kept :
  let m := {| identifier := buildId 0 1 MIDDLE 2; data_length_code := 2;
              data := [9; 8; 0; 0; 0; 0; 0; 0] |} in
  let key := id_base (identifier m) in
  let b' := snd (fst (handleReceive (Some m) (100 * ticks_per_ms)
                        CANBus_new)) in
  fragMap_ CANBus_new !! key = None /\
  fragMap_ b' !! key = Some {| entry_data := [9; 8]; timestamp := 0 |}.
Proof. split; reflexivity. Qed.

(** The same for an [END] frame: with no entry and an early clock its
    bytes are taken as a complete message. *)
Lemma end_without_entry_is_processed :
  let T := {| sizeof := 1; TypeID := 2 |} in
  let m := {| identifier := buildId 0 1 END 2; data_length_code := 2;
              data := [9; crc8 [9] 1; 0; 0; 0; 0; 0; 0] |} in
  snd (handleReceive (Some m) (100 * ticks_per_ms)
         (onReceive T 0%nat CANBus_new)) =
  [Callback 0 [9]; Transmit (ack_frame 1 2) 20].
Proof. reflexivity. Qed.

(** ** Fragmentation *)

Lemma record_all_nil (r : Run) : record_all [] r = r.
Proof.
  destruct r. unfold record_all. cbn. rewrite app_nil_r. reflexivity.
Qed.

Lemma record_all_cons (m : twai_message_t) (ms : list twai_message_t)
    (r : Run) :
  record_all ms (record (Transmit m 100) r) = record_all (m :: ms) r.
Proof. unfold record_all, record. cbn. rewrite <- app_assoc. reflexivity. Qed.

(** With a driver that accepts every frame, the transmit loop runs to its
    end and hands over exactly [fragments]. *)
Lemma send_frames_all_ok (drv : nat -> esp_err_t) (prio addr type : Z)
    (fragmented : bool) (buf : list Z) :
  (forall n, drv n = ESP_OK) ->
  forall (fuel offset : nat) (r : Run),
    (length buf - offset <= fuel)%nat ->
    send_frames fuel drv prio addr type fragmented buf offset r =
    Some (ESP_OK,
          record_all (fragments fuel prio addr type fragmented buf offset) r).
Proof.
  intros Hdrv. induction fuel as [| fuel IH]; intros offset r Hfuel.
  - cbn [send_frames fragments].
    destruct (Nat.ltb_spec offset (length buf)); [lia |].
    rewrite record_all_nil. reflexivity.
  - cbn [send_frames fragments].
    destruct (Nat.ltb_spec offset (length buf)) as [Hlt | Hge].
    + rewrite Hdrv. cbn [esp_ok]. rewrite IH by lia.
      rewrite record_all_cons. reflexivity.
    + rewrite record_all_nil. reflexivity.
Qed.

Lemma payload_chunk_frame (prio addr type : Z) (fragmented : bool)
    (buf : list Z) (offset : nat) :
  payload (chunk_frame prio addr type fragmented buf offset) =
  take (Nat.min 8 (length buf - offset)) (drop offset buf).
Proof.
  unfold payload, chunk_frame, fill_data. cbn [data_length_code data].
  rewrite Nat2Z.id. apply take_app_length'.
  rewrite length_take, length_drop. lia.
Qed.

Lemma chunk_frame_shape (prio addr type : Z) (fragmented : bool)
    (buf : list Z) (offset : nat) :
  (offset < length buf)%nat ->
  let m := chunk_frame prio addr type fragmented buf offset in
  1 <= data_length_code m <= 8 /\ length (data m) = 8%nat.
Proof.
  intros Hlt m. subst m. unfold chunk_frame, fill_data.
  cbn [data_length_code data].
  rewrite length_app, length_replicate, length_take, length_drop. lia.
Qed.

(** The payloads of the frames, put end to end, are the bytes of the
    buffer from [offset] on. *)
Lemma fragments_concat (prio addr type : Z) (fragmented : bool)
    (buf : list Z) (fuel offset : nat) :
  (length buf - offset <= fuel)%nat ->
  concat (map payload (fragments fuel prio addr type fragmented buf offset))
  = drop offset buf.
Proof.
  revert offset. induction fuel as [| fuel IH]; intros offset Hfuel.
  - cbn [fragments].
    destruct (Nat.ltb_spec offset (length buf)); [lia |].
    symmetry. apply drop_ge. lia.
  - cbn [fragments].
    destruct (Nat.ltb_spec offset (length buf)) as [Hlt | Hge].
    + cbn [map concat]. rewrite IH by lia.
      rewrite payload_chunk_frame, <- drop_drop. apply take_drop.
    + symmetry. apply drop_ge. lia.
Qed.

Lemma fragments_shape (prio addr type : Z) (fragmented : bool)
    (buf : list Z) (fuel offset : nat) :
  Forall (fun m => 1 <= data_length_code m <= 8 /\ length (data m) = 8%nat)
    (fragments fuel prio addr type fragmented buf offset).
Proof.
  revert offset. induction fuel as [| fuel IH]; intros offset.
  - cbn [fragments]. destruct (offset <? length buf)%nat; constructor.
  - cbn [fragments].
    destruct (Nat.ltb_spec offset (length buf)) as [Hlt | Hge];
      [| constructor].
    constructor; [| apply IH].
    apply chunk_frame_shape. exact Hlt.
Qed.

Lemma seq_of_chunk_frame (prio addr type : Z) (fragmented : bool)
    (buf : list Z) (offset : nat) :
  id_seq (identifier (chunk_frame prio addr type fragmented buf offset)) =
  chunk_seq fragmented offset (Nat.min 8 (length buf - offset)) (length buf).
Proof.
  unfold chunk_frame. cbn [identifier].
  destruct (buildId_fields prio addr
              (chunk_seq fragmented offset (Nat.min 8 (length buf - offset))
                 (length buf)) type) as (H & _).
  rewrite H. unfold chunk_seq.
  destruct fragmented; cbn [negb]; [| reflexivity].
  destruct (offset =? 0)%nat; [reflexivity |].
  destruct (length buf <=? _)%nat; reflexivity.
Qed.

(** Past the first chunk of a fragmented message the tags are [MIDDLE]
    up to the last frame, which is [END]. *)
Lemma fragments_tags_rest (prio addr type : Z) (buf : list Z)
    (fuel offset : nat) :
  (0 < offset < length buf)%nat -> (length buf - offset <= fuel)%nat ->
  let fs := fragments fuel prio addr type true buf offset in
  seq_tags fs = replicate (length fs - 1) MIDDLE ++ [END].
Proof.
  revert offset. induction fuel as [| fuel IH]; intros offset Ho Hfuel;
    [lia |].
  cbn [fragments].
  destruct (Nat.ltb_spec offset (length buf)) as [Hlt | Hge]; [| lia].
  cbn zeta. cbn [seq_tags map length].
  rewrite seq_of_chunk_frame. unfold chunk_seq. cbn [negb].
  destruct (Nat.eqb_spec offset 0) as [-> | _]; [lia |].
  set (chunk := Nat.min 8 (length buf - offset)).
  destruct (Nat.leb_spec (length buf) (offset + chunk)) as [Hend | Hmid].
  - destruct fuel as [| fuel']; cbn [fragments];
      destruct (Nat.ltb_spec (offset + chunk) (length buf)); try lia;
      reflexivity.
  - specialize (IH (offset + chunk)%nat ltac:(lia) ltac:(lia)).
    cbn zeta in IH. fold (seq_tags (fragments fuel prio addr type true buf
                                      (offset + chunk))).
    rewrite IH.
    assert (Hne : (1 <= length (fragments fuel prio addr type true buf
                                  (offset + chunk)))%nat).
    { destruct fuel as [| fuel']; [lia |]. cbn [fragments].
      destruct (Nat.ltb_spec (offset + chunk) (length buf)); [| lia].
      cbn. lia. }
    replace (S (length (fragments fuel prio addr type true buf
                          (offset + chunk))) - 1)%nat
      with (S (length (fragments fuel prio addr type true buf
                         (offset + chunk)) - 1)) by lia.
    reflexivity.
Qed.

(** ** Reassembly of the frames of one pass *)

Lemma receive_all_cons (rx : option twai_message_t) (now : Z)
    (rest : list (option twai_message_t * Z)) (b b1 b2 : CANBus)
    (ev1 ev2 : list Event) :
  handleReceive rx now b = (tt, b1, ev1) ->
  receive_all rest b1 = (tt, b2, ev2) ->
  receive_all ((rx, now) :: rest) b = (tt, b2, ev1 ++ ev2).
Proof.
  intros H1 H2. cbn [receive_all]. unfold bind. rewrite H1, H2. reflexivity.
Qed.

Lemma fragments_done (prio addr type : Z) (fragmented : bool)
    (buf : list Z) (fuel offset : nat) :
  (length buf <= offset)%nat ->
  fragments fuel prio addr type fragmented buf offset = [].
Proof.
  intros H. destruct fuel; cbn [fragments];
    destruct (Nat.ltb_spec offset (length buf)); (lia || reflexivity).
Qed.

Section Reassembly.

Variables (prio addr type : Z) (buf : list Z).

Let key := buildId prio addr 0 type.
Let rtype := Z.land type 0x07.
Let rfrom := Z.land addr 0x0F.

Hypothesis type_not_ack : rtype <> ACK_TYPE_ID.

(** What the [END] branch emits once [buf] has been accumulated. *)
Let end_events (hs : gmap Z Handler) : list Event :=
  if List.last buf 0 =? crc8 (removelast buf) (length (removelast buf))
  then dispatch_events hs rtype (removelast buf) ++
       [Transmit (ack_frame rfrom rtype) 20]
  else [].

Lemma chunk_frame_fields (fragmented : bool) (offset : nat) :
  let id := identifier (chunk_frame prio addr type fragmented buf offset) in
  id_type id = rtype /\ id_from id = rfrom /\ id_base id = key.
Proof.
  cbn zeta. unfold chunk_frame. cbn [identifier].
  destruct (buildId_fields prio addr
              (chunk_seq fragmented offset (Nat.min 8 (length buf - offset))
                 (length buf)) type) as (_ & H2 & H3 & H4).
  repeat split; assumption.
Qed.

Lemma reassemble_rest (t0 : Z) :
  forall (fuel offset : nat) (b : CANBus) (ts : list Z),
    (0 < offset < length buf)%nat ->
    (length buf - offset <= fuel)%nat ->
    fragMap_ b !! key =
      Some {| entry_data := take offset buf; timestamp := t0 |} ->
    Forall (fun t => expired t0 t = false) ts ->
    length ts = length (fragments fuel prio addr type true buf offset) ->
    receive_all
      (zip (map Some (fragments fuel prio addr type true buf offset)) ts) b =
    (tt, set_fragMap (delete key (fragMap_ b)) b, end_events (handlers_ b)).
Proof.
  induction fuel as [| fuel IH]; intros offset b ts Ho Hfuel Hentry Hts Hlen;
    [lia |].
  revert Hlen. cbn [fragments].
  destruct (Nat.ltb_spec offset (length buf)) as [_ | ?]; [| lia].
  set (chunk := Nat.min 8 (length buf - offset)).
  set (f := chunk_frame prio addr type true buf offset).
  assert (Hchunk : (1 <= chunk <= length buf - offset)%nat)
    by (unfold chunk; lia).
  destruct ts as [| t ts]; [discriminate |]. intros Hlen.
  cbn [map zip zip_with].
  apply Forall_cons in Hts. destruct Hts as [Ht Hts].
  destruct (chunk_frame_fields true offset) as (Hty & Hfr & Hky).
  fold f in Hty, Hfr, Hky.
  assert (Hnack : id_type (identifier f) <> ACK_TYPE_ID) by congruence.
  assert (Hseq : id_seq (identifier f) =
                 if (length buf <=? offset + chunk)%nat then END else MIDDLE).
  { unfold f. rewrite seq_of_chunk_frame. unfold chunk_seq. cbn [negb].
    destruct (Nat.eqb_spec offset 0); [lia | reflexivity]. }
  assert (Hat : entry_at b (id_base (identifier f)) =
                {| entry_data := take offset buf; timestamp := t0 |}).
  { rewrite Hky. apply entry_at_some. exact Hentry. }
  assert (Hlive : expired (timestamp (entry_at b (id_base (identifier f)))) t
                  = false) by (rewrite Hat; exact Ht).
  assert (Hacc : take offset buf ++ payload f = take (offset + chunk) buf).
  { unfold f. rewrite payload_chunk_frame. apply take_take_drop. }
  destruct (Nat.leb_spec (length buf) (offset + chunk)) as [Hend | Hmid].
  - rewrite fragments_done in * by lia.
    destruct ts; [| discriminate]. cbn [map zip zip_with].
    rewrite <- (app_nil_r (end_events (handlers_ b))).
    eapply receive_all_cons; [| reflexivity].
    rewrite (handleReceive_end f t b Hnack Hseq Hlive).
    rewrite Hat, Hky, Hty, Hfr. cbn [entry_data].
    rewrite Hacc, take_ge by lia.
    unfold end_events.
    destruct (Nat.ltb_spec (length buf) 1); [lia |]. reflexivity.
  - pose proof (handleReceive_middle f t b Hnack Hseq Hlive) as Hstep.
    rewrite Hat, Hky in Hstep. unfold append in Hstep.
    cbn [entry_data timestamp] in Hstep. rewrite Hacc in Hstep.
    rewrite <- (app_nil_l (end_events (handlers_ b))).
    eapply receive_all_cons; [exact Hstep |].
    rewrite IH with (offset := (offset + chunk)%nat);
      [| lia | lia | cbn [fragMap_ set_fragMap]; apply lookup_insert_eq
       | exact Hts | cbn [length] in Hlen; lia ].
    cbn [fragMap_ set_fragMap handlers_].
    rewrite set_fragMap_twice, delete_insert_eq. reflexivity.
Qed.

End Reassembly.

(** ** What the receive path leaves alone *)

Lemma set_fragMap_same (b : CANBus) : set_fragMap (fragMap_ b) b = b.
Proof. destruct b. reflexivity. Qed.

Lemma id_seq_cases (id : Z) :
  id_seq id = START \/ id_seq id = MIDDLE \/ id_seq id = END \/
  id_seq id = SINGLE.
Proof.
  pose proof (land_ones_range (Z.shiftr id 3) 2 ltac:(lia)) as H.
  change (Z.ones 2) with 3 in H. unfold id_seq, START, MIDDLE, END, SINGLE.
  lia.
Qed.

(** A frame that is not an ACK frame changes at most the reassembly
    table. *)
Lemma handleReceive_data_frame (m : twai_message_t) (now : Z) (b : CANBus) :
  id_type (identifier m) <> ACK_TYPE_ID ->
  exists fm ev, handleReceive (Some m) now b = (tt, set_fragMap fm b, ev).
Proof.
  intros Hack.
  destruct (id_seq_cases (identifier m)) as [Hs | [Hs | [Hs | Hs]]].
  - rewrite (handleReceive_start m now b Hack Hs). eauto.
  - destruct (expired (timestamp (entry_at b (id_base (identifier m)))) now)
      eqn:He.
    + rewrite (handleReceive_expired m now b Hack (or_introl Hs) He). eauto.
    + rewrite (handleReceive_middle m now b Hack Hs He). eauto.
  - destruct (expired (timestamp (entry_at b (id_base (identifier m)))) now)
      eqn:He.
    + rewrite (handleReceive_expired m now b Hack (or_intror Hs) He). eauto.
    + rewrite (handleReceive_end m now b Hack Hs He). cbn zeta. eauto.
  - rewrite (handleReceive_single m now b Hack Hs), dispatch_eq.
    destruct (fragMap_ b !! id_base (identifier m)).
    + exists (fragMap_ b). rewrite set_fragMap_same. eauto.
    + eauto.
Qed.

(** The configuration and the registry are not written by the receive
    path, and the slot follows [slot_step]. *)
Lemma handleReceive_bus (rx : option twai_message_t) (now : Z) (b : CANBus) :
  let b' := snd (fst (handleReceive rx now b)) in
  retryLimit_ b' = retryLimit_ b /\ errorCb_ b' = errorCb_ b /\
  handlers_ b' = handlers_ b /\
  pendingAck_ b' = slot_step (pendingAck_ b) (rx, now).
Proof.
  destruct rx as [m |]; [| repeat split; reflexivity].
  unfold slot_step. cbn [fst].
  destruct (Z.eqb_spec (id_type (identifier m)) ACK_TYPE_ID) as [Hack | Hack].
  - unfold handleReceive. rewrite Hack. cbn. repeat split; reflexivity.
  - destruct (handleReceive_data_frame m now b Hack) as (fm & ev & ->).
    cbn. repeat split; reflexivity.
Qed.

Lemma receive_all_bus (rxs : list (option twai_message_t * Z)) (b : CANBus) :
  let b' := snd (fst (receive_all rxs b)) in
  retryLimit_ b' = retryLimit_ b /\ errorCb_ b' = errorCb_ b /\
  handlers_ b' = handlers_ b /\
  pendingAck_ b' = slot_after rxs (pendingAck_ b).
Proof.
  revert b. induction rxs as [| [rx now] rest IH]; intros b.
  - repeat split; reflexivity.
  - cbn [receive_all]. unfold bind.
    pose proof (handleReceive_bus rx now b) as H1.
    destruct (handleReceive rx now b) as [[[] b1] ev1].
    pose proof (IH b1) as H2.
    destruct (receive_all rest b1) as [[[] b2] ev2].
    cbn in *. unfold slot_after in *. cbn [fold_left].
    destruct H1 as (A1 & A2 & A3 & A4), H2 as (B1 & B2 & B3 & B4).
    repeat split; congruence.
Qed.

Lemma deliver_bus (rxs : list (option twai_message_t * Z)) (r : Run) :
  let r' := deliver rxs r in
  sent r' = sent r /\
  retryLimit_ (bus r') = retryLimit_ (bus r) /\
  errorCb_ (bus r') = errorCb_ (bus r) /\
  handlers_ (bus r') = handlers_ (bus r) /\
  pendingAck_ (bus r') = slot_after rxs (pendingAck_ (bus r)).
Proof.
  unfold deliver. pose proof (receive_all_bus rxs (bus r)) as H.
  destruct (receive_all rxs (bus r)) as [[[] b'] ev]. cbn in *.
  split; [reflexivity | exact H].
Qed.

(** The slot can only come to hold [type] through an ACK frame with that
    value. *)
Lemma slot_after_unanswered (type : Z)
    (rxs : list (option twai_message_t * Z)) (v : Z) :
  v <> type ->
  (forall rx, rx ∈ rxs -> is_ack_for type rx = false) ->
  slot_after rxs v <> type.
Proof.
  revert v. induction rxs as [| rx rest IH]; intros v Hv Hno; [exact Hv |].
  unfold slot_after. cbn [fold_left]. apply IH.
  - specialize (Hno rx ltac:(constructor)).
    unfold slot_step, is_ack_for in *. destruct (fst rx) as [m |]; [| exact Hv].
    destruct (id_type (identifier m) =? ACK_TYPE_ID); [| exact Hv].
    cbn in Hno. apply Z.eqb_neq. exact Hno.
  - intros rx' Hin. apply Hno. constructor. exact Hin.
Qed.

Lemma slot_after_answered (type : Z)
    (rxs : list (option twai_message_t * Z)) (v : Z) :
  v <> type -> slot_after rxs v = type ->
  exists rx, rx ∈ rxs /\ is_ack_for type rx = true.
Proof.
  intros Hv Hs.
  destruct (existsb (is_ack_for type) rxs) eqn:He.
  - apply existsb_exists in He. destruct He as (rx & Hin & Hrx).
    exists rx. split; [apply list_elem_of_In; exact Hin | exact Hrx].
  - exfalso. apply (slot_after_unanswered type rxs v Hv); [| exact Hs].
    intros rx Hin. apply list_elem_of_In in Hin.
    destruct (is_ack_for type rx) eqn:Hrx; [| reflexivity].
    assert (existsb (is_ack_for type) rxs = true)
      by (apply existsb_exists; eauto).
    congruence.
Qed.

(** ** Waiting for the acknowledgment *)

Lemma slot_after_app (l1 l2 : list (option twai_message_t * Z)) (v : Z) :
  slot_after (l1 ++ l2) v = slot_after l2 (slot_after l1 v).
Proof. apply fold_left_app. Qed.

Lemma in_window_prefix (start : Z) (ps : list Poll) :
  in_window start ps = take (length (in_window start ps)) ps.
Proof.
  induction ps as [| p ps IH]; [reflexivity |].
  cbn [in_window]. destruct (to_ms (clock p - start) <? 100); [| reflexivity].
  cbn [length take]. f_equal. exact IH.
Qed.

(** [waitAck] writes nothing but the slot. *)
Lemma waitAck_loop_frame (type start : Z) (ps : list Poll) :
  forall (r r' : Run) (res : bool),
    waitAck_loop type start ps r = Some (res, r') ->
    sent r' = sent r /\
    retryLimit_ (bus r') = retryLimit_ (bus r) /\
    errorCb_ (bus r') = errorCb_ (bus r) /\
    handlers_ (bus r') = handlers_ (bus r).
Proof.
  induction ps as [| p ps IH]; intros r r' res H; [discriminate |].
  cbn [waitAck_loop] in H.
  destruct (deliver_bus (arrivals p) r) as (D1 & D2 & D3 & D4 & _).
  destruct (to_ms (clock p - start) <? 100).
  - destruct (pendingAck_ (bus (deliver (arrivals p) r)) =? type).
    + inversion H; subst. cbn. auto.
    + destruct (IH _ _ _ H) as (I1 & I2 & I3 & I4).
      repeat split; congruence.
  - inversion H; subst. auto.
Qed.

(** The loop returns once the script contains a reading at or past the end
    of the window. *)
Lemma waitAck_loop_returns (type start : Z) (ps : list Poll) (r : Run) :
  (exists p, p ∈ ps /\ 100 <= to_ms (clock p - start)) ->
  exists res r', waitAck_loop type start ps r = Some (res, r').
Proof.
  revert r. induction ps as [| p ps IH]; intros r (q & Hin & Hq).
  - inversion Hin.
  - cbn [waitAck_loop].
    destruct (Z.ltb_spec (to_ms (clock p - start)) 100) as [Hw | Hw];
      [| eauto].
    destruct (pendingAck_ (bus (deliver (arrivals p) r)) =? type); [eauto |].
    apply IH. exists q. split; [| exact Hq].
    inversion Hin; subst; [lia | assumption].
Qed.

(** The loop succeeds exactly when, at one of the polls inside the window,
    the slot holds [type]. *)
Lemma waitAck_loop_spec (type start : Z) (ps : list Poll) :
  forall (r r' : Run) (res : bool),
    waitAck_loop type start ps r = Some (res, r') ->
    (res = true <->
     exists k, (k < length (in_window start ps))%nat /\
       slot_after (concat (map arrivals (take (S k) ps)))
         (pendingAck_ (bus r)) = type).
Proof.
  induction ps as [| p ps IH]; intros r r' res H; [discriminate |].
  cbn [waitAck_loop in_window] in *.
  destruct (deliver_bus (arrivals p) r) as (_ & _ & _ & _ & Hslot).
  cbn zeta in Hslot.
  destruct (to_ms (clock p - start) <? 100).
  - destruct (Z.eqb_spec (pendingAck_ (bus (deliver (arrivals p) r))) type)
      as [Heq | Hne].
    + inversion H; subst res. split; [intros _ | reflexivity].
      exists 0%nat. split; [cbn; lia |].
      cbn [take map concat]. rewrite app_nil_r, <- Hslot. exact Heq.
    + rewrite (IH _ _ _ H). rewrite Hslot. split.
      * intros (k & Hk & Hs). exists (S k). split; [cbn; lia |].
        cbn [take map concat]. rewrite slot_after_app. exact Hs.
      * intros (k & Hk & Hs). destruct k as [| k].
        { cbn [take map concat] in Hs. rewrite app_nil_r in Hs.
          congruence. }
        exists k. split; [cbn in Hk; lia |].
        cbn [take map concat] in Hs. rewrite slot_after_app in Hs. exact Hs.
  - inversion H; subst res. split; [discriminate |].
    intros (k & Hk & _). cbn in Hk. lia.
Qed.

(** A successful wait leaves the slot cleared. *)
Lemma waitAck_loop_clears (type start : Z) (ps : list Poll) :
  forall (r r' : Run),
    waitAck_loop type start ps r = Some (true, r') ->
    pendingAck_ (bus r') = 0.
Proof.
  induction ps as [| p ps IH]; intros r r' H; [discriminate |].
  cbn [waitAck_loop] in H.
  destruct (to_ms (clock p - start) <? 100); [| discriminate].
  destruct (pendingAck_ (bus (deliver (arrivals p) r)) =? type).
  - inversion H; subst. reflexivity.
  - apply (IH _ _ H).
Qed.

(** C3, amended: for a message with a non-zero type-id and a slot that
    was idle (0) before the arrivals [history], a wait attempt returns once
    the clock reaches the end of the window, and it succeeds exactly when
    at one of its polls inside the 100 ms window the most recent ACK frame
    processed so far, during the window or before it began, carried the
    message's type-id.  In particular a successful wait implies that an ACK
    frame with this value was received, before or during the window; and
    it leaves the slot idle again. *)
Theorem waitAck_succeeds_iff (type addr : Z)
    (history : list (option twai_message_t * Z)) (w : WaitScript)
    (r0 : Run) :
  type <> 0 -> pendingAck_ (bus r0) = 0 ->
  let r := deliver history r0 in
  (elapses w -> exists res r', waitAck type addr w r = Some (res, r')) /\
  forall (res : bool) (r' : Run),
    waitAck type addr w r = Some (res, r') ->
    (res = true <->
     exists k, (k < length (in_window (wait_start w) (polls w)))%nat /\
       slot_after
         (history ++ concat (map arrivals (take (S k) (polls w)))) 0 = type)
    /\
    (res = true ->
     exists rx, (rx ∈ history \/
                 exists p, p ∈ in_window (wait_start w) (polls w) /\
                           rx ∈ arrivals p) /\
                is_ack_for type rx = true) /\
    (res = true -> pendingAck_ (bus r') = 0).
Proof.
  intros Hty Hidle r.
  split; [apply waitAck_loop_returns |].
  intros res r' H. unfold waitAck in H.
  pose proof (waitAck_loop_spec _ _ _ _ _ _ H) as Hspec.
  destruct (deliver_bus history r0) as (_ & _ & _ & _ & Hslot).
  cbn zeta in Hslot. fold r in Hslot. rewrite Hslot, Hidle in Hspec.
  assert (Hiff : res = true <->
     exists k, (k < length (in_window (wait_start w) (polls w)))%nat /\
       slot_after
         (history ++ concat (map arrivals (take (S k) (polls w)))) 0 = type).
  { rewrite Hspec. split; intros (k & Hk & Hs); exists k; split;
      try exact Hk; [rewrite slot_after_app | rewrite <- slot_after_app];
      exact Hs. }
  split; [exact Hiff |].
  split; [| intros ->; apply (waitAck_loop_clears _ _ _ _ _ H)].
  intros Hres. apply Hiff in Hres. destruct Hres as (k & Hk & Hs).
  destruct (slot_after_answered type _ 0 ltac:(congruence) Hs)
    as (rx & Hin & Hrx).
  exists rx. split; [| exact Hrx].
  apply elem_of_app in Hin. destruct Hin as [Hin | Hin]; [left; exact Hin |].
  right.
  apply list_elem_of_In, in_concat in Hin. destruct Hin as (l & Hl & Hrxl).
  apply in_map_iff in Hl. destruct Hl as (p & <- & Hp).
  exists p. split; [| apply list_elem_of_In; exact Hrxl].
  rewrite in_window_prefix.
  assert (Hsub : take (S k) (polls w) =
                 take (S k) (take (length (in_window (wait_start w) (polls w)))
                               (polls w))).
  { rewrite take_take. f_equal. lia. }
  rewrite Hsub in Hp. apply list_elem_of_In in Hp.
  eapply subseteq_take. exact Hp.
Qed.

Lemma waitAck_succeeds_iff_witness :
  let history := [(Some (ack_frame 1 3), 0)] in
  let w := {| wait_start := 1000 * ticks_per_ms;
              polls := [ {| arrivals := []; clock := 1000 * ticks_per_ms |};
                         {| arrivals := []; clock := 1100 * ticks_per_ms |} ]
           |} in
  (exists res r',
     waitAck 3 1 w (deliver history (start_run CANBus_new)) =
     Some (res, r')) /\
  exists rx, (rx ∈ history \/
              exists p, p ∈ in_window (wait_start w) (polls w) /\
                        rx ∈ arrivals p) /\
             is_ack_for 3 rx = true.
Proof.
  intros history w.
  destruct (waitAck_succeeds_iff 3 1 history w (start_run CANBus_new))
    as [H1 H2].
  - lia.
  - reflexivity.
  - split.
    + apply H1. exists {| arrivals := []; clock := 1100 * ticks_per_ms |}.
      split; [right; left | vm_compute; discriminate].
    + destruct (H2 true _ eq_refl) as (_ & H3 & _).
      apply H3. reflexivity.
Defined.

(** C3 as stated fails in both directions.  The slot keeps the value of
    an ACK frame that was processed before the wait began, and the wait
    succeeds on it although no ACK frame arrives during its window.  And
    an ACK frame for the awaited type that arrives inside the window is
    lost when a second ACK frame overwrites the slot before the next poll:
    the wait times out. *)
Lemma waitAck_ack_in_window_counterexample :
  let b := snd (fst (handleReceive (Some (ack_frame 1 3)) 0 CANBus_new)) in
  let w := {| wait_start := 1000 * ticks_per_ms;
              polls := [ {| arrivals := [];
                            clock := 1000 * ticks_per_ms |} ] |} in
  let w' := {| wait_start := 0;
               polls := [ {| arrivals := [(Some (ack_frame 1 3), 0);
                                          (Some (ack_frame 1 4), 0)];
                             clock := 0 |};
                          {| arrivals := []; clock := 100 * ticks_per_ms |} ]
            |} in
  ((exists r', waitAck 3 1 w (start_run b) = Some (true, r')) /\
   ~ acked_in_window 3 w) /\
  ((exists r', waitAck 3 1 w' (start_run CANBus_new) = Some (false, r')) /\
   acked_in_window 3 w').
Proof.
  intros b w w'. split; split.
  - eexists. reflexivity.
  - intros (p & rx & Hp & Hrx & _).
    assert (Hw : in_window (wait_start w) (polls w) =
                 [ {| arrivals := []; clock := 1000 * ticks_per_ms |} ])
      by reflexivity.
    rewrite Hw in Hp. apply list_elem_of_singleton in Hp. subst p.
    inversion Hrx.
  - eexists. reflexivity.
  - exists {| arrivals := [(Some (ack_frame 1 3), 0);
                           (Some (ack_frame 1 4), 0)];
              clock := 0 |}, (Some (ack_frame 1 3), 0).
    split; [| split]; [left | left | reflexivity].
Qed.

(** The slot's idle value 0 is also a type-id: on a fresh object a wait
    for type-id 0 succeeds at its first poll with no frame received at
    all. *)
Lemma waitAck_type0_without_ack :
  let w := {| wait_start := 0;
              polls := [ {| arrivals := []; clock := 0 |} ] |} in
  waitAck 0 1 w (start_run CANBus_new) = Some (true, start_run CANBus_new).
Proof. reflexivity. Qed.

(** A wait that finds the slot different from [type] and during which no
    ACK frame with value [type] arrives times out. *)
Lemma waitAck_loop_unanswered (type start : Z) (ps : list Poll) :
  forall r : Run,
    pendingAck_ (bus r) <> type ->
    (forall p rx, p ∈ ps -> rx ∈ arrivals p -> is_ack_for type rx = false) ->
    (exists p, p ∈ ps /\ 100 <= to_ms (clock p - start)) ->
    exists r',
      waitAck_loop type start ps r = Some (false, r') /\
      sent r' = sent r /\
      retryLimit_ (bus r') = retryLimit_ (bus r) /\
      errorCb_ (bus r') = errorCb_ (bus r) /\
      pendingAck_ (bus r') <> type.
Proof.
  induction ps as [| p ps IH]; intros r Hv Hno (q & Hin & Hq).
  - inversion Hin.
  - cbn [waitAck_loop].
    destruct (deliver_bus (arrivals p) r) as (D1 & D2 & D3 & _ & D5).
    cbn zeta in *.
    assert (Hv' : pendingAck_ (bus (deliver (arrivals p) r)) <> type).
    { rewrite D5. apply slot_after_unanswered; [exact Hv |].
      intros rx Hrx. apply (Hno p rx); [constructor | exact Hrx]. }
    destruct (Z.ltb_spec (to_ms (clock p - start)) 100) as [Hw | Hw].
    + apply Z.eqb_neq in Hv'. rewrite Hv'. apply Z.eqb_neq in Hv'.
      assert (Hno' : forall p' rx, p' ∈ ps -> rx ∈ arrivals p' ->
                       is_ack_for type rx = false).
      { intros p' rx Hp'. apply Hno. constructor. exact Hp'. }
      assert (Hel : exists p', p' ∈ ps /\ 100 <= to_ms (clock p' - start)).
      { exists q. split; [| exact Hq].
        inversion Hin; subst; [lia | assumption]. }
      destruct (IH (deliver (arrivals p) r) Hv' Hno' Hel)
        as (r' & E & S1 & S2 & S3 & S4).
      exists r'. repeat split; congruence.
    + exists (deliver (arrivals p) r). repeat split; assumption.
Qed.

Lemma waitAck_unanswered (type addr : Z) (w : WaitScript) (r : Run) :
  pendingAck_ (bus r) <> type -> unanswered type w -> elapses w ->
  exists r',
    waitAck type addr w r = Some (false, r') /\
    sent r' = sent r /\
    retryLimit_ (bus r') = retryLimit_ (bus r) /\
    errorCb_ (bus r') = errorCb_ (bus r) /\
    pendingAck_ (bus r') <> type.
Proof. intros Hv Hno He. apply waitAck_loop_unanswered; assumption. Qed.

(** ** Sending *)

Lemma send_unfold (T : MsgType) (prio addr : Z) (msg : list Z)
    (drv : nat -> esp_err_t) (scripts : list WaitScript) (r : Run) :
  send T prio addr msg drv scripts r =
  send_attempts drv prio addr (TypeID T) (8 <? sizeof T)%nat
    (send_buf T msg) scripts 0 r.
Proof. unfold send, send_buf. reflexivity. Qed.

Lemma frames_of_record_all (ms : list twai_message_t) (r : Run) :
  frames_of (sent (record_all ms r)) = frames_of (sent r) ++ ms.
Proof.
  unfold record_all, frames_of. cbn [sent]. rewrite omap_app. f_equal.
  induction ms as [| m ms IH]; [reflexivity |]. cbn. f_equal. exact IH.
Qed.

Lemma errors_of_record_all (ms : list twai_message_t) (r : Run) :
  errors_of (sent (record_all ms r)) = errors_of (sent r).
Proof.
  unfold record_all, errors_of. cbn [sent]. rewrite omap_app.
  rewrite <- (app_nil_r (omap _ (sent r))) at 2. f_equal.
  induction ms as [| m ms IH]; [reflexivity |]. cbn. exact IH.
Qed.

(** One turn of the [while (true)] loop with an accepting driver, when the
    turn reaches [waitAck] and the wait times out. *)
Lemma send_attempts_timeout (drv : nat -> esp_err_t) (prio addr type : Z)
    (buf : list Z) (w : WaitScript) (rest : list WaitScript)
    (attempts : Z) (r : Run) :
  (forall n, drv n = ESP_OK) ->
  retryLimit_ (bus r) <> 0 ->
  pendingAck_ (bus r) <> type -> unanswered type w -> elapses w ->
  exists r2,
    send_attempts drv prio addr type true buf (w :: rest) attempts r =
      (if retryLimit_ (bus r) <? to_u8 (attempts + 1)
       then Some (ESP_FAIL, report_error type addr r2, rest)
       else send_attempts drv prio addr type true buf rest
              (to_u8 (attempts + 1)) r2) /\
    sent r2 = sent r ++
              map (fun m => Transmit m 100)
                (fragments (length buf) prio addr type true buf 0) /\
    retryLimit_ (bus r2) = retryLimit_ (bus r) /\
    errorCb_ (bus r2) = errorCb_ (bus r) /\
    pendingAck_ (bus r2) <> type.
Proof.
  intros Hdrv Hlim Hv Hno Hel.
  set (fs := fragments (length buf) prio addr type true buf 0).
  destruct (waitAck_unanswered type addr w (record_all fs r) Hv Hno Hel)
    as (r2 & Hw & S1 & S2 & S3 & S4).
  exists r2. split; [| repeat split; assumption].
  cbn [send_attempts].
  rewrite (send_frames_all_ok drv prio addr type true buf Hdrv) by lia.
  fold fs. cbn [esp_ok negb bus record_all orb].
  apply Z.eqb_neq in Hlim. rewrite Hlim. cbn [orb].
  rewrite Hw. rewrite S2. reflexivity.
Qed.

(** C8: when the retry limit is 0 or the message fits one frame, and the
    driver accepts every frame, [send] returns [ESP_OK] right after one pass
    of the transmit loop: no wait is performed (the waits offered are all
    left), the object is untouched and the error callback is not invoked. *)
Theorem send_without_ack (T : MsgType) (prio addr : Z) (msg : list Z)
    (drv : nat -> esp_err_t) (scripts : list WaitScript) (r : Run) :
  retryLimit_ (bus r) = 0 \/ (sizeof T <= 8)%nat ->
  (forall n, drv n = ESP_OK) ->
  exists r',
    send T prio addr msg drv scripts r = Some (ESP_OK, r', scripts) /\
    sent r' = sent r ++
              map (fun m => Transmit m 100) (send_pass T prio addr msg) /\
    bus r' = bus r /\ background r' = background r /\
    errors_of (sent r') = errors_of (sent r).
Proof.
  intros Hcase Hdrv.
  exists (record_all (send_pass T prio addr msg) r).
  split; [| split; [reflexivity | split; [reflexivity | split;
             [reflexivity | apply errors_of_record_all]]]].
  rewrite send_unfold. unfold send_pass.
  destruct scripts as [| w rest]; cbn [send_attempts];
    rewrite (send_frames_all_ok drv prio addr (TypeID T) _ _ Hdrv) by lia;
    cbn [esp_ok negb bus record_all];
    (destruct Hcase as [-> | Hle];
     [ reflexivity
     | destruct (Nat.ltb_spec 8 (sizeof T)); [lia |];
       cbn [negb]; rewrite orb_true_r; reflexivity ]).
Qed.

Lemma send_without_ack_witness :
  let T := {| sizeof := 2; TypeID := 1 |} in
  let r := start_run (setRetryLimit 2 CANBus_new) in
  exists r',
    send T 1 3 [1; 0] drv_ok [] r = Some (ESP_OK, r', []) /\
    sent r' = sent r ++ map (fun m => Transmit m 100) (send_pass T 1 3 [1; 0]) /\
    bus r' = bus r /\ background r' = background r /\
    errors_of (sent r') = errors_of (sent r).
Proof.
  intros T r. apply (send_without_ack T 1 3 [1; 0] drv_ok [] r).
  - right. simpl. lia.
  - reflexivity.
Defined.

(** Retry exhaustion.  With retry limit 2, a fragmented message, an
    accepting driver, a slot that does not hold the type-id when [send]
    starts, no ACK frame with that value arriving during the waits and each
    wait running to the end of its window, [send] makes exactly three
    passes of the transmit loop, then invokes the error callback once with
    the type-id and the address, and returns [ESP_FAIL]. *)
Lemma retry_exhaustion (T : MsgType) (prio addr : Z) (msg : list Z)
    (drv : nat -> esp_err_t) (w1 w2 w3 : WaitScript)
    (rest : list WaitScript) (r : Run) (cb : nat) :
  (8 < sizeof T)%nat ->
  retryLimit_ (bus r) = 2 ->
  errorCb_ (bus r) = Some cb ->
  (forall n, drv n = ESP_OK) ->
  pendingAck_ (bus r) <> TypeID T ->
  Forall (fun w => unanswered (TypeID T) w /\ elapses w) [w1; w2; w3] ->
  let pass := send_pass T prio addr msg in
  exists r',
    send T prio addr msg drv (w1 :: w2 :: w3 :: rest) r =
      Some (ESP_FAIL, r', rest) /\
    sent r' = sent r ++
              map (fun m => Transmit m 100) (pass ++ pass ++ pass) ++
              [ErrorCallback cb (TypeID T) addr] /\
    frames_of (sent r') = frames_of (sent r) ++ pass ++ pass ++ pass /\
    errors_of (sent r') = errors_of (sent r) ++ [(cb, TypeID T, addr)].
Proof.
  intros Hfrag Hlim Hcb Hdrv Hv Hw pass.
  apply Forall_cons in Hw. destruct Hw as [[N1 E1] Hw].
  apply Forall_cons in Hw. destruct Hw as [[N2 E2] Hw].
  apply Forall_cons in Hw. destruct Hw as [[N3 E3] _].
  rewrite send_unfold.
  assert (Hf : (8 <? sizeof T)%nat = true) by (apply Nat.ltb_lt; exact Hfrag).
  unfold pass, send_pass. rewrite Hf.
  set (buf := send_buf T msg).
  set (fs := fragments (length buf) prio addr (TypeID T) true buf 0).
  destruct (send_attempts_timeout drv prio addr (TypeID T) buf w1
              (w2 :: w3 :: rest) 0 r Hdrv ltac:(lia) Hv N1 E1)
    as (r1 & S1 & T1 & L1 & C1 & V1).
  rewrite S1, Hlim. change (to_u8 (0 + 1)) with 1.
  change (2 <? 1) with false. cbv iota.
  destruct (send_attempts_timeout drv prio addr (TypeID T) buf w2
              (w3 :: rest) 1 r1 Hdrv ltac:(lia) V1 N2 E2)
    as (r2 & S2 & T2 & L2 & C2 & V2).
  rewrite S2, L1, Hlim. change (to_u8 (1 + 1)) with 2.
  change (2 <? 2) with false. cbv iota.
  destruct (send_attempts_timeout drv prio addr (TypeID T) buf w3
              rest 2 r2 Hdrv ltac:(lia) V2 N3 E3)
    as (r3 & S3 & T3 & L3 & C3 & V3).
  rewrite S3, L2, L1, Hlim. change (to_u8 (2 + 1)) with 3.
  change (2 <? 3) with true. cbv iota.
  exists (report_error (TypeID T) addr r3).
  split; [reflexivity |].
  assert (Hsent : sent (report_error (TypeID T) addr r3) =
                  sent r ++ map (fun m => Transmit m 100) (fs ++ fs ++ fs) ++
                  [ErrorCallback cb (TypeID T) addr]).
  { unfold report_error. rewrite C3, C2, C1, Hcb. cbn [record sent].
    rewrite T3, T2, T1, !map_app, <- !app_assoc. reflexivity. }
  split; [exact Hsent |].
  rewrite Hsent. unfold frames_of, errors_of. rewrite !omap_app.
  assert (Hfr : forall l, omap (fun e => match e with
                                          | Transmit m _ => Some m
                                          | _ => None end)
                            (map (fun m => Transmit m 100) l) = l).
  { induction l as [| x l IH]; [reflexivity |]. cbn. f_equal. exact IH. }
  assert (Her : forall l : list twai_message_t,
             omap (fun e => match e with
                            | ErrorCallback c t a => Some (c, t, a)
                            | _ => None end)
               (map (fun m => Transmit m 100) l) = []).
  { induction l as [| x l IH]; [reflexivity |]. cbn. exact IH. }
  rewrite Hfr, Her. cbn. rewrite app_nil_r. split; reflexivity.
Qed.

Lemma retry_exhaustion_witness :
  let T := {| sizeof := 9; TypeID := 1 |} in
  let msg := [1; 2; 3; 4; 5; 6; 7; 8; 9] in
  let w := {| wait_start := 0;
              polls := [ {| arrivals := []; clock := 0 |};
                         {| arrivals := []; clock := 100 * ticks_per_ms |} ]
           |} in
  let r := start_run (onError 5 (setRetryLimit 2 CANBus_new)) in
  let pass := send_pass T 1 3 msg in
  exists r',
    send T 1 3 msg drv_ok [w; w; w] r = Some (ESP_FAIL, r', []) /\
    sent r' = sent r ++
              map (fun m => Transmit m 100) (pass ++ pass ++ pass) ++
              [ErrorCallback 5 1 3] /\
    frames_of (sent r') = frames_of (sent r) ++ pass ++ pass ++ pass /\
    errors_of (sent r') = errors_of (sent r) ++ [(5%nat, 1, 3)].
Proof.
  intros T msg w r pass.
  assert (Hw : unanswered 1 w /\ elapses w).
  { split.
    - intros p rx Hp Hrx.
      repeat (apply elem_of_cons in Hp; destruct Hp as [-> | Hp]);
        solve [inversion Hrx | inversion Hp].
    - exists {| arrivals := []; clock := 100 * ticks_per_ms |}.
      split; [right; left | vm_compute; discriminate]. }
  apply (retry_exhaustion T 1 3 msg drv_ok w w w [] r 5%nat).
  - simpl. lia.
  - reflexivity.
  - reflexivity.
  - reflexivity.
  - vm_compute. discriminate.
  - repeat constructor; apply Hw.
Defined.

(** C2, at a failing input: retry limit 2, a 9-byte message of type-id 0,
    an object fresh from the constructor, no frame ever received.  The
    slot's idle value 0 equals the type-id, so the first wait succeeds at
    its first poll: [send] returns [ESP_OK] after a single pass, takes one
    wait only, and records no error callback. *)
Theorem send_type0_not_retried :
  let T := {| sizeof := 9; TypeID := 0 |} in
  let msg := [1; 2; 3; 4; 5; 6; 7; 8; 9] in
  let w := {| wait_start := 0;
              polls := [ {| arrivals := []; clock := 0 |};
                         {| arrivals := []; clock := 100 * ticks_per_ms |} ]
           |} in
  let r := start_run (onError 5 (setRetryLimit 2 CANBus_new)) in
  let r' := record_all (send_pass T 1 3 msg) r in
  retryLimit_ (bus r) = 2 /\ pendingAck_ (bus r) = 0 /\
  send T 1 3 msg drv_ok [w; w; w] r = Some (ESP_OK, r', [w; w]) /\
  frames_of (sent r') = send_pass T 1 3 msg /\
  seq_tags (send_pass T 1 3 msg) = [START; END] /\
  errors_of (sent r') = [] /\
  background r' = [].
Proof. repeat split; reflexivity. Qed.

(** ** Fragmentation and reassembly round trip *)

Lemma land7_small (t : Z) : 0 <= t < 8 -> Z.land t 0x07 = t.
Proof.
  intros H. change 0x07 with (Z.ones 3). rewrite Z.land_ones by lia.
  apply Z.mod_small. exact H.
Qed.

(** A message of at most 8 bytes is one [SINGLE] frame. *)
Lemma send_pass_single (T : MsgType) (prio addr : Z) (msg : list Z) :
  length msg = sizeof T -> (1 <= sizeof T <= 8)%nat ->
  send_buf T msg = msg /\
  send_pass T prio addr msg = [chunk_frame prio addr (TypeID T) false msg 0].
Proof.
  intros Hlen Hsz.
  assert (Hb : send_buf T msg = msg).
  { unfold send_buf. destruct (Nat.ltb_spec 8 (sizeof T)); [lia |].
    apply take_ge. lia. }
  split; [exact Hb |].
  unfold send_pass. rewrite Hb.
  destruct (Nat.ltb_spec 8 (sizeof T)); [lia |].
  destruct (length msg) as [| n] eqn:Hn; [lia |].
  cbn [fragments]. rewrite Hn.
  destruct (Nat.ltb_spec 0 (S n)); [| lia].
  rewrite fragments_done by (rewrite Hn; lia). reflexivity.
Qed.

(** A longer message is a [START] frame of 8 bytes followed by the frames
    of the rest of the byte stream, which ends with the checksum. *)
Lemma send_pass_fragmented (T : MsgType) (prio addr : Z) (msg : list Z) :
  length msg = sizeof T -> (8 < sizeof T)%nat ->
  let buf := msg ++ [crc8 msg (sizeof T)] in
  send_buf T msg = buf /\
  send_pass T prio addr msg =
    chunk_frame prio addr (TypeID T) true buf 0 ::
    fragments (length buf - 1) prio addr (TypeID T) true buf 8.
Proof.
  intros Hlen Hsz buf.
  assert (Hb : send_buf T msg = buf).
  { unfold send_buf, buf. destruct (Nat.ltb_spec 8 (sizeof T)); [| lia].
    rewrite take_ge by lia. reflexivity. }
  split; [exact Hb |].
  unfold send_pass. rewrite Hb.
  destruct (Nat.ltb_spec 8 (sizeof T)); [| lia].
  assert (Hl : length buf = S (sizeof T))
    by (unfold buf; rewrite length_app; simpl; lia).
  rewrite Hl. cbn [fragments]. rewrite Hl.
  destruct (Nat.ltb_spec 0 (S (sizeof T))); [| lia].
  replace (S (sizeof T) - 1)%nat with (sizeof T) by lia.
  replace (0 + Nat.min 8 (S (sizeof T) - 0))%nat with 8%nat by lia.
  reflexivity.
Qed.

Lemma frames_of_report_error (type addr : Z) (r : Run) :
  frames_of (sent (report_error type addr r)) = frames_of (sent r).
Proof.
  unfold report_error. destruct (errorCb_ (bus r)); [| reflexivity].
  unfold record, frames_of. cbn [sent]. rewrite omap_app. cbn.
  apply app_nil_r.
Qed.

(** With an accepting driver, whatever [send] hands to the driver is one
    or more whole passes of the transmit loop. *)
Lemma send_attempts_passes (drv : nat -> esp_err_t) (prio addr type : Z)
    (fragmented : bool) (buf : list Z) :
  (forall n, drv n = ESP_OK) ->
  forall (scripts : list WaitScript) (attempts : Z) (r : Run)
         (e : esp_err_t) (r' : Run) (rest : list WaitScript),
    send_attempts drv prio addr type fragmented buf scripts attempts r =
      Some (e, r', rest) ->
    exists k : nat,
      frames_of (sent r') =
      frames_of (sent r) ++
      concat (replicate (S k)
                (fragments (length buf) prio addr type fragmented buf 0)).
Proof.
  intros Hdrv.
  set (fs := fragments (length buf) prio addr type fragmented buf 0).
  assert (Hone : forall r, frames_of (sent (record_all fs r)) =
                           frames_of (sent r) ++ concat (replicate 1 fs)).
  { intros r. rewrite frames_of_record_all. cbn. rewrite app_nil_r.
    reflexivity. }
  induction scripts as [| w rest0 IH]; intros attempts r e r' rest H;
    cbn [send_attempts] in H;
    rewrite (send_frames_all_ok drv prio addr type fragmented buf Hdrv)
      in H by lia;
    fold fs in H; cbn [esp_ok negb] in H;
    destruct ((retryLimit_ (bus (record_all fs r)) =? 0) || negb fragmented).
  - inversion H; subst. exists 0%nat. apply Hone.
  - discriminate.
  - inversion H; subst. exists 0%nat. apply Hone.
  - destruct (waitAck type addr w (record_all fs r)) as [[res r2] |] eqn:Hw;
      [| discriminate].
    destruct (waitAck_loop_frame _ _ _ _ _ _ Hw) as (Hs & _).
    destruct res.
    + inversion H; subst. exists 0%nat.
      unfold frames_of in *. rewrite Hs. apply Hone.
    + destruct (retryLimit_ (bus r2) <? to_u8 (attempts + 1)).
      * inversion H; subst. exists 0%nat.
        rewrite frames_of_report_error. unfold frames_of in *.
        rewrite Hs. apply Hone.
      * destruct (IH _ _ _ _ _ H) as (k & Hk). exists (S k).
        rewrite Hk. unfold frames_of at 1. rewrite Hs.
        fold (frames_of (sent (record_all fs r))).
        rewrite frames_of_record_all, <- app_assoc. reflexivity.
Qed.

(** With an accepting driver and waits that all come to the end of their
    window, [send] returns: at once when no acknowledgment is awaited, and
    otherwise after at most [retryLimit_ + 1] waits, provided the limit is
    below 255 (at 255 the give-up test never fires). *)
Lemma send_attempts_returns (drv : nat -> esp_err_t) (prio addr type : Z)
    (fragmented : bool) (buf : list Z) :
  (forall n, drv n = ESP_OK) ->
  forall (scripts : list WaitScript) (a : Z) (r : Run),
    Forall elapses scripts ->
    fragmented = false \/ retryLimit_ (bus r) = 0 \/
    (0 <= a <= retryLimit_ (bus r) /\ retryLimit_ (bus r) < 255 /\
     retryLimit_ (bus r) - a < Z.of_nat (length scripts)) ->
    exists e r' rest,
      send_attempts drv prio addr type fragmented buf scripts a r =
        Some (e, r', rest).
Proof.
  intros Hdrv.
  set (fs := fragments (length buf) prio addr type fragmented buf 0).
  induction scripts as [| w rest0 IH]; intros a r Hel Hcase;
    cbn [send_attempts];
    rewrite (send_frames_all_ok drv prio addr type fragmented buf Hdrv)
      by lia;
    fold fs; cbn [esp_ok negb bus record_all].
  - destruct Hcase as [-> | [-> | (Ha & _ & Hlen)]].
    + rewrite orb_true_r. eauto.
    + cbn [Z.eqb orb]. eauto.
    + cbn [length] in Hlen. lia.
  - destruct ((retryLimit_ (bus r) =? 0) || negb fragmented) eqn:Hno;
      [eauto |].
    apply orb_false_iff in Hno. destruct Hno as [Hlim Hfr].
    apply Z.eqb_neq in Hlim. apply negb_false_iff in Hfr.
    destruct Hcase as [Hc | [Hc | (Ha & H255 & Hlen)]];
      [congruence | congruence |].
    apply Forall_cons in Hel. destruct Hel as [Hw Hel].
    destruct (waitAck_loop_returns type (wait_start w) (polls w)
                (record_all fs r) Hw) as (res & r2 & Hres).
    unfold waitAck. rewrite Hres.
    destruct (waitAck_loop_frame _ _ _ _ _ _ Hres) as (_ & Hl2 & _).
    cbn [bus record_all] in Hl2.
    destruct res; [eauto |].
    rewrite to_u8_mod, Z.mod_small by lia.
    destruct (Z.ltb_spec (retryLimit_ (bus r2)) (a + 1)); [eauto |].
    apply IH; [exact Hel |]. right. right.
    rewrite Hl2 in *. cbn [length] in Hlen. lia.
Qed.

Section RoundTrip.

Variables (T : MsgType) (prio addr : Z) (msg : list Z).

Hypothesis msg_size : length msg = sizeof T.
Hypothesis type_range : 0 <= TypeID T < ACK_TYPE_ID.

Let type := TypeID T.

Lemma receive_single (cb : nat) (rx : CANBus) (t : Z) :
  (1 <= sizeof T <= 8)%nat ->
  exists rx',
    receive_all [(Some (chunk_frame prio addr type false msg 0), t)]
      (onReceive T cb rx) = (tt, rx', [Callback cb msg]).
Proof.
  intros Hsz.
  set (f := chunk_frame prio addr type false msg 0).
  destruct (chunk_frame_fields prio addr type msg false 0) as (Hty & _ & _).
  fold f in Hty. unfold ACK_TYPE_ID in type_range.
  rewrite land7_small in Hty by (unfold type; lia).
  assert (Hnack : id_type (identifier f) <> ACK_TYPE_ID)
    by (rewrite Hty; unfold type, ACK_TYPE_ID; lia).
  assert (Hseq : id_seq (identifier f) = SINGLE)
    by (unfold f; rewrite seq_of_chunk_frame; reflexivity).
  assert (Hpay : payload f = msg).
  { unfold f. rewrite payload_chunk_frame, drop_0. apply take_ge. lia. }
  eexists. rewrite <- (app_nil_r [Callback cb msg]).
  eapply receive_all_cons; [| reflexivity].
  rewrite (handleReceive_single f t _ Hnack Hseq), dispatch_eq.
  f_equal. rewrite Hty, Hpay. unfold dispatch_events.
  assert (Hh : handlers_
                 match fragMap_ (onReceive T cb rx) !! id_base (identifier f)
                 with
                 | Some _ => onReceive T cb rx
                 | None =>
                     set_fragMap
                       (<[id_base (identifier f) :=
                            entry_at (onReceive T cb rx)
                              (id_base (identifier f))]>
                          (fragMap_ (onReceive T cb rx)))
                       (onReceive T cb rx)
                 end !! type =
               Some {| handler_sizeof := sizeof T; handler_cb := cb |}).
  { destruct (fragMap_ (onReceive T cb rx) !! id_base (identifier f));
      apply onReceive_lookup. }
  rewrite Hh. cbn [handler_sizeof handler_cb].
  destruct (Nat.ltb_spec (length msg) (sizeof T)); [lia |].
  rewrite take_ge by lia. reflexivity.
Qed.

Lemma receive_fragmented (cb : nat) (rx : CANBus) (t0 : Z) (ts : list Z) :
  (8 < sizeof T)%nat ->
  let buf := msg ++ [crc8 msg (sizeof T)] in
  let rest := fragments (length buf - 1) prio addr type true buf 8 in
  length ts = length rest ->
  Forall (fun t => expired t0 t = false) ts ->
  exists rx',
    receive_all
      (zip (map Some (chunk_frame prio addr type true buf 0 :: rest))
         (t0 :: ts))
      (onReceive T cb rx) =
    (tt, rx', [Callback cb msg;
               Transmit (ack_frame (Z.land addr 0x0F) type) 20]).
Proof.
  intros Hsz buf rest Hlen Hts.
  set (f := chunk_frame prio addr type true buf 0).
  assert (Hl : length buf = S (sizeof T))
    by (unfold buf; rewrite length_app; simpl; lia).
  destruct (chunk_frame_fields prio addr type buf true 0) as (Hty & _ & Hky).
  fold f in Hty, Hky. unfold ACK_TYPE_ID in type_range.
  assert (Hland : Z.land type 0x07 = type)
    by (apply land7_small; unfold type; lia).
  assert (Hnack : id_type (identifier f) <> ACK_TYPE_ID)
    by (rewrite Hty, Hland; unfold type, ACK_TYPE_ID; lia).
  assert (Hseq : id_seq (identifier f) = START)
    by (unfold f; rewrite seq_of_chunk_frame; reflexivity).
  assert (Hpay : payload f = take 8 buf).
  { unfold f. rewrite payload_chunk_frame, drop_0. f_equal. lia. }
  pose proof (handleReceive_start f t0 (onReceive T cb rx) Hnack Hseq)
    as Hstart.
  rewrite Hky, Hpay in Hstart.
  eexists. cbn [map zip zip_with].
  change [Callback cb msg; Transmit (ack_frame (Z.land addr 0x0F) type) 20]
    with ([] ++ [Callback cb msg;
                 Transmit (ack_frame (Z.land addr 0x0F) type) 20]).
  eapply receive_all_cons; [exact Hstart |].
  fold (zip (map Some rest) ts).
  unfold rest.
  rewrite (reassemble_rest prio addr type buf) with (t0 := t0);
    [| rewrite Hland; unfold type, ACK_TYPE_ID; lia
     | lia | lia
     | cbn [fragMap_ set_fragMap]; apply lookup_insert_eq
     | exact Hts | exact Hlen ].
  f_equal.
  assert (Hrl : removelast buf = msg) by apply removelast_last.
  assert (Hla : List.last buf 0 = crc8 msg (sizeof T)) by apply last_last.
  rewrite Hla, !Hrl, msg_size, Z.eqb_refl, Hland.
  cbn [handlers_ set_fragMap]. unfold dispatch_events.
  pose proof (onReceive_lookup T cb rx) as Hh. fold type in Hh.
  rewrite Hh. cbn [handler_sizeof handler_cb].
  rewrite msg_size.
  destruct (Nat.ltb_spec (sizeof T) (sizeof T)); [lia |].
  rewrite take_ge by lia. reflexivity.
Qed.

End RoundTrip.

(** The round trip for a message of any size from 1 byte on. *)
Lemma roundtrip_any_size (T : MsgType) (prio addr : Z) (msg : list Z) :
  (1 <= sizeof T)%nat ->
  length msg = sizeof T ->
  0 <= TypeID T < ACK_TYPE_ID ->
  let pass := send_pass T prio addr msg in
  let fragmented := (8 <? sizeof T)%nat in
  (forall drv r,
     (forall n, drv n = ESP_OK) ->
     send_frames (length (send_buf T msg)) drv prio addr (TypeID T)
       fragmented (send_buf T msg) 0 r = Some (ESP_OK, record_all pass r)) /\
  (forall drv scripts r,
     (forall n, drv n = ESP_OK) ->
     Forall elapses scripts ->
     (sizeof T <= 8)%nat \/ retryLimit_ (bus r) = 0 \/
     (0 < retryLimit_ (bus r) < 255 /\
      retryLimit_ (bus r) < Z.of_nat (length scripts)) ->
     exists e r' rest (k : nat),
       send T prio addr msg drv scripts r = Some (e, r', rest) /\
       frames_of (sent r') =
       frames_of (sent r) ++ concat (replicate (S k) pass)) /\
  (forall drv scripts r e r' rest,
     (forall n, drv n = ESP_OK) ->
     send T prio addr msg drv scripts r = Some (e, r', rest) ->
     exists k : nat,
       frames_of (sent r') =
       frames_of (sent r) ++ concat (replicate (S k) pass)) /\
  Forall (fun m => 1 <= data_length_code m <= 8 /\ length (data m) = 8%nat)
    pass /\
  concat (map payload pass) =
    (if fragmented then msg ++ [crc8 msg (sizeof T)] else msg) /\
  seq_tags pass =
    (if fragmented
     then START :: replicate (length pass - 2) MIDDLE ++ [END]
     else [SINGLE]) /\
  forall (cb : nat) (rx : CANBus) (times : list Z),
    length times = length pass ->
    Forall (fun t => expired (hd 0 times) t = false) times ->
    exists rx' ev,
      receive_all (zip (map Some pass) times) (onReceive T cb rx) =
        (tt, rx', ev) /\
      callbacks_of ev = [(cb, msg)].
Proof.
  intros Hpos Hlen Hty pass fragmented.
  split.
  { intros drv r Hdrv. apply send_frames_all_ok; [exact Hdrv | lia]. }
  split.
  { intros drv scripts r Hdrv Hel Hcase.
    destruct (send_attempts_returns drv prio addr (TypeID T)
                (8 <? sizeof T)%nat (send_buf T msg) Hdrv scripts 0 r Hel)
      as (e & r' & rest & H).
    { destruct Hcase as [Hc | [Hc | Hc]].
      - left. apply Nat.ltb_ge. exact Hc.
      - right. left. exact Hc.
      - right. right. lia. }
    exists e, r', rest.
    destruct (send_attempts_passes _ _ _ _ _ _ Hdrv _ _ _ _ _ _ H)
      as (k & Hk).
    exists k. rewrite send_unfold. split; [exact H | exact Hk]. }
  split.
  { intros drv scripts r e r' rest Hdrv H. rewrite send_unfold in H.
    apply (send_attempts_passes _ _ _ _ _ _ Hdrv _ _ _ _ _ _ H). }
  split; [apply fragments_shape |].
  split.
  { unfold pass, send_pass. rewrite fragments_concat by lia.
    rewrite drop_0. unfold send_buf, fragmented.
    rewrite take_ge by lia. reflexivity. }
  unfold fragmented.
  destruct (Nat.ltb_spec 8 (sizeof T)) as [Hfrag | Hone].
  - destruct (send_pass_fragmented T prio addr msg Hlen Hfrag) as (Hb & Hp).
    cbn zeta in Hp. fold pass in Hp.
    set (buf := msg ++ [crc8 msg (sizeof T)]) in *.
    set (rest := fragments (length buf - 1) prio addr (TypeID T) true buf 8)
      in *.
    assert (Hl : length buf = S (sizeof T))
      by (unfold buf; rewrite length_app; simpl; lia).
    split.
    + rewrite Hp. cbn [seq_tags map length]. rewrite seq_of_chunk_frame.
      f_equal. fold (seq_tags rest). unfold rest.
      rewrite fragments_tags_rest by lia. cbn zeta. fold rest.
      replace (S (length rest) - 2)%nat with (length rest - 1)%nat by lia.
      reflexivity.
    + intros cb rx times Hlt Hts. rewrite Hp in *.
      destruct times as [| t0 ts]; [discriminate |].
      cbn [hd] in Hts. apply Forall_cons in Hts. destruct Hts as [_ Hts].
      destruct (receive_fragmented T prio addr msg Hlen Hty cb rx t0 ts Hfrag)
        as (rx' & Hrx); [cbn in Hlt; fold buf; fold rest; lia | exact Hts |].
      cbn zeta in Hrx. fold buf in Hrx. fold rest in Hrx.
      exists rx'. eexists. split; [exact Hrx | reflexivity].
  - destruct (send_pass_single T prio addr msg Hlen ltac:(lia)) as (Hb & Hp).
    fold pass in Hp. split.
    + rewrite Hp. cbn [seq_tags map]. rewrite seq_of_chunk_frame.
      reflexivity.
    + intros cb rx times Hlt Hts. rewrite Hp in *.
      destruct times as [| t0 [| t1 ts]]; try discriminate.
      destruct (receive_single T prio addr msg Hlen Hty cb rx t0 ltac:(lia))
        as (rx' & Hrx).
      exists rx'. eexists. split; [exact Hrx | reflexivity].
Qed.

(** C1: for a payload of 1, 7, 8, 9, 16, 20 or 61 bytes, the transmit loop
    of [send] hands the driver a pass of frames of 1 to 8 bytes; [send]
    itself, with an accepting driver and waits that come to their end
    (none is needed for a message of at most 8 bytes or a retry limit of
    0), returns and has handed the driver one or more such passes, and
    whenever it returns that is all it has transmitted.  The payloads of a
    pass, put end to end, are the message, followed by its checksum byte
    when it is longer than 8 bytes; the frames are tagged [SINGLE] for a
    message of at most 8 bytes and [START], [MIDDLE]..., [END] otherwise;
    and feeding the frames of a pass in order to [handleReceive], each
    within the reassembly timeout of the first, invokes exactly one
    callback: the one registered for the message's type, with exactly the
    original bytes. *)
Theorem fragmentation_roundtrip (T : MsgType) (prio addr : Z)
    (msg : list Z) :
  In (sizeof T) [1; 7; 8; 9; 16; 20; 61]%nat ->
  length msg = sizeof T ->
  0 <= TypeID T < ACK_TYPE_ID ->
  let pass := send_pass T prio addr msg in
  let fragmented := (8 <? sizeof T)%nat in
  (forall drv r,
     (forall n, drv n = ESP_OK) ->
     send_frames (length (send_buf T msg)) drv prio addr (TypeID T)
       fragmented (send_buf T msg) 0 r = Some (ESP_OK, record_all pass r)) /\
  (forall drv scripts r,
     (forall n, drv n = ESP_OK) ->
     Forall elapses scripts ->
     (sizeof T <= 8)%nat \/ retryLimit_ (bus r) = 0 \/
     (0 < retryLimit_ (bus r) < 255 /\
      retryLimit_ (bus r) < Z.of_nat (length scripts)) ->
     exists e r' rest (k : nat),
       send T prio addr msg drv scripts r = Some (e, r', rest) /\
       frames_of (sent r') =
       frames_of (sent r) ++ concat (replicate (S k) pass)) /\
  (forall drv scripts r e r' rest,
     (forall n, drv n = ESP_OK) ->
     send T prio addr msg drv scripts r = Some (e, r', rest) ->
     exists k : nat,
       frames_of (sent r') =
       frames_of (sent r) ++ concat (replicate (S k) pass)) /\
  Forall (fun m => 1 <= data_length_code m <= 8 /\ length (data m) = 8%nat)
    pass /\
  concat (map payload pass) =
    (if fragmented then msg ++ [crc8 msg (sizeof T)] else msg) /\
  seq_tags pass =
    (if fragmented
     then START :: replicate (length pass - 2) MIDDLE ++ [END]
     else [SINGLE]) /\
  forall (cb : nat) (rx : CANBus) (times : list Z),
    length times = length pass ->
    Forall (fun t => expired (hd 0 times) t = false) times ->
    exists rx' ev,
      receive_all (zip (map Some pass) times) (onReceive T cb rx) =
        (tt, rx', ev) /\
      callbacks_of ev = [(cb, msg)].
Proof.
  intros Hin. apply roundtrip_any_size.
  cbn in Hin. lia.
Qed.

Lemma fragmentation_roundtrip_witness :
  let T := {| sizeof := 9; TypeID := 1 |} in
  let msg := [1; 2; 3; 4; 5; 6; 7; 8; 9] in
  let w := {| wait_start := 0;
              polls := [ {| arrivals := []; clock := 100 * ticks_per_ms |} ]
           |} in
  let r := start_run (setRetryLimit 1 CANBus_new) in
  (exists e r' rest (k : nat),
     send T 1 3 msg drv_ok [w; w] r = Some (e, r', rest) /\
     frames_of (sent r') =
     frames_of (sent r) ++ concat (replicate (S k) (send_pass T 1 3 msg))) /\
  seq_tags (send_pass T 1 3 msg) = [START; END] /\
  exists rx' ev,
    receive_all (zip (map Some (send_pass T 1 3 msg)) [0; 0])
      (onReceive T 77%nat CANBus_new) = (tt, rx', ev) /\
    callbacks_of ev = [(77%nat, msg)].
Proof.
  intros T msg w r.
  destruct (fragmentation_roundtrip T 1 3 msg)
    as (_ & Hsend & _ & _ & _ & Htags & Hrx).
  - cbn. tauto.
  - reflexivity.
  - unfold ACK_TYPE_ID. cbn. lia.
  - split; [| split; [exact Htags |]].
    + apply (Hsend drv_ok [w; w] r).
      * reflexivity.
      * repeat constructor;
          (exists {| arrivals := []; clock := 100 * ticks_per_ms |};
           split; [left | vm_compute; discriminate]).
      * right. right. vm_compute. repeat split; reflexivity.
    + apply Hrx; [reflexivity | repeat constructor].
Defined.

(** * Further properties of the code *)

(** ** Identifier codec, any arguments *)

Lemma buildId_mod_fields (p a s t : Z) :
  0 <= buildId p a s t < 2 ^ 11 /\
  id_from (buildId p a s t) = a mod 16 /\
  id_seq (buildId p a s t) = s mod 4 /\
  id_type (buildId p a s t) = t mod 8 /\
  buildId p a s t = (p mod 4) * 512 + (a mod 16) * 32 + (s mod 4) * 8 + t mod 8.
Proof.
  assert (Ep : Z.land p 0x03 = p mod 4)
    by (change 0x03 with (Z.ones 2); apply Z.land_ones; lia).
  assert (Ea : Z.land a 0x0F = a mod 16)
    by (change 0x0F with (Z.ones 4); apply Z.land_ones; lia).
  assert (Es : Z.land s 0x03 = s mod 4)
    by (change 0x03 with (Z.ones 2); apply Z.land_ones; lia).
  assert (Et : Z.land t 0x07 = t mod 8)
    by (change 0x07 with (Z.ones 3); apply Z.land_ones; lia).
  pose proof (Z.mod_pos_bound p 4 ltac:(lia)) as Hp.
  pose proof (Z.mod_pos_bound a 16 ltac:(lia)) as Ha.
  pose proof (Z.mod_pos_bound s 4 ltac:(lia)) as Hs.
  pose proof (Z.mod_pos_bound t 8 ltac:(lia)) as Ht.
  rewrite buildId_masks, Ep, Ea, Es, Et.
  destruct (codec_fields (p mod 4) (a mod 16) (s mod 4) (t mod 8))
    as (_ & H2 & H3 & H4 & _ & H6); try lia.
  repeat split; try assumption; try lia.
  apply buildId_packed; lia.
Qed.

(** [buildId] accepts any arguments: the result is an 11-bit value, and
    the fields [handleReceive] reads from it are the arguments truncated to
    2, 4, 2 and 3 bits (the priority occupies the two bits above). *)
Theorem buildId_any_arguments (p a s t : Z) :
  0 <= buildId p a s t < 2 ^ 11 /\
  id_from (buildId p a s t) = a mod 16 /\
  id_seq (buildId p a s t) = s mod 4 /\
  id_type (buildId p a s t) = t mod 8 /\
  buildId p a s t = (p mod 4) * 512 + (a mod 16) * 32 + (s mod 4) * 8 + t mod 8.
Proof. apply buildId_mod_fields. Qed.


(** The routing key [baseId] of a frame is its identifier with the
    sequence bits cleared, so all fragments of one [send] share it; two
    frames have the same key exactly when they agree on priority, address
    and type (each truncated to its field). *)
Theorem routing_key_of_buildId (p a s t p' a' s' t' : Z) :
  id_base (buildId p a s t) = buildId p a START t /\
  id_seq (id_base (buildId p a s t)) = START /\
  (id_base (buildId p a s t) = id_base (buildId p' a' s' t') <->
   p mod 4 = p' mod 4 /\ a mod 16 = a' mod 16 /\ t mod 8 = t' mod 8).
Proof.
  destruct (buildId_fields p a s t) as (_ & _ & _ & Hb).
  destruct (buildId_fields p' a' s' t') as (_ & _ & _ & Hb').
  destruct (buildId_mod_fields p a START t) as (_ & _ & Hs & _ & Hv).
  destruct (buildId_mod_fields p' a' START t') as (_ & _ & _ & _ & Hv').
  pose proof (Z.mod_pos_bound p 4 ltac:(lia)).
  pose proof (Z.mod_pos_bound a 16 ltac:(lia)).
  pose proof (Z.mod_pos_bound t 8 ltac:(lia)).
  pose proof (Z.mod_pos_bound p' 4 ltac:(lia)).
  pose proof (Z.mod_pos_bound a' 16 ltac:(lia)).
  pose proof (Z.mod_pos_bound t' 8 ltac:(lia)).
  change (buildId p a 0 t) with (buildId p a START t) in Hb.
  change (buildId p' a' 0 t') with (buildId p' a' START t') in Hb'.
  rewrite Hb, Hb'. split; [reflexivity |]. split; [exact Hs |].
  rewrite Hv, Hv'. change (START mod 4) with 0. lia.
Qed.

(** ** Expiry *)

Lemma expired_iff (t0 now : Z) :
  expired t0 now = true <-> 501 * ticks_per_ms <= now - t0.
Proof.
  unfold expired, to_ms, REASSEMBLY_TIMEOUT, ticks_per_ms.
  rewrite Z.ltb_lt.
  destruct (Z.le_gt_cases 0 (now - t0)) as [Hnn | Hneg].
  - rewrite Z.quot_div_nonneg by lia.
    split; intros H.
    + destruct (Z.le_gt_cases (501 * 1000000) (now - t0)) as [|Hlt];
        [assumption |].
      assert ((now - t0) / 1000000 < 501)
        by (apply Z.div_lt_upper_bound; lia).
      lia.
    + assert (501 <= (now - t0) / 1000000)
        by (apply Z.div_le_lower_bound; lia).
      lia.
  - assert (Z.quot (now - t0) 1000000 <= 0).
    { rewrite <- (Z.opp_involutive (now - t0)), Z.quot_opp_l by lia.
      pose proof (Z.quot_pos (- (now - t0)) 1000000 ltac:(lia) ltac:(lia)).
      lia. }
    lia.
Qed.

(** [expired] turns true only once at least 501 whole milliseconds lie
    between the two time points: an entry that is 500.999 ms old is still
    live, and a time point before the entry's timestamp never expires it. *)
Theorem expired_boundary (t0 now : Z) :
  expired t0 now = true <-> 501 * ticks_per_ms <= now - t0.
Proof. apply expired_iff. Qed.


(** ** One call of [handleReceive] *)

(** The reassembly table after a data frame, entry by entry. *)
Lemma handleReceive_table (m : twai_message_t) (now : Z) (b : CANBus) :
  id_type (identifier m) <> ACK_TYPE_ID ->
  let key := id_base (identifier m) in
  let seq := id_seq (identifier m) in
  exists fm ev,
    handleReceive (Some m) now b = (tt, set_fragMap fm b, ev) /\
    (forall k, k <> key -> fm !! k = fragMap_ b !! k) /\
    fm !! key =
      (if seq =? START
       then Some {| entry_data := payload m; timestamp := now |}
       else if seq =? SINGLE then Some (entry_at b key)
       else if expired (timestamp (entry_at b key)) now then None
       else if seq =? MIDDLE then Some (append (entry_at b key) m)
       else None).
Proof.
  intros Hack key seq.
  destruct (id_seq_cases (identifier m)) as [Hs | [Hs | [Hs | Hs]]];
    fold seq in Hs.
  - rewrite (handleReceive_start m now b Hack Hs). eexists _, _.
    split; [reflexivity |]. rewrite Hs. cbn. split.
    + intros k Hk. apply lookup_insert_ne. intros Heq. apply Hk. symmetry. exact Heq.
    + apply lookup_insert_eq.
  - destruct (expired (timestamp (entry_at b key)) now) eqn:He.
    + rewrite (handleReceive_expired m now b Hack (or_introl Hs) He).
      eexists _, _. split; [reflexivity |]. rewrite Hs. cbn. split.
      * intros k Hk. apply lookup_delete_ne. intros Heq. apply Hk. symmetry. exact Heq.
      * apply lookup_delete_eq.
    + rewrite (handleReceive_middle m now b Hack Hs He).
      eexists _, _. split; [reflexivity |]. rewrite Hs. cbn. split.
      * intros k Hk. apply lookup_insert_ne. intros Heq. apply Hk. symmetry. exact Heq.
      * apply lookup_insert_eq.
  - destruct (expired (timestamp (entry_at b key)) now) eqn:He.
    + rewrite (handleReceive_expired m now b Hack (or_intror Hs) He).
      eexists _, _. split; [reflexivity |]. rewrite Hs. cbn. split.
      * intros k Hk. apply lookup_delete_ne. intros Heq. apply Hk. symmetry. exact Heq.
      * apply lookup_delete_eq.
    + rewrite (handleReceive_end m now b Hack Hs He). cbn zeta.
      eexists _, _. split; [reflexivity |]. rewrite Hs. cbn. split.
      * intros k Hk. apply lookup_delete_ne. intros Heq. apply Hk. symmetry. exact Heq.
      * apply lookup_delete_eq.
  - rewrite (handleReceive_single m now b Hack Hs), dispatch_eq.
    fold key. rewrite Hs. cbn [Z.eqb SINGLE START Pos.eqb].
    destruct (fragMap_ b !! key) as [e |] eqn:Hl.
    + exists (fragMap_ b), (dispatch_events (handlers_ b)
                              (id_type (identifier m)) (payload m)).
      rewrite set_fragMap_same. split; [reflexivity |].
      split; [reflexivity |]. rewrite Hl.
      f_equal. symmetry. apply entry_at_some. exact Hl.
    + eexists _, _. split; [reflexivity |]. split.
      * intros k Hk. apply lookup_insert_ne. intros Heq. apply Hk. symmetry. exact Heq.
      * apply lookup_insert_eq.
Qed.

(** The reassembly state machine of one routing key.  A data frame
    changes no entry but the one of its own key, and leaves that key:
    with this frame's bytes and the current time after [START]; with the
    bytes appended after [MIDDLE] on a live entry; without entry after
    [END], and after [MIDDLE] on an expired entry; and, after [SINGLE],
    with the entry it had or, if it had none, with an empty entry stamped
    with the clock's epoch, which stays in the table.  Where the bytes of
    the frame enter the entry ([START], [MIDDLE]) the frame's length code
    is at most 8. *)
Theorem reassembly_state_machine (m : twai_message_t) (now : Z)
    (b : CANBus) :
  id_type (identifier m) <> ACK_TYPE_ID ->
  (id_seq (identifier m) = START \/ id_seq (identifier m) = MIDDLE ->
   in_bounds m) ->
  let key := id_base (identifier m) in
  let seq := id_seq (identifier m) in
  let b' := snd (fst (handleReceive (Some m) now b)) in
  (forall k, k <> key -> fragMap_ b' !! k = fragMap_ b !! k) /\
  fragMap_ b' !! key =
    (if seq =? START
     then Some {| entry_data := payload m; timestamp := now |}
     else if seq =? SINGLE
     then Some (default {| entry_data := []; timestamp := 0 |}
                  (fragMap_ b !! key))
     else if expired (timestamp (entry_at b key)) now then None
     else if seq =? MIDDLE
     then Some {| entry_data := entry_data (entry_at b key) ++ payload m;
                  timestamp := timestamp (entry_at b key) |}
     else None).
Proof.
  intros Hack _ key seq b'.
  destruct (handleReceive_table m now b Hack) as (fm & ev & E & Ho & Hk).
  unfold b'. rewrite E. cbn [fst snd fragMap_ set_fragMap].
  split; [exact Ho | exact Hk].
Qed.

Lemma reassembly_state_machine_witness :
  let m := {| identifier := buildId 0 1 MIDDLE 2; data_length_code := 2;
              data := [5; 6; 0; 0; 0; 0; 0; 0] |} in
  let b := set_fragMap
             {[ buildId 0 1 0 2 :=
                  {| entry_data := [1; 2; 3; 4; 5; 6; 7; 8];
                     timestamp := 0 |} ]} CANBus_new in
  fragMap_ (snd (fst (handleReceive (Some m) 0 b)))
    !! id_base (identifier m) =
  Some {| entry_data := [1; 2; 3; 4; 5; 6; 7; 8; 5; 6]; timestamp := 0 |}.
Proof.
  intros m b.
  destruct (reassembly_state_machine m 0 b) as [_ H].
  - vm_compute. discriminate.
  - intros _. split; [reflexivity | cbn; lia].
  - exact H.
Defined.

(** What a call of [handleReceive] can emit: at most one application
    callback, taken from the handler stored under the frame's type field
    and given exactly [sizeof(T)] bytes, followed by at most one frame,
    which is the ACK frame for that type and address and is sent only for
    an [END] frame.  It never invokes the error callback, and emits
    nothing for an ACK frame. *)
Theorem handleReceive_events (rx : option twai_message_t) (now : Z)
    (b : CANBus) :
  let ev := snd (handleReceive rx now b) in
  (length (callbacks_of ev) <= 1)%nat /\
  (length (frames_of ev) <= 1)%nat /\
  errors_of ev = [] /\
  ev = map (fun c => Callback (fst c) (snd c)) (callbacks_of ev) ++
       map (fun f => Transmit f 20) (frames_of ev) /\
  (forall cb msg, (cb, msg) ∈ callbacks_of ev ->
     exists m h, rx = Some m /\
       id_type (identifier m) <> ACK_TYPE_ID /\
       handlers_ b !! id_type (identifier m) = Some h /\
       cb = handler_cb h /\ length msg = handler_sizeof h) /\
  (forall f, f ∈ frames_of ev ->
     exists m, rx = Some m /\ id_seq (identifier m) = END /\
       id_type (identifier m) <> ACK_TYPE_ID /\
       f = ack_frame (id_from (identifier m)) (id_type (identifier m))).
Proof.
  assert (Hd : forall hs type data,
    let ev := dispatch_events hs type data in
    (ev = [] \/ exists h, hs !! type = Some h /\
        (handler_sizeof h <= length data)%nat /\
        ev = [Callback (handler_cb h) (take (handler_sizeof h) data)])).
  { intros hs type data. unfold dispatch_events.
    destruct (hs !! type) as [h |]; [| left; reflexivity].
    destruct (Nat.ltb_spec (length data) (handler_sizeof h));
      [left; reflexivity | right; eauto]. }
  assert (Hnil : forall ev : list Event, ev = [] ->
    (length (callbacks_of ev) <= 1)%nat /\
    (length (frames_of ev) <= 1)%nat /\
    errors_of ev = [] /\
    ev = map (fun c => Callback (fst c) (snd c)) (callbacks_of ev) ++
         map (fun f => Transmit f 20) (frames_of ev) /\
    (forall cb msg, (cb, msg) ∈ callbacks_of ev -> False) /\
    (forall f, f ∈ frames_of ev -> False)).
  { intros ev ->. cbn. repeat split; try lia; intros; 
      match goal with H : _ ∈ [] |- _ => inversion H end. }
  cbn zeta.
  destruct rx as [m |].
  2:{ destruct (Hnil _ (eq_refl : snd (handleReceive None now b) = []))
        as (A & B & C & D & E & F).
      repeat split; try assumption; intros; exfalso; eauto. }
  destruct (Z.eq_dec (id_type (identifier m)) ACK_TYPE_ID) as [Hack | Hack].
  { assert (Hev : snd (handleReceive (Some m) now b) = []).
    { unfold handleReceive. rewrite Hack. reflexivity. }
    destruct (Hnil _ Hev) as (A & B & C & D & E & F).
    repeat split; try assumption; intros; exfalso; eauto. }
  assert (Hcases :
    snd (handleReceive (Some m) now b) = [] \/
    (exists data,
       snd (handleReceive (Some m) now b) =
       dispatch_events (handlers_ b) (id_type (identifier m)) data) \/
    (exists data, id_seq (identifier m) = END /\
       snd (handleReceive (Some m) now b) =
       dispatch_events (handlers_ b) (id_type (identifier m)) data ++
       [Transmit (ack_frame (id_from (identifier m))
                    (id_type (identifier m))) 20])).
  { destruct (id_seq_cases (identifier m)) as [Hs | [Hs | [Hs | Hs]]].
    - rewrite (handleReceive_start m now b Hack Hs). left. reflexivity.
    - destruct (expired (timestamp (entry_at b (id_base (identifier m))))
                  now) eqn:He.
      + rewrite (handleReceive_expired m now b Hack (or_introl Hs) He).
        left. reflexivity.
      + rewrite (handleReceive_middle m now b Hack Hs He).
        left. reflexivity.
    - destruct (expired (timestamp (entry_at b (id_base (identifier m))))
                  now) eqn:He.
      + rewrite (handleReceive_expired m now b Hack (or_intror Hs) He).
        left. reflexivity.
      + rewrite (handleReceive_end m now b Hack Hs He). cbn zeta.
        cbn [snd].
        destruct (length _ <? 1)%nat; [left; reflexivity |].
        destruct (_ =? _); [| left; reflexivity].
        right. right. eexists. split; [exact Hs | reflexivity].
    - rewrite (handleReceive_single m now b Hack Hs), dispatch_eq.
      cbn [snd]. right. left. eexists.
      destruct (fragMap_ b !! id_base (identifier m)); reflexivity. }
  destruct Hcases as [Hev | [(data & Hev) | (data & Hend & Hev)]].
  - destruct (Hnil _ Hev) as (A & B & C & D & E & F).
    repeat split; try assumption; intros; exfalso; eauto.
  - rewrite Hev.
    destruct (Hd (handlers_ b) (id_type (identifier m)) data)
      as [-> | (h & Hh & Hlen & ->)].
    + destruct (Hnil [] eq_refl) as (A & B & C & D & E & F).
      repeat split; try assumption; intros; exfalso; eauto.
    + cbn. repeat split; try lia.
      * intros cb msg Hin. apply list_elem_of_singleton in Hin.
        inversion Hin; subst. exists m, h. repeat split; try assumption.
        rewrite length_take. lia.
      * intros f Hin. inversion Hin.
  - rewrite Hev.
    destruct (Hd (handlers_ b) (id_type (identifier m)) data)
      as [-> | (h & Hh & Hlen & ->)].
    + cbn. repeat split; try lia.
      * intros cb msg Hin. inversion Hin.
      * intros f Hin. apply list_elem_of_singleton in Hin. subst.
        exists m. repeat split; assumption.
    + cbn. repeat split; try lia.
      * intros cb msg Hin. apply list_elem_of_singleton in Hin.
        inversion Hin; subst. exists m, h. repeat split; try assumption.
        rewrite length_take. lia.
      * intros f Hin. apply list_elem_of_singleton in Hin. subst.
        exists m. repeat split; assumption.
Qed.

(** ** Sequences of frames *)

Lemma receive_all_app (l1 l2 : list (option twai_message_t * Z))
    (b : CANBus) :
  receive_all (l1 ++ l2) b =
  (tt, snd (fst (receive_all l2 (snd (fst (receive_all l1 b))))),
   snd (receive_all l1 b) ++
   snd (receive_all l2 (snd (fst (receive_all l1 b))))).
Proof.
  revert b. induction l1 as [| [rx now] l1 IH]; intros b.
  - cbn. destruct (receive_all l2 b) as [[[] b2] ev2]. reflexivity.
  - cbn [app receive_all]. unfold bind.
    destruct (handleReceive rx now b) as [[[] b1] ev1]. rewrite IH.
    destruct (receive_all l1 b1) as [[[] b2] ev2]. cbn.
    destruct (receive_all l2 b2) as [[[] b3] ev3]. cbn.
    rewrite app_assoc. reflexivity.
Qed.

Lemma fragments_first (prio addr type : Z) (buf : list Z) :
  (8 < length buf)%nat ->
  fragments (length buf) prio addr type true buf 0 =
  chunk_frame prio addr type true buf 0 ::
  fragments (length buf - 1) prio addr type true buf 8.
Proof.
  intros H. destruct (length buf) as [| n] eqn:Hn; [lia |].
  cbn [fragments]. rewrite Hn.
  destruct (Nat.ltb_spec 0 (S n)); [| lia].
  replace (S n - 1)%nat with n by lia.
  replace (0 + Nat.min 8 (S n - 0))%nat with 8%nat by lia.
  reflexivity.
Qed.

(** The frames of a fragmented byte stream [buf], received in order and
    in time by any object: the table ends without entry for the key, and
    the events are those of the [END] branch on the whole of [buf]. *)
Lemma receive_fragments (prio addr type : Z) (buf : list Z) (b : CANBus)
    (times : list Z) :
  Z.land type 0x07 <> ACK_TYPE_ID ->
  (8 < length buf)%nat ->
  length times = length (fragments (length buf) prio addr type true buf 0) ->
  Forall (fun t => expired (hd 0 times) t = false) times ->
  receive_all
    (zip (map Some (fragments (length buf) prio addr type true buf 0)) times)
    b =
  (tt, set_fragMap (delete (buildId prio addr 0 type) (fragMap_ b)) b,
   if List.last buf 0 =? crc8 (removelast buf) (length (removelast buf))
   then dispatch_events (handlers_ b) (Z.land type 0x07) (removelast buf) ++
        [Transmit (ack_frame (Z.land addr 0x0F) (Z.land type 0x07)) 20]
   else []).
Proof.
  intros Hty Hlen Hlt Hts.
  rewrite fragments_first in * by exact Hlen.
  set (f := chunk_frame prio addr type true buf 0) in *.
  set (rest := fragments (length buf - 1) prio addr type true buf 8) in *.
  destruct times as [| t0 ts]; [discriminate |].
  cbn [hd] in Hts. apply Forall_cons in Hts. destruct Hts as [_ Hts].
  destruct (chunk_frame_fields prio addr type buf true 0) as (Hft & _ & Hky).
  fold f in Hft, Hky.
  assert (Hnack : id_type (identifier f) <> ACK_TYPE_ID) by congruence.
  assert (Hseq : id_seq (identifier f) = START)
    by (unfold f; rewrite seq_of_chunk_frame; reflexivity).
  assert (Hpay : payload f = take 8 buf).
  { unfold f. rewrite payload_chunk_frame, drop_0. f_equal. lia. }
  pose proof (handleReceive_start f t0 b Hnack Hseq) as Hstart.
  rewrite Hky, Hpay in Hstart.
  cbn [map zip zip_with].
  match goal with |- _ = (_, _, ?ev) =>
    change ev with ([] ++ ev) end.
  eapply receive_all_cons; [exact Hstart |].
  fold (zip (map Some rest) ts). unfold rest.
  rewrite (reassemble_rest prio addr type buf Hty) with (t0 := t0);
    [| lia | lia
     | cbn [fragMap_ set_fragMap]; apply lookup_insert_eq
     | exact Hts | cbn [length] in Hlt; fold rest; lia ].
  cbn [fragMap_ set_fragMap handlers_].
  rewrite set_fragMap_twice, delete_insert_eq. reflexivity.
Qed.

(** A [SINGLE] frame carrying [buf], received by any object. *)
Lemma receive_single_frame (prio addr type : Z) (buf : list Z) (b : CANBus)
    (t : Z) :
  Z.land type 0x07 <> ACK_TYPE_ID ->
  (length buf <= 8)%nat ->
  snd (handleReceive (Some (chunk_frame prio addr type false buf 0)) t b) =
  dispatch_events (handlers_ b) (Z.land type 0x07) buf.
Proof.
  intros Hty Hlen.
  set (f := chunk_frame prio addr type false buf 0).
  destruct (chunk_frame_fields prio addr type buf false 0) as (Hft & _ & _).
  fold f in Hft.
  assert (Hnack : id_type (identifier f) <> ACK_TYPE_ID) by congruence.
  assert (Hseq : id_seq (identifier f) = SINGLE)
    by (unfold f; rewrite seq_of_chunk_frame; reflexivity).
  assert (Hpay : payload f = buf).
  { unfold f. rewrite payload_chunk_frame, drop_0. apply take_ge. lia. }
  rewrite (handleReceive_single f t b Hnack Hseq), dispatch_eq.
  cbn [snd]. rewrite Hft, Hpay.
  destruct (fragMap_ b !! id_base (identifier f)); reflexivity.
Qed.

Lemma receive_pass (T : MsgType) (prio addr : Z) (msg : list Z)
    (b : CANBus) (times : list Z) :
  (1 <= sizeof T)%nat ->
  length msg = sizeof T ->
  0 <= TypeID T < ACK_TYPE_ID ->
  length times = length (send_pass T prio addr msg) ->
  Forall (fun t => expired (hd 0 times) t = false) times ->
  snd (receive_all (zip (map Some (send_pass T prio addr msg)) times) b) =
  dispatch_events (handlers_ b) (TypeID T) msg ++
  (if (8 <? sizeof T)%nat
   then [Transmit (ack_frame (addr mod 16) (TypeID T)) 20]
   else []).
Proof.
  intros Hpos Hlen Hty Hlt Hts. unfold ACK_TYPE_ID in Hty.
  assert (Hland : Z.land (TypeID T) 0x07 = TypeID T)
    by (apply land7_small; lia).
  assert (Hnack : Z.land (TypeID T) 0x07 <> ACK_TYPE_ID)
    by (rewrite Hland; unfold ACK_TYPE_ID; lia).
  assert (Haddr : Z.land addr 0x0F = addr mod 16)
    by (change 0x0F with (Z.ones 4); apply Z.land_ones; lia).
  destruct (Nat.ltb_spec 8 (sizeof T)) as [Hfrag | Hone].
  - destruct (send_pass_fragmented T prio addr msg Hlen Hfrag) as (Hb & Hp).
    cbn zeta in Hp.
    set (buf := msg ++ [crc8 msg (sizeof T)]) in *.
    assert (Hl : length buf = S (sizeof T))
      by (unfold buf; rewrite length_app; simpl; lia).
    rewrite <- (fragments_first prio addr (TypeID T) buf) in Hp by lia.
    rewrite Hp in *.
    rewrite (receive_fragments prio addr (TypeID T) buf b times Hnack)
      by (assumption || lia).
    cbn [snd].
    assert (Hrl : removelast buf = msg) by apply removelast_last.
    assert (Hla : List.last buf 0 = crc8 msg (sizeof T)) by apply last_last.
    rewrite Hla, !Hrl, Hlen, Z.eqb_refl, Hland, Haddr. reflexivity.
  - destruct (send_pass_single T prio addr msg Hlen ltac:(lia)) as (Hb & Hp).
    rewrite Hp in *.
    destruct times as [| t0 [| t1 ts]]; try discriminate.
    cbn [map zip zip_with receive_all]. unfold bind.
    pose proof (receive_single_frame prio addr (TypeID T) msg b t0 Hnack
                  ltac:(lia)) as Hev.
    destruct (handleReceive _ t0 b) as [[[] b1] ev1]. cbn [snd] in *.
    cbn. rewrite !app_nil_r, Hev, Hland. reflexivity.
Qed.

(** Receiving the frames of one pass, in order and in time, at any
    object: what is delivered is decided by the handler stored under the
    message's type-id alone.  Without handler, or with a handler whose
    message size exceeds the bytes received, nothing is invoked; otherwise
    its callback gets the first [sizeof] bytes.  A fragmented message is
    acknowledged in every one of these cases, with an ACK frame that
    carries the address field of the data frames; a single-frame message
    never is. *)
Theorem receive_pass_events (T : MsgType) (prio addr : Z) (msg : list Z)
    (b : CANBus) (times : list Z) :
  (1 <= sizeof T)%nat ->
  length msg = sizeof T ->
  0 <= TypeID T < ACK_TYPE_ID ->
  length times = length (send_pass T prio addr msg) ->
  Forall (fun t => expired (hd 0 times) t = false) times ->
  snd (receive_all (zip (map Some (send_pass T prio addr msg)) times) b) =
  dispatch_events (handlers_ b) (TypeID T) msg ++
  (if (8 <? sizeof T)%nat
   then [Transmit (ack_frame (addr mod 16) (TypeID T)) 20]
   else []).
Proof. apply receive_pass. Qed.


Lemma receive_pass_events_witness :
  let T := {| sizeof := 9; TypeID := 1 |} in
  let msg := [1; 2; 3; 4; 5; 6; 7; 8; 9] in
  snd (receive_all (zip (map Some (send_pass T 0 5 msg)) [0; 0])
         CANBus_new) =
  [Transmit (ack_frame 5 1) 20].
Proof.
  intros T msg.
  apply (receive_pass_events T 0 5 msg CANBus_new [0; 0]).
  - simpl. lia.
  - reflexivity.
  - unfold ACK_TYPE_ID. simpl. lia.
  - reflexivity.
  - repeat constructor.
Defined.

(** The receive path keeps no record of what it has delivered: when the
    frames of a pass arrive a second time (a retry after a lost ACK), the
    handler is invoked again and the message is acknowledged again. *)
Theorem retransmission_is_delivered_again (T : MsgType) (prio addr : Z)
    (msg : list Z) (b : CANBus) (times times' : list Z) :
  (1 <= sizeof T)%nat ->
  length msg = sizeof T ->
  0 <= TypeID T < ACK_TYPE_ID ->
  length times = length (send_pass T prio addr msg) ->
  length times' = length (send_pass T prio addr msg) ->
  Forall (fun t => expired (hd 0 times) t = false) times ->
  Forall (fun t => expired (hd 0 times') t = false) times' ->
  let pass := map Some (send_pass T prio addr msg) in
  let once :=
    dispatch_events (handlers_ b) (TypeID T) msg ++
    (if (8 <? sizeof T)%nat
     then [Transmit (ack_frame (addr mod 16) (TypeID T)) 20]
     else []) in
  snd (receive_all (zip pass times ++ zip pass times') b) = once ++ once.
Proof.
  intros Hpos Hlen Hty Hl1 Hl2 Ht1 Ht2 pass once.
  rewrite receive_all_app. cbn [snd].
  unfold pass.
  rewrite (receive_pass T prio addr msg b times) by assumption.
  rewrite (receive_pass T prio addr msg _ times') by assumption.
  destruct (receive_all_bus
              (zip (map Some (send_pass T prio addr msg)) times) b)
    as (_ & _ & Hh & _).
  cbn zeta in Hh. rewrite Hh. reflexivity.
Qed.

Lemma retransmission_is_delivered_again_witness :
  let T := {| sizeof := 9; TypeID := 1 |} in
  let msg := [1; 2; 3; 4; 5; 6; 7; 8; 9] in
  let pass := map Some (send_pass T 0 5 msg) in
  callbacks_of
    (snd (receive_all (zip pass [0; 0] ++ zip pass [7; 7])
            (onReceive T 4%nat CANBus_new))) =
  [(4%nat, msg); (4%nat, msg)].
Proof.
  intros T msg pass.
  unfold pass.
  rewrite (retransmission_is_delivered_again T 0 5 msg
             (onReceive T 4%nat CANBus_new) [0; 0] [7; 7]).
  - reflexivity.
  - simpl. lia.
  - reflexivity.
  - unfold ACK_TYPE_ID. simpl. lia.
  - reflexivity.
  - reflexivity.
  - repeat constructor.
  - repeat constructor.
Defined.

(** However many frames the receive path processes, it never writes the
    retry limit, the error callback or the registry, and the
    pending-acknowledgment slot ends up holding the value of the last ACK
    frame among them, or what it held before when there was none. *)
Theorem receive_path_writes (rxs : list (option twai_message_t * Z))
    (b : CANBus) :
  let b' := snd (fst (receive_all rxs b)) in
  retryLimit_ b' = retryLimit_ b /\
  errorCb_ b' = errorCb_ b /\
  handlers_ b' = handlers_ b /\
  pendingAck_ b' =
    match last (ack_frames rxs) with
    | Some m => ack_value m
    | None => pendingAck_ b
    end.
Proof.
  destruct (receive_all_bus rxs b) as (H1 & H2 & H3 & H4).
  cbn zeta in *. repeat split; try assumption.
  rewrite H4. generalize (pendingAck_ b). clear.
  induction rxs as [| [[m |] t] rest IH]; intros v; [reflexivity | |].
  - change (slot_after ((Some m, t) :: rest) v)
      with (slot_after rest (slot_step v (Some m, t))).
    rewrite IH. unfold slot_step. cbn [fst].
    assert (Hc : ack_frames ((Some m, t) :: rest) =
                 if id_type (identifier m) =? ACK_TYPE_ID
                 then m :: ack_frames rest else ack_frames rest).
    { unfold ack_frames. cbn.
      destruct (id_type (identifier m) =? ACK_TYPE_ID); reflexivity. }
    rewrite Hc.
    destruct (id_type (identifier m) =? ACK_TYPE_ID); [| reflexivity].
    rewrite last_cons. destruct (last (ack_frames rest)); reflexivity.
  - change (slot_after ((None, t) :: rest) v) with (slot_after rest v).
    rewrite IH. reflexivity.
Qed.

(** What one data frame does to the entry of its key, and what it emits,
    depends on the object only through that entry and the registry. *)
Lemma handleReceive_depends (m : twai_message_t) (now : Z) (b1 b2 : CANBus) :
  id_type (identifier m) <> ACK_TYPE_ID ->
  let key := id_base (identifier m) in
  fragMap_ b1 !! key = fragMap_ b2 !! key ->
  handlers_ b1 = handlers_ b2 ->
  snd (handleReceive (Some m) now b1) = snd (handleReceive (Some m) now b2) /\
  fragMap_ (snd (fst (handleReceive (Some m) now b1))) !! key =
  fragMap_ (snd (fst (handleReceive (Some m) now b2))) !! key.
Proof.
  intros Hack key Hk Hh.
  assert (He : entry_at b1 key = entry_at b2 key)
    by (unfold entry_at; rewrite Hk; reflexivity).
  destruct (id_seq_cases (identifier m)) as [Hs | [Hs | [Hs | Hs]]].
  - rewrite !(handleReceive_start m now _ Hack Hs). cbn.
    split; [reflexivity |]. fold key. rewrite !lookup_insert_eq. reflexivity.
  - destruct (expired (timestamp (entry_at b1 key)) now) eqn:Hx.
    + rewrite (handleReceive_expired m now b1 Hack (or_introl Hs) Hx).
      rewrite He in Hx.
      rewrite (handleReceive_expired m now b2 Hack (or_introl Hs) Hx).
      cbn. split; [reflexivity |]. fold key.
      rewrite !lookup_delete_eq. reflexivity.
    + rewrite (handleReceive_middle m now b1 Hack Hs Hx).
      rewrite He in Hx.
      rewrite (handleReceive_middle m now b2 Hack Hs Hx).
      cbn. split; [reflexivity |]. fold key.
      rewrite !lookup_insert_eq, He. reflexivity.
  - destruct (expired (timestamp (entry_at b1 key)) now) eqn:Hx.
    + rewrite (handleReceive_expired m now b1 Hack (or_intror Hs) Hx).
      rewrite He in Hx.
      rewrite (handleReceive_expired m now b2 Hack (or_intror Hs) Hx).
      cbn. split; [reflexivity |]. fold key.
      rewrite !lookup_delete_eq. reflexivity.
    + rewrite (handleReceive_end m now b1 Hack Hs Hx).
      rewrite He in Hx.
      rewrite (handleReceive_end m now b2 Hack Hs Hx).
      cbn zeta. cbn [fst snd fragMap_ set_fragMap]. fold key.
      rewrite He, Hh, !lookup_delete_eq. split; reflexivity.
  - rewrite !(handleReceive_single m now _ Hack Hs), !dispatch_eq.
    fold key. cbn [fst snd]. split.
    + destruct (fragMap_ b1 !! key), (fragMap_ b2 !! key);
        cbn [handlers_ set_fragMap]; rewrite Hh; reflexivity.
    + pose proof Hk as Hk2.
      destruct (fragMap_ b1 !! key) as [e |] eqn:H1;
        destruct (fragMap_ b2 !! key) as [e' |] eqn:H2; try discriminate.
      * cbv beta iota. rewrite H1, H2. exact Hk2.
      * cbn [fragMap_ set_fragMap].
        rewrite !lookup_insert_eq, He. reflexivity.
Qed.

(** An arrival that is not a data frame of [key] leaves the entry of
    [key] and the registry as they are. *)
Lemma handleReceive_foreign (key : Z) (rx : option twai_message_t) (now : Z)
    (b : CANBus) :
  about key (rx, now) = false ->
  fragMap_ (snd (fst (handleReceive rx now b))) !! key = fragMap_ b !! key /\
  handlers_ (snd (fst (handleReceive rx now b))) = handlers_ b.
Proof.
  intros Hab.
  destruct (handleReceive_bus rx now b) as (_ & _ & Hh & _).
  split; [| exact Hh].
  destruct rx as [m |]; [| reflexivity].
  unfold about in Hab. cbn [fst] in Hab.
  destruct (Z.eqb_spec (id_type (identifier m)) ACK_TYPE_ID) as [Hack | Hack].
  - unfold handleReceive. rewrite Hack. reflexivity.
  - cbn [negb andb] in Hab. apply Z.eqb_neq in Hab.
    destruct (handleReceive_table m now b Hack) as (fm & ev & E & Ho & _).
    rewrite E. cbn [fst snd fragMap_ set_fragMap]. apply Ho.
    congruence.
Qed.

Lemma receive_all_interleaved (key : Z)
    (rxs : list (option twai_message_t * Z)) :
  forall b1 b2 : CANBus,
    fragMap_ b1 !! key = fragMap_ b2 !! key ->
    handlers_ b1 = handlers_ b2 ->
    sublist (snd (receive_all (filter (fun rx => about key rx = true) rxs)
                    b2))
            (snd (receive_all rxs b1)) /\
    fragMap_ (snd (fst (receive_all rxs b1))) !! key =
    fragMap_ (snd (fst (receive_all
                          (filter (fun rx => about key rx = true) rxs) b2)))
      !! key.
Proof.
  induction rxs as [| [rx now] rest IH]; intros b1 b2 Hk Hh.
  - cbn. split; [constructor | exact Hk].
  - rewrite filter_cons.
    destruct (decide (about key (rx, now) = true)) as [Hab | Hab].
    + unfold about in Hab. cbn [fst] in Hab.
      destruct rx as [m |]; [| discriminate].
      apply andb_prop in Hab. destruct Hab as [Hn Hkey].
      apply negb_true_iff, Z.eqb_neq in Hn. apply Z.eqb_eq in Hkey.
      subst key.
      destruct (handleReceive_depends m now b1 b2 Hn Hk Hh) as (Hev & Hk').
      destruct (handleReceive_bus (Some m) now b1) as (_ & _ & Hh1 & _).
      destruct (handleReceive_bus (Some m) now b2) as (_ & _ & Hh2 & _).
      cbn zeta in *. cbn [receive_all]. unfold bind.
      destruct (handleReceive (Some m) now b1) as [[[] c1] e1].
      destruct (handleReceive (Some m) now b2) as [[[] c2] e2].
      cbn [fst snd] in *. subst e2.
      destruct (IH c1 c2 Hk' ltac:(congruence)) as (Hsub & Hfin).
      destruct (receive_all rest c1) as [[[] d1] f1].
      destruct (receive_all _ c2) as [[[] d2] f2].
      cbn [fst snd] in *. split; [| exact Hfin].
      apply sublist_app; [reflexivity | exact Hsub].
    + apply not_true_is_false in Hab.
      destruct (handleReceive_foreign key rx now b1 Hab) as (Hk' & Hh').
      cbn [receive_all]. unfold bind.
      destruct (handleReceive rx now b1) as [[[] c1] e1].
      cbn [fst snd] in *.
      destruct (IH c1 b2 ltac:(congruence) ltac:(congruence))
        as (Hsub & Hfin).
      destruct (receive_all rest c1) as [[[] d1] f1].
      cbn [fst snd] in *. split; [| exact Hfin].
      apply sublist_inserts_l. exact Hsub.
Qed.


(** The fragments of a message keep being reassembled while frames of
    other routing keys, ACK frames and empty polls arrive between them: if
    the data frames of this key among the arrivals are exactly the frames
    of one pass, in order and in time, the events of the run contain the
    callback of the handler stored under the type-id, with the message's
    bytes, and for a fragmented message its ACK frame. *)
Theorem interleaved_message_is_delivered (T : MsgType) (prio addr : Z)
    (msg : list Z) (b : CANBus) (h : Handler) (times : list Z)
    (rxs : list (option twai_message_t * Z)) :
  (1 <= sizeof T)%nat ->
  length msg = sizeof T ->
  0 <= TypeID T < ACK_TYPE_ID ->
  handlers_ b !! TypeID T = Some h ->
  (handler_sizeof h <= sizeof T)%nat ->
  length times = length (send_pass T prio addr msg) ->
  Forall (fun t => expired (hd 0 times) t = false) times ->
  filter (fun rx => about (buildId prio addr 0 (TypeID T)) rx = true) rxs =
    zip (map Some (send_pass T prio addr msg)) times ->
  Callback (handler_cb h) (take (handler_sizeof h) msg)
    ∈ snd (receive_all rxs b) /\
  ((8 < sizeof T)%nat ->
   Transmit (ack_frame (addr mod 16) (TypeID T)) 20
     ∈ snd (receive_all rxs b)).
Proof.
  intros Hpos Hlen Hty Hh Hsz Hlt Hts Hown.
  destruct (receive_all_interleaved (buildId prio addr 0 (TypeID T)) rxs b b
              eq_refl eq_refl) as (Hsub & _).
  rewrite Hown in Hsub.
  rewrite (receive_pass T prio addr msg b times) in Hsub by assumption.
  apply sublist_subseteq in Hsub.
  unfold dispatch_events in Hsub. rewrite Hh in Hsub.
  destruct (Nat.ltb_spec (length msg) (handler_sizeof h)); [lia |].
  split.
  - apply Hsub. left.
  - intros Hfrag. apply Hsub.
    destruct (Nat.ltb_spec 8 (sizeof T)); [| lia].
    right. left.
Qed.

Lemma interleaved_message_is_delivered_witness :
  let T := {| sizeof := 9; TypeID := 1 |} in
  let T' := {| sizeof := 2; TypeID := 2 |} in
  let msg := [1; 2; 3; 4; 5; 6; 7; 8; 9] in
  let other := chunk_frame 0 4 2 false [7; 7] 0 in
  let rxs :=
    match send_pass T 0 5 msg with
    | f0 :: f1 :: _ =>
        [(Some f0, 0); (Some other, 1); (None, 2);
         (Some (ack_frame 3 6), 3); (Some f1, 4)]
    | _ => []
    end in
  Callback 4 msg ∈ snd (receive_all rxs (onReceive T 4%nat CANBus_new)).
Proof.
  intros T T' msg other rxs.
  destruct (interleaved_message_is_delivered T 0 5 msg
              (onReceive T 4%nat CANBus_new)
              {| handler_sizeof := 9; handler_cb := 4 |} [0; 4] rxs)
    as [H _].
  - simpl. lia.
  - reflexivity.
  - unfold ACK_TYPE_ID. simpl. lia.
  - reflexivity.
  - simpl. lia.
  - reflexivity.
  - repeat constructor.
  - reflexivity.
  - exact H.
Defined.

(** ** Timeout eviction *)


Section Eviction.

Variables (prio addr type : Z) (buf : list Z).

Hypothesis type_not_ack : Z.land type 0x07 <> ACK_TYPE_ID.

(** A fragment past the first one, and what is known of its frame. *)
Lemma later_fragment (offset : nat) :
  (0 < offset < length buf)%nat ->
  let f := chunk_frame prio addr type true buf offset in
  id_type (identifier f) <> ACK_TYPE_ID /\
  id_base (identifier f) = buildId prio addr 0 type /\
  (id_seq (identifier f) = MIDDLE \/ id_seq (identifier f) = END) /\
  (id_seq (identifier f) = END ->
   (length buf <= offset + Nat.min 8 (length buf - offset))%nat).
Proof.
  intros Ho f.
  destruct (chunk_frame_fields prio addr type buf true offset)
    as (Hty & _ & Hky).
  fold f in Hty, Hky.
  assert (Hseq : id_seq (identifier f) =
                 if (length buf <=? offset + Nat.min 8 (length buf - offset))%nat
                 then END else MIDDLE).
  { unfold f. rewrite seq_of_chunk_frame. unfold chunk_seq. cbn [negb].
    destruct (Nat.eqb_spec offset 0); [lia | reflexivity]. }
  split; [congruence |]. split; [exact Hky |].
  rewrite Hseq.
  destruct (Nat.leb_spec (length buf)
              (offset + Nat.min 8 (length buf - offset))).
  - split; [right; reflexivity | intros _; assumption].
  - split; [left; reflexivity | discriminate].
Qed.

(** Without entry and with the clock past the timeout, the remaining
    fragments are dropped one by one. *)
Lemma dropped_rest :
  forall (fuel offset : nat) (b : CANBus) (ts : list Z),
    (0 < offset)%nat ->
    length ts = length (fragments fuel prio addr type true buf offset) ->
    fragMap_ b !! buildId prio addr 0 type = None ->
    Forall (fun t => expired 0 t = true) ts ->
    exists b',
      receive_all
        (zip (map Some (fragments fuel prio addr type true buf offset)) ts)
        b = (tt, b', []) /\
      fragMap_ b' !! buildId prio addr 0 type = None.
Proof.
  induction fuel as [| fuel IH]; intros offset b ts Ho Hlen Hnone Hts.
  - cbn [fragments] in *.
    destruct (offset <? length buf)%nat; destruct ts; try discriminate;
      exists b; split; (reflexivity || assumption).
  - revert Hlen. cbn [fragments].
    destruct (Nat.ltb_spec offset (length buf)) as [Hlt | Hge].
    2:{ destruct ts; [| discriminate]. intros _.
        exists b. split; [reflexivity | assumption]. }
    destruct ts as [| t ts]; [discriminate |]. intros Hlen.
    apply Forall_cons in Hts. destruct Hts as [Ht Hts].
    destruct (later_fragment offset ltac:(lia)) as (Hnack & Hky & Hseq & _).
    set (f := chunk_frame prio addr type true buf offset) in *.
    assert (Hx : expired (timestamp (entry_at b (id_base (identifier f)))) t
                 = true).
    { rewrite Hky, (entry_at_none _ _ Hnone). exact Ht. }
    pose proof (handleReceive_expired f t b Hnack Hseq Hx) as Hstep.
    rewrite Hky in Hstep.
    destruct (IH (offset + Nat.min 8 (length buf - offset))%nat
                (set_fragMap (delete (buildId prio addr 0 type) (fragMap_ b))
                   b) ts)
      as (b' & Hrun & Hfin);
      [lia | cbn [length] in Hlen; lia
       | cbn [fragMap_ set_fragMap]; apply lookup_delete_eq | exact Hts |].
    exists b'. split; [| exact Hfin].
    cbn [map zip zip_with]. change (@nil Event) with (@nil Event ++ []).
    eapply receive_all_cons; [exact Hstep | exact Hrun].
Qed.

(** With a live entry stamped [t0] and a fragment that arrives too late,
    nothing is delivered. *)
Lemma late_rest (t0 : Z) :
  forall (fuel offset : nat) (b : CANBus) (ts : list Z),
    0 <= t0 ->
    (0 < offset < length buf)%nat ->
    (length buf - offset <= fuel)%nat ->
    fragMap_ b !! buildId prio addr 0 type =
      Some {| entry_data := take offset buf; timestamp := t0 |} ->
    length ts = length (fragments fuel prio addr type true buf offset) ->
    Exists (fun t => expired t0 t = true) ts ->
    StronglySorted Z.le ts ->
    exists b',
      receive_all
        (zip (map Some (fragments fuel prio addr type true buf offset)) ts)
        b = (tt, b', []) /\
      fragMap_ b' !! buildId prio addr 0 type = None.
Proof.
  induction fuel as [| fuel IH];
    intros offset b ts Ht0 Ho Hfuel Hentry Hlen Hlate Hsort; [lia |].
  revert Hlen. cbn [fragments].
  destruct (Nat.ltb_spec offset (length buf)) as [_ | ?]; [| lia].
  destruct ts as [| t ts]; [discriminate |]. intros Hlen.
  apply StronglySorted_inv in Hsort. destruct Hsort as [Hsort Hle].
  destruct (later_fragment offset Ho) as (Hnack & Hky & Hseq & Hend).
  set (f := chunk_frame prio addr type true buf offset) in *.
  set (chunk := Nat.min 8 (length buf - offset)) in *.
  assert (Hchunk : (1 <= chunk <= length buf - offset)%nat)
    by (unfold chunk; lia).
  assert (Hat : entry_at b (id_base (identifier f)) =
                {| entry_data := take offset buf; timestamp := t0 |}).
  { rewrite Hky. apply entry_at_some. exact Hentry. }
  cbn [map zip zip_with].
  destruct (expired t0 t) eqn:Hx.
  - assert (Hx' : expired (timestamp (entry_at b (id_base (identifier f)))) t
                  = true) by (rewrite Hat; exact Hx).
    pose proof (handleReceive_expired f t b Hnack Hseq Hx') as Hstep.
    rewrite Hky in Hstep.
    apply expired_iff in Hx.
    assert (Hall : Forall (fun t' => expired 0 t' = true) ts).
    { rewrite Forall_forall in Hle. apply Forall_forall. intros t' Hin.
      apply expired_iff. specialize (Hle t' Hin).
      unfold ticks_per_ms in *. lia. }
    destruct (dropped_rest fuel (offset + chunk)%nat
                (set_fragMap (delete (buildId prio addr 0 type) (fragMap_ b))
                   b) ts)
      as (b' & Hrun & Hfin);
      [lia | cbn [length] in Hlen; lia
       | cbn [fragMap_ set_fragMap]; apply lookup_delete_eq | exact Hall |].
    exists b'. split; [| exact Hfin].
    change (@nil Event) with (@nil Event ++ []).
    eapply receive_all_cons; [exact Hstep | exact Hrun].
  - apply Exists_cons in Hlate. destruct Hlate as [Hlate | Hlate];
      [congruence |].
    assert (Hmid : id_seq (identifier f) = MIDDLE).
    { destruct Hseq as [Hm | He]; [exact Hm |]. exfalso.
      specialize (Hend He). fold chunk in Hend.
      rewrite fragments_done in Hlen by lia.
      destruct ts; [| discriminate]. inversion Hlate. }
    assert (Hlive : expired (timestamp (entry_at b (id_base (identifier f)))) t
                    = false) by (rewrite Hat; exact Hx).
    pose proof (handleReceive_middle f t b Hnack Hmid Hlive) as Hstep.
    rewrite Hat, Hky in Hstep. unfold append in Hstep.
    cbn [entry_data timestamp] in Hstep.
    assert (Hacc : take offset buf ++ payload f = take (offset + chunk) buf).
    { unfold f. rewrite payload_chunk_frame. apply take_take_drop. }
    rewrite Hacc in Hstep.
    assert (Hnot_end : (offset + chunk < length buf)%nat).
    { destruct (Nat.lt_ge_cases (offset + chunk) (length buf));
        [assumption |].
      rewrite fragments_done in Hlen by lia.
      destruct ts; [| discriminate]. inversion Hlate. }
    destruct (IH (offset + chunk)%nat
                (set_fragMap
                   (<[buildId prio addr 0 type :=
                        {| entry_data := take (offset + chunk) buf;
                           timestamp := t0 |}]> (fragMap_ b)) b) ts)
      as (b' & Hrun & Hfin);
      [exact Ht0 | lia | lia
       | cbn [fragMap_ set_fragMap]; apply lookup_insert_eq
       | cbn [length] in Hlen; lia | exact Hlate | exact Hsort |].
    exists b'. split; [| exact Hfin].
    change (@nil Event) with (@nil Event ++ []).
    eapply receive_all_cons; [exact Hstep | exact Hrun].
Qed.

End Eviction.

(** Timeout eviction.  When the frames of a fragmented message arrive in
    order, at non-decreasing clock readings, and one of them arrives 501 ms
    or more after the [START] frame, the partial message is dropped at that
    frame and the rest of its fragments are dropped as they come: nothing is
    delivered, nothing is acknowledged, and no entry is left for the key. *)
Theorem late_fragment_evicts (T : MsgType) (prio addr : Z) (msg : list Z)
    (b : CANBus) (t0 : Z) (ts : list Z) :
  (8 < sizeof T)%nat ->
  length msg = sizeof T ->
  0 <= TypeID T < ACK_TYPE_ID ->
  0 <= t0 ->
  length (t0 :: ts) = length (send_pass T prio addr msg) ->
  StronglySorted Z.le (t0 :: ts) ->
  Exists (fun t => 501 * ticks_per_ms <= t - t0) ts ->
  exists b',
    receive_all (zip (map Some (send_pass T prio addr msg)) (t0 :: ts)) b =
      (tt, b', []) /\
    fragMap_ b' !! buildId prio addr 0 (TypeID T) = None.
Proof.
  intros Hfrag Hlen Hty Ht0 Hlt Hsort Hlate. unfold ACK_TYPE_ID in Hty.
  assert (Hnack : Z.land (TypeID T) 0x07 <> ACK_TYPE_ID)
    by (rewrite land7_small by lia; unfold ACK_TYPE_ID; lia).
  destruct (send_pass_fragmented T prio addr msg Hlen Hfrag) as (_ & Hp).
  cbn zeta in Hp. rewrite Hp in *.
  set (buf := msg ++ [crc8 msg (sizeof T)]) in *.
  assert (Hl : length buf = S (sizeof T))
    by (unfold buf; rewrite length_app; simpl; lia).
  set (f := chunk_frame prio addr (TypeID T) true buf 0) in *.
  destruct (chunk_frame_fields prio addr (TypeID T) buf true 0)
    as (Hft & _ & Hky).
  fold f in Hft, Hky.
  assert (Hfn : id_type (identifier f) <> ACK_TYPE_ID) by congruence.
  assert (Hseq : id_seq (identifier f) = START)
    by (unfold f; rewrite seq_of_chunk_frame; reflexivity).
  assert (Hpay : payload f = take 8 buf).
  { unfold f. rewrite payload_chunk_frame, drop_0. f_equal. lia. }
  pose proof (handleReceive_start f t0 b Hfn Hseq) as Hstart.
  rewrite Hky, Hpay in Hstart.
  apply StronglySorted_inv in Hsort. destruct Hsort as [Hsort _].
  assert (Hlate' : Exists (fun t => expired t0 t = true) ts).
  { apply Exists_exists in Hlate. destruct Hlate as (t & Hin & Ht).
    apply Exists_exists. exists t. split; [exact Hin |].
    apply expired_iff. exact Ht. }
  destruct (late_rest prio addr (TypeID T) buf Hnack t0 (length buf - 1) 8
              (set_fragMap
                 (<[buildId prio addr 0 (TypeID T) :=
                      {| entry_data := take 8 buf; timestamp := t0 |}]>
                    (fragMap_ b)) b) ts)
    as (b' & Hrun & Hfin);
    [exact Ht0 | lia | lia
     | cbn [fragMap_ set_fragMap]; apply lookup_insert_eq
     | cbn [length] in Hlt; lia | exact Hlate' | exact Hsort |].
  exists b'. split; [| exact Hfin].
  cbn [map zip zip_with]. change (@nil Event) with (@nil Event ++ []).
  eapply receive_all_cons; [exact Hstart | exact Hrun].
Qed.

Lemma late_fragment_evicts_witness :
  let T := {| sizeof := 9; TypeID := 1 |} in
  let msg := [1; 2; 3; 4; 5; 6; 7; 8; 9] in
  exists b',
    receive_all (zip (map Some (send_pass T 0 5 msg))
                   [0; 501 * ticks_per_ms])
      (onReceive T 4%nat CANBus_new) = (tt, b', []) /\
    fragMap_ b' !! buildId 0 5 0 1 = None.
Proof.
  intros T msg.
  apply (late_fragment_evicts T 0 5 msg (onReceive T 4%nat CANBus_new) 0
           [501 * ticks_per_ms]).
  - simpl. lia.
  - reflexivity.
  - unfold ACK_TYPE_ID. simpl. lia.
  - lia.
  - reflexivity.
  - repeat constructor. vm_compute. discriminate.
  - left. vm_compute. discriminate.
Defined.

(** ** The reserved type-id on the data path *)

Lemma receive_all_ack_frames (rxs : list (option twai_message_t * Z))
    (b : CANBus) :
  Forall (fun rx => match fst rx with
                    | Some m => id_type (identifier m) = ACK_TYPE_ID
                    | None => True
                    end) rxs ->
  snd (receive_all rxs b) = [] /\
  fragMap_ (snd (fst (receive_all rxs b))) = fragMap_ b.
Proof.
  revert b. induction rxs as [| [[m |] t] rest IH]; intros b H.
  - split; reflexivity.
  - apply Forall_cons in H. destruct H as [Hm H]. cbn [fst] in Hm.
    cbn [receive_all]. unfold bind.
    assert (E : handleReceive (Some m) t b =
                (tt, set_pendingAck (ack_value m) b, []))
      by (unfold handleReceive; rewrite Hm; reflexivity).
    rewrite E. destruct (IH (set_pendingAck (ack_value m) b) H) as (I1 & I2).
    destruct (receive_all rest _) as [[[] b2] ev2]. cbn [fst snd] in *.
    subst ev2. split; [reflexivity | exact I2].
  - apply Forall_cons in H. destruct H as [_ H].
    cbn [receive_all]. unfold bind. cbn [handleReceive ret].
    destruct (IH b H) as (I1 & I2).
    destruct (receive_all rest b) as [[[] b2] ev2]. cbn [fst snd] in *.
    subst ev2. split; [reflexivity | exact I2].
Qed.

Lemma fragments_types (prio addr type : Z) (fragmented : bool)
    (buf : list Z) (fuel offset : nat) :
  Forall (fun m => id_type (identifier m) = Z.land type 0x07)
    (fragments fuel prio addr type fragmented buf offset).
Proof.
  revert offset. induction fuel as [| fuel IH]; intros offset.
  - cbn [fragments]. destruct (offset <? length buf)%nat; constructor.
  - cbn [fragments].
    destruct (offset <? length buf)%nat; [| constructor].
    constructor; [| apply IH].
    destruct (chunk_frame_fields prio addr type buf fragmented offset)
      as (H & _). exact H.
Qed.

(** A message sent under a type-id whose low three bits are all set (7,
    15, ...) travels as ACK frames: whatever its size, and whatever is
    registered at the receiver, receiving its frames invokes nothing,
    acknowledges nothing and leaves the reassembly table untouched. *)
Theorem reserved_type_is_never_delivered (T : MsgType) (prio addr : Z)
    (msg : list Z) (b : CANBus) (times : list Z) :
  (TypeID T) mod 8 = ACK_TYPE_ID ->
  let rxs := zip (map Some (send_pass T prio addr msg)) times in
  snd (receive_all rxs b) = [] /\
  fragMap_ (snd (fst (receive_all rxs b))) = fragMap_ b.
Proof.
  intros Hty rxs. subst rxs. apply receive_all_ack_frames.
  assert (Hland : Z.land (TypeID T) 0x07 = ACK_TYPE_ID).
  { rewrite <- Hty. change 0x07 with (Z.ones 3). apply Z.land_ones. lia. }
  unfold send_pass.
  pose proof (fragments_types prio addr (TypeID T) (8 <? sizeof T)%nat
                (send_buf T msg) (length (send_buf T msg)) 0) as Hf.
  revert times.
  induction Hf as [| f fs Hx Hfs IH]; intros times; [constructor |].
  destruct times as [| t ts]; [constructor |].
  cbn [map zip zip_with]. constructor.
  - cbn [fst]. congruence.
  - apply IH.
Qed.

Lemma reserved_type_is_never_delivered_witness :
  let T := {| sizeof := 9; TypeID := 7 |} in
  let msg := [1; 2; 3; 4; 5; 6; 7; 8; 9] in
  let b := onReceive T 4%nat CANBus_new in
  let rxs := zip (map Some (send_pass T 0 5 msg)) [0; 0] in
  snd (receive_all rxs b) = [] /\
  fragMap_ (snd (fst (receive_all rxs b))) = fragMap_ b.
Proof.
  intros T msg b. apply (reserved_type_is_never_delivered T 0 5 msg b [0; 0]).
  reflexivity.
Defined.

(** ** Checksum: residue and error detection *)

Lemma lxor_byte (c x : Z) :
  0 <= c < 256 -> 0 <= x < 256 -> 0 <= Z.lxor c x < 256.
Proof.
  intros Hc Hx.
  assert (Hb : 0 <= Z.lxor c x < 2 ^ 8); [| exact Hb].
  split.
  - apply Z.lxor_nonneg. lia.
  - destruct (Z.eq_dec (Z.lxor c x) 0) as [-> | Hne]; [reflexivity |].
    apply Z.log2_lt_pow2; [pose proof (proj2 (Z.lxor_nonneg c x)); lia |].
    eapply Z.le_lt_trans; [apply Z.log2_lxor; lia |].
    apply Z.max_lub_lt.
    + destruct (Z.eq_dec c 0) as [-> | ?]; [reflexivity |].
      apply Z.log2_lt_pow2; lia.
    + destruct (Z.eq_dec x 0) as [-> | ?]; [reflexivity |].
      apply Z.log2_lt_pow2; lia.
Qed.

Lemma crc8_inner_injective (x y : Z) :
  0 <= x < 256 -> 0 <= y < 256 ->
  crc8_inner 8 x = crc8_inner 8 y -> x = y.
Proof.
  intros Hx Hy H.
  assert (Hc : crc8_inner_injective_check = true)
    by (vm_compute; reflexivity).
  unfold crc8_inner_injective_check in Hc.
  rewrite forallb_forall in Hc.
  specialize (Hc x (in_seqZ_range x 0 256 ltac:(lia))).
  rewrite forallb_forall in Hc.
  specialize (Hc y (in_seqZ_range y 0 256 ltac:(lia))).
  rewrite H, Z.eqb_refl in Hc. cbn [implb] in Hc.
  apply Z.eqb_eq. exact Hc.
Qed.

(** One turn of the outer loop of [crc8] is one-to-one in the running
    value. *)
Lemma crc8_turn_injective (c1 c2 x : Z) :
  0 <= c1 < 256 -> 0 <= c2 < 256 -> 0 <= x < 256 ->
  crc8_inner 8 (to_u8 (Z.lxor c1 x)) = crc8_inner 8 (to_u8 (Z.lxor c2 x)) ->
  c1 = c2.
Proof.
  intros H1 H2 Hx H.
  apply crc8_inner_injective in H; try apply to_u8_range.
  rewrite !to_u8_mod, !Z.mod_small in H by (apply lxor_byte; assumption).
  apply (f_equal (fun v => Z.lxor v x)) in H.
  rewrite !Z.lxor_assoc, Z.lxor_nilpotent, !Z.lxor_0_r in H. exact H.
Qed.

Lemma nth_byte (data : list Z) (i : nat) :
  Forall (fun b => 0 <= b < 256) data -> 0 <= nth i data 0 < 256.
Proof.
  intros H. destruct (Nat.lt_ge_cases i (length data)) as [Hlt | Hge].
  - rewrite Forall_forall in H. apply H. apply list_elem_of_In, nth_In.
    exact Hlt.
  - rewrite nth_overflow by lia. lia.
Qed.

(** Running values that differ stay different to the end of the loop. *)
Lemma crc8_loop_separates (data : list Z) (todo i : nat) (c1 c2 : Z) :
  Forall (fun b => 0 <= b < 256) data ->
  0 <= c1 < 256 -> 0 <= c2 < 256 -> c1 <> c2 ->
  crc8_loop data todo i c1 <> crc8_loop data todo i c2.
Proof.
  intros Hd. revert i c1 c2.
  induction todo as [| todo IH]; intros i c1 c2 H1 H2 Hne; [exact Hne |].
  cbn [crc8_loop]. apply IH.
  - apply crc8_inner_range, to_u8_range.
  - apply crc8_inner_range, to_u8_range.
  - intros H. apply Hne.
    apply (crc8_turn_injective c1 c2 (nth i data 0)); try assumption.
    apply nth_byte. exact Hd.
Qed.

(** The loop reads nothing below its index. *)
Lemma crc8_loop_above (data : list Z) (j : nat) (v : Z) (todo i : nat)
    (c : Z) :
  (j < i)%nat ->
  crc8_loop (<[j := v]> data) todo i c = crc8_loop data todo i c.
Proof.
  revert i c. induction todo as [| todo IH]; intros i c Hji; [reflexivity |].
  cbn [crc8_loop].
  rewrite !nth_lookup, list_lookup_insert_ne by lia.
  apply IH. lia.
Qed.

Lemma crc8_loop_detects (data : list Z) (j : nat) (v : Z) :
  Forall (fun b => 0 <= b < 256) data ->
  0 <= v < 256 ->
  (j < length data)%nat -> v <> nth j data 0 ->
  forall (todo i : nat) (c : Z),
    0 <= c < 256 -> (i <= j < i + todo)%nat ->
    crc8_loop (<[j := v]> data) todo i c <> crc8_loop data todo i c.
Proof.
  intros Hd Hv Hj Hne.
  induction todo as [| todo IH]; intros i c Hc Hij; [lia |].
  cbn [crc8_loop].
  destruct (Nat.eq_dec i j) as [-> | Hdiff].
  - rewrite crc8_loop_above by lia.
    apply crc8_loop_separates; try assumption;
      try (apply crc8_inner_range, to_u8_range).
    intros H.
    apply crc8_inner_injective in H; try apply to_u8_range.
    rewrite nth_lookup, list_lookup_insert_eq in H by exact Hj.
    cbn [default] in H.
    rewrite !to_u8_mod, !Z.mod_small in H
      by (apply lxor_byte; try assumption; apply nth_byte; assumption).
    apply Hne.
    apply (f_equal (Z.lxor c)) in H.
    rewrite <- !Z.lxor_assoc, Z.lxor_nilpotent, !Z.lxor_0_l in H. exact H.
  - rewrite (nth_lookup (<[j := v]> data)), list_lookup_insert_ne by lia.
    rewrite <- nth_lookup. apply IH.
    + apply crc8_inner_range, to_u8_range.
    + lia.
Qed.

Lemma crc8_detects (data : list Z) (j : nat) (v : Z) :
  Forall (fun b => 0 <= b < 256) data ->
  0 <= v < 256 ->
  (j < length data)%nat -> v <> nth j data 0 ->
  crc8 (<[j := v]> data) (length data) <> crc8 data (length data).
Proof.
  intros Hd Hv Hj Hne. unfold crc8.
  apply crc8_loop_detects; try assumption; lia.
Qed.

(** Every change of a single byte changes the checksum. *)
Theorem crc8_detects_one_byte_error (data : list Z) (j : nat) (v : Z) :
  Forall (fun b => 0 <= b < 256) data ->
  0 <= v < 256 ->
  (j < length data)%nat -> v <> nth j data 0 ->
  crc8 (<[j := v]> data) (length data) <> crc8 data (length data).
Proof. apply crc8_detects. Qed.

Lemma crc8_detects_one_byte_error_witness :
  crc8 (<[1%nat := 9]> [1; 2; 3]) 3 <> crc8 [1; 2; 3] 3.
Proof.
  apply (crc8_detects_one_byte_error [1; 2; 3] 1 9).
  - repeat constructor; lia.
  - lia.
  - simpl. lia.
  - simpl. lia.
Defined.

Lemma crc8_snoc (data : list Z) (x : Z) :
  Forall (fun b => 0 <= b < 256) data -> 0 <= x < 256 ->
  crc8 (data ++ [x]) (S (length data)) =
  crc8_inner 8 (to_u8 (Z.lxor (crc8 data (length data)) x)).
Proof.
  intros Hd Hx.
  assert (Hdx : Forall (fun b => 0 <= b < 256) (data ++ [x]))
    by (apply Forall_app; split; [exact Hd | repeat constructor; lia]).
  assert (E1 : crc8 data (length data) =
               fold_left ChecksumSpec.byte_step data 0).
  { unfold crc8. rewrite crc8_loop_fold by (simpl; auto; lia).
    rewrite drop_0, firstn_all. reflexivity. }
  assert (E2 : crc8 (data ++ [x]) (S (length data)) =
               fold_left ChecksumSpec.byte_step (data ++ [x]) 0).
  { unfold crc8.
    rewrite crc8_loop_fold;
      [| rewrite length_app; simpl; lia | lia | exact Hdx].
    rewrite drop_0.
    replace (S (length data)) with (length (data ++ [x]))
      by (rewrite length_app; simpl; lia).
    rewrite firstn_all. reflexivity. }
  rewrite E2, fold_left_app, <- E1. cbn [fold_left].
  unfold ChecksumSpec.byte_step. rewrite <- crc8_inner_iter. f_equal.
  rewrite to_u8_mod. symmetry. apply Z.mod_small, lxor_byte; [| exact Hx].
  apply crc8_loop_range. lia.
Qed.

(** The checksum of a byte sequence followed by its own checksum is 0, so
    a checksum byte of 0 after the data means the same as a match; and the
    checksum of the empty sequence is 0. *)
Theorem crc8_residue (data : list Z) :
  Forall (fun b => 0 <= b < 256) data ->
  crc8 (data ++ [crc8 data (length data)]) (S (length data)) = 0 /\
  crc8 [] 0 = 0.
Proof.
  intros Hd. split; [| reflexivity].
  rewrite crc8_snoc by (try assumption; apply crc8_loop_range; lia).
  rewrite Z.lxor_nilpotent. reflexivity.
Qed.

Lemma crc8_residue_witness :
  crc8 ([1; 2; 3] ++ [crc8 [1; 2; 3] 3]) 4 = 0 /\ crc8 [] 0 = 0.
Proof.
  apply (crc8_residue [1; 2; 3]). repeat constructor; lia.
Defined.

(** ** Corruption of a fragment *)

(** Identifiers and length codes of the frames depend on the byte stream
    through its length alone. *)
Lemma fragments_headers (prio addr type : Z) (fragmented : bool)
    (buf1 buf2 : list Z) (fuel offset : nat) :
  length buf1 = length buf2 ->
  map (fun m => (identifier m, data_length_code m))
    (fragments fuel prio addr type fragmented buf1 offset) =
  map (fun m => (identifier m, data_length_code m))
    (fragments fuel prio addr type fragmented buf2 offset).
Proof.
  intros Hlen. revert offset.
  induction fuel as [| fuel IH]; intros offset; cbn [fragments];
    rewrite Hlen; destruct (offset <? length buf2)%nat; try reflexivity.
  cbn [map]. rewrite IH. unfold chunk_frame. cbn [identifier data_length_code].
  rewrite Hlen. reflexivity.
Qed.

Lemma corrupted_stream_fails_check (msg : list Z) (j : nat) (v : Z) :
  Forall (fun b => 0 <= b < 256) msg -> 0 <= v < 256 ->
  let buf := msg ++ [crc8 msg (length msg)] in
  (j < length buf)%nat -> v <> nth j buf 0 ->
  let buf' := <[j := v]> buf in
  (List.last buf' 0 =? crc8 (removelast buf') (length (removelast buf')))
  = false.
Proof.
  intros Hd Hv buf Hj Hne buf'. apply Z.eqb_neq.
  destruct (Nat.lt_ge_cases j (length msg)) as [Hlt | Hge].
  - assert (E : buf' = <[j := v]> msg ++ [crc8 msg (length msg)])
      by (unfold buf', buf; apply insert_app_l; exact Hlt).
    rewrite E, last_last, removelast_last, length_insert.
    intros H. symmetry in H. revert H.
    apply crc8_detects; try assumption.
    unfold buf in Hne. rewrite app_nth1 in Hne by exact Hlt. exact Hne.
  - assert (Hjl : j = length msg).
    { unfold buf in Hj. rewrite length_app in Hj. simpl in Hj. lia. }
    subst j.
    assert (E : buf' = msg ++ [v]).
    { unfold buf', buf. rewrite insert_app_r_alt by lia.
      rewrite Nat.sub_diag. reflexivity. }
    rewrite E, last_last, removelast_last.
    unfold buf in Hne. rewrite app_nth2, Nat.sub_diag in Hne by lia.
    exact Hne.
Qed.

(** Corruption rejection.  When one byte of the byte stream of a
    fragmented message (a byte of the message or the checksum byte) is
    replaced by another value on its way, the frames still carry the same
    identifiers and length codes, but once they are all received the
    checksum test fails: no handler is invoked, no ACK frame is sent, and
    the entry is removed. *)
Theorem corrupted_byte_is_rejected (T : MsgType) (prio addr : Z)
    (msg : list Z) (b : CANBus) (times : list Z) (j : nat) (v : Z) :
  (8 < sizeof T)%nat ->
  length msg = sizeof T ->
  0 <= TypeID T < ACK_TYPE_ID ->
  Forall (fun x => 0 <= x < 256) msg -> 0 <= v < 256 ->
  (j < length (send_buf T msg))%nat ->
  v <> nth j (send_buf T msg) 0 ->
  let buf' := <[j := v]> (send_buf T msg) in
  let frames' := fragments (length buf') prio addr (TypeID T) true buf' 0 in
  length times = length frames' ->
  Forall (fun t => expired (hd 0 times) t = false) times ->
  map (fun m => (identifier m, data_length_code m)) frames' =
  map (fun m => (identifier m, data_length_code m))
    (send_pass T prio addr msg) /\
  snd (receive_all (zip (map Some frames') times) b) = [] /\
  fragMap_ (snd (fst (receive_all (zip (map Some frames') times) b)))
    !! buildId prio addr 0 (TypeID T) = None.
Proof.
  intros Hfrag Hlen Hty Hd Hv Hj Hne buf' frames' Hlt Hts.
  unfold ACK_TYPE_ID in Hty.
  assert (Hnack : Z.land (TypeID T) 0x07 <> ACK_TYPE_ID)
    by (rewrite land7_small by lia; unfold ACK_TYPE_ID; lia).
  destruct (send_pass_fragmented T prio addr msg Hlen Hfrag) as (Hb & _).
  cbn zeta in Hb.
  assert (Hf : (8 <? sizeof T)%nat = true) by (apply Nat.ltb_lt; exact Hfrag).
  assert (Hl' : length buf' = length (send_buf T msg))
    by (unfold buf'; apply length_insert).
  assert (Hl : length (send_buf T msg) = S (sizeof T))
    by (rewrite Hb, length_app; simpl; lia).
  split.
  { unfold frames', send_pass. rewrite Hf, Hl'.
    apply fragments_headers. exact Hl'. }
  unfold frames' in *.
  rewrite (receive_fragments prio addr (TypeID T) buf' b times Hnack)
    by (assumption || lia).
  cbn [fst snd fragMap_ set_fragMap].
  split; [| apply lookup_delete_eq].
  assert (Hc : (List.last buf' 0 =?
                crc8 (removelast buf') (length (removelast buf'))) = false).
  { unfold buf'. rewrite Hb in *. rewrite <- Hlen.
    apply corrupted_stream_fails_check; try assumption.
    - rewrite Hlen. exact Hj.
    - rewrite Hlen. exact Hne. }
  rewrite Hc. reflexivity.
Qed.

Lemma corrupted_byte_is_rejected_witness :
  let T := {| sizeof := 9; TypeID := 1 |} in
  let msg := [1; 2; 3; 4; 5; 6; 7; 8; 9] in
  let buf' := <[2%nat := 0]> (send_buf T msg) in
  let frames' := fragments (length buf') 0 5 1 true buf' 0 in
  snd (receive_all (zip (map Some frames') [0; 0])
         (onReceive T 4%nat CANBus_new)) = [].
Proof.
  intros T msg buf' frames'.
  destruct (corrupted_byte_is_rejected T 0 5 msg
              (onReceive T 4%nat CANBus_new) [0; 0] 2 0)
    as (_ & H & _).
  - simpl. lia.
  - reflexivity.
  - unfold ACK_TYPE_ID. simpl. lia.
  - repeat constructor; lia.
  - lia.
  - vm_compute. lia.
  - vm_compute. discriminate.
  - reflexivity.
  - repeat constructor.
  - exact H.
Defined.

(** ** The frames of a pass *)

Lemma fragments_length (prio addr type : Z) (fragmented : bool)
    (buf : list Z) (fuel offset : nat) :
  (length buf - offset <= fuel)%nat ->
  length (fragments fuel prio addr type fragmented buf offset) =
  ((length buf - offset + 7) / 8)%nat.
Proof.
  revert offset. induction fuel as [| fuel IH]; intros offset Hfuel.
  - cbn [fragments]. destruct (Nat.ltb_spec offset (length buf)); [lia |].
    replace (length buf - offset)%nat with 0%nat by lia. reflexivity.
  - cbn [fragments].
    destruct (Nat.ltb_spec offset (length buf)) as [Hlt | Hge].
    + cbn [length]. rewrite IH by lia.
      destruct (Nat.le_gt_cases (length buf - offset) 8) as [Hs | Hl].
      * replace (length buf - (offset + Nat.min 8 (length buf - offset)))%nat
          with 0%nat by lia.
        assert (((length buf - offset + 7) / 8 = 1)%nat).
        { symmetry.
          apply Nat.div_unique with (r := (length buf - offset - 1)%nat);
            lia. }
        rewrite H. reflexivity.
      * replace (length buf - (offset + Nat.min 8 (length buf - offset)))%nat
          with (length buf - offset - 8)%nat by lia.
        replace (length buf - offset + 7)%nat
          with (length buf - offset - 8 + 7 + 1 * 8)%nat by lia.
        rewrite Nat.div_add by lia. lia.
    + replace (length buf - offset)%nat with 0%nat by lia. reflexivity.
Qed.

Lemma fragments_full (prio addr type : Z) (fragmented : bool)
    (buf : list Z) (fuel offset : nat) :
  forall (i : nat) (m : twai_message_t),
    fragments fuel prio addr type fragmented buf offset !! i = Some m ->
    (S i < length (fragments fuel prio addr type fragmented buf offset))%nat ->
    data_length_code m = 8.
Proof.
  revert offset. induction fuel as [| fuel IH]; intros offset i m Hi Hlast.
  - cbn [fragments] in Hi. destruct (offset <? length buf)%nat; discriminate.
  - revert Hi Hlast. cbn [fragments].
    destruct (Nat.ltb_spec offset (length buf)) as [Hlt | Hge];
      [| discriminate].
    intros Hi Hlast. destruct i as [| i].
    + change (Some (chunk_frame prio addr type fragmented buf offset) =
              Some m) in Hi.
      inversion Hi; subst m. cbn [length] in Hlast.
      unfold chunk_frame. cbn [data_length_code].
      destruct (Nat.le_gt_cases (length buf)
                  (offset + Nat.min 8 (length buf - offset))) as [Hend | ?];
        [| lia].
      rewrite fragments_done in Hlast by lia. cbn in Hlast. lia.
    + change (fragments fuel prio addr type fragmented buf
                (offset + Nat.min 8 (length buf - offset)) !! i = Some m)
        in Hi.
      cbn [length] in Hlast. apply (IH _ i m Hi). lia.
Qed.

(** The size of a pass: a message of [L <= 8] bytes is one frame, a longer
    one takes as many frames as [L + 1] bytes need at 8 per frame, and
    every frame but the last is full. *)
Theorem pass_size (T : MsgType) (prio addr : Z) (msg : list Z) :
  (1 <= sizeof T)%nat ->
  length msg = sizeof T ->
  let pass := send_pass T prio addr msg in
  length pass = (if (8 <? sizeof T)%nat
                 then (sizeof T + 8) / 8 else 1)%nat /\
  forall (i : nat) (m : twai_message_t),
    pass !! i = Some m -> (S i < length pass)%nat ->
    data_length_code m = 8.
Proof.
  intros Hpos Hlen pass. split.
  - unfold pass, send_pass. rewrite fragments_length by lia.
    unfold send_buf. rewrite Nat.sub_0_r.
    destruct (Nat.ltb_spec 8 (sizeof T)).
    + rewrite length_app, length_take. cbn [length].
      replace (Nat.min (sizeof T) (length msg) + 1 + 7)%nat
        with (sizeof T + 8)%nat by lia.
      reflexivity.
    + rewrite length_take.
      symmetry.
      apply Nat.div_unique with (r := (sizeof T - 1)%nat); lia.
  - apply fragments_full.
Qed.

Lemma pass_size_witness :
  let T := {| sizeof := 61; TypeID := 1 |} in
  length (send_pass T 0 5 (replicate 61 0)) = 8%nat.
Proof.
  intros T.
  destruct (pass_size T 0 5 (replicate 61 0)) as [H _].
  - simpl. lia.
  - reflexivity.
  - exact H.
Defined.

(** ** [send] and the driver *)

Lemma record_all_snoc (ms : list twai_message_t) (m : twai_message_t)
    (r : Run) :
  record (Transmit m 100) (record_all ms r) = record_all (ms ++ [m]) r.
Proof.
  unfold record, record_all. cbn. rewrite map_app, app_assoc. reflexivity.
Qed.

(** The transmit loop with a driver that refuses the call number [k] of
    the pass: the loop ends there with the driver's result. *)
Lemma send_frames_refused (drv : nat -> esp_err_t) (prio addr type : Z)
    (fragmented : bool) (buf : list Z) :
  forall (fuel offset k : nat) (r : Run),
    (length buf - offset <= fuel)%nat ->
    (k < length (fragments fuel prio addr type fragmented buf offset))%nat ->
    (forall n, (n < k)%nat -> drv (length (sent r) + n)%nat = ESP_OK) ->
    esp_ok (drv (length (sent r) + k)%nat) = false ->
    send_frames fuel drv prio addr type fragmented buf offset r =
    Some (drv (length (sent r) + k)%nat,
          record_all
            (take (S k) (fragments fuel prio addr type fragmented buf offset))
            r).
Proof.
  induction fuel as [| fuel IH]; intros offset k r Hfuel Hk Hok Hbad.
  - cbn [fragments] in Hk. destruct (offset <? length buf)%nat; cbn in Hk; lia.
  - revert Hk. cbn [send_frames fragments].
    destruct (Nat.ltb_spec offset (length buf)) as [Hlt | Hge];
      [| cbn; lia].
    set (f := chunk_frame prio addr type fragmented buf offset).
    intros Hk. destruct k as [| k].
    + rewrite (Nat.add_0_r (length (sent r))) in *. rewrite Hbad.
      cbn [take]. rewrite take_0.
      rewrite <- record_all_cons, record_all_nil. reflexivity.
    + assert (H0 : drv (length (sent r)) = ESP_OK).
      { specialize (Hok 0%nat ltac:(lia)).
        rewrite (Nat.add_0_r (length (sent r))) in Hok. exact Hok. }
      rewrite H0. cbn [esp_ok].
      assert (Hs : length (sent (record (Transmit f 100) r))
                   = S (length (sent r))).
      { unfold record. cbn [sent]. rewrite length_app. cbn. lia. }
      assert (Hidx : forall n, (S (length (sent r)) + n)%nat
                               = (length (sent r) + S n)%nat) by (intros; lia).
      rewrite IH with (k := k).
      * rewrite Hs, Hidx. cbn [take]. rewrite record_all_cons. reflexivity.
      * lia.
      * cbn [length] in Hk. lia.
      * intros n Hn. rewrite Hs, Hidx. apply Hok. lia.
      * rewrite Hs, Hidx. exact Hbad.
Qed.

(** The transmit loop when the driver accepts the calls of this pass. *)
Lemma send_frames_accepted (drv : nat -> esp_err_t) (prio addr type : Z)
    (fragmented : bool) (buf : list Z) :
  forall (fuel offset : nat) (r : Run),
    (length buf - offset <= fuel)%nat ->
    (forall n,
       (n < length (fragments fuel prio addr type fragmented buf offset))%nat ->
       drv (length (sent r) + n)%nat = ESP_OK) ->
    send_frames fuel drv prio addr type fragmented buf offset r =
    Some (ESP_OK,
          record_all (fragments fuel prio addr type fragmented buf offset) r).
Proof.
  induction fuel as [| fuel IH]; intros offset r Hfuel Hok.
  - cbn [send_frames fragments].
    destruct (Nat.ltb_spec offset (length buf)); [lia |].
    rewrite record_all_nil. reflexivity.
  - revert Hok. cbn [send_frames fragments].
    destruct (Nat.ltb_spec offset (length buf)) as [Hlt | Hge];
      [| intros _; rewrite record_all_nil; reflexivity].
    set (f := chunk_frame prio addr type fragmented buf offset).
    intros Hok.
    assert (H0 : drv (length (sent r)) = ESP_OK).
    { specialize (Hok 0%nat ltac:(cbn [length]; lia)).
      rewrite (Nat.add_0_r (length (sent r))) in Hok. exact Hok. }
    rewrite H0. cbn [esp_ok].
    assert (Hs : length (sent (record (Transmit f 100) r))
                 = S (length (sent r))).
    { unfold record. cbn [sent]. rewrite length_app. cbn. lia. }
    rewrite IH.
    + rewrite record_all_cons. reflexivity.
    + lia.
    + intros n Hn. rewrite Hs.
      replace (S (length (sent r)) + n)%nat
        with (length (sent r) + S n)%nat by lia.
      apply Hok. cbn [length]. lia.
Qed.

Lemma length_sent_record_all (ms : list twai_message_t) (r : Run) :
  length (sent (record_all ms r)) = (length (sent r) + length ms)%nat.
Proof.
  unfold record_all. cbn [sent]. rewrite length_app, length_map. reflexivity.
Qed.

(** The [while (true)] loop when the driver refuses call number [k] of the
    pass that follows [length ws] passes whose waits ran out unanswered. *)
Lemma send_attempts_refused (drv : nat -> esp_err_t) (prio addr type : Z)
    (fragmented : bool) (buf : list Z) (k : nat) :
  let fs := fragments (length buf) prio addr type fragmented buf 0 in
  (k < length fs)%nat ->
  forall (ws rest : list WaitScript) (a : Z) (r : Run),
    let n := (length ws * length fs + k)%nat in
    ws = [] \/
    (fragmented = true /\ 0 <= a /\
     a + Z.of_nat (length ws) <= retryLimit_ (bus r) <= 255 /\
     pendingAck_ (bus r) <> type /\
     Forall (fun w => unanswered type w /\ elapses w) ws) ->
    (forall i, (i < n)%nat -> drv (length (sent r) + i)%nat = ESP_OK) ->
    esp_ok (drv (length (sent r) + n)%nat) = false ->
    exists r',
      send_attempts drv prio addr type fragmented buf (ws ++ rest) a r =
        Some (drv (length (sent r) + n)%nat, r', rest) /\
      sent r' = sent r ++
                map (fun m => Transmit m 100)
                  (concat (replicate (length ws) fs) ++ take (S k) fs) /\
      retryLimit_ (bus r') = retryLimit_ (bus r) /\
      errorCb_ (bus r') = errorCb_ (bus r) /\
      (ws = [] -> bus r' = bus r /\ background r' = background r).
Proof.
  intros fs Hk.
  induction ws as [| w ws IH]; intros rest a r n Hcase Hok Hbad.
  - subst n. cbn [length Nat.mul Nat.add] in *.
    exists (record_all (take (S k) fs) r).
    split; [| repeat split; reflexivity].
    cbn [app].
    destruct rest as [| w rest]; cbn [send_attempts];
      rewrite (send_frames_refused drv prio addr type fragmented buf
                 (length buf) 0 k r) by (assumption || lia);
      rewrite Hbad; reflexivity.
  - destruct Hcase as [Hnil | (Hfr & Ha & Hlim & Hv & Hws)];
      [discriminate |].
    subst fragmented.
    apply Forall_cons in Hws. destruct Hws as [[Hno Hel] Hws].
    cbn [length] in Hlim.
    assert (Hn : n = (length fs + (length ws * length fs + k))%nat)
      by (subst n; cbn [length]; lia).
    assert (Hpass : send_frames (length buf) drv prio addr type true buf 0 r
                    = Some (ESP_OK, record_all fs r)).
    { apply send_frames_accepted; [lia |].
      intros i Hi. apply Hok. fold fs in Hi. lia. }
    destruct (waitAck_unanswered type addr w (record_all fs r) Hv Hno Hel)
      as (r2 & Hw & S1 & S2 & S3 & S4).
    cbn [bus record_all] in S2, S3.
    assert (Hlen2 : length (sent r2) = (length (sent r) + length fs)%nat)
      by (rewrite S1; apply length_sent_record_all).
    destruct (IH rest (a + 1) r2) as (r' & Hrun & Hs' & Hl' & Hc' & _).
    { right. split; [reflexivity |]. split; [lia |].
      split; [rewrite S2; lia |]. split; [exact S4 | exact Hws]. }
    { intros i Hi. rewrite Hlen2.
      replace (length (sent r) + length fs + i)%nat
        with (length (sent r) + (length fs + i))%nat by lia.
      apply Hok. lia. }
    { rewrite Hlen2.
      replace (length (sent r) + length fs
               + (length ws * length fs + k))%nat
        with (length (sent r) + n)%nat by lia.
      exact Hbad. }
    exists r'. split; [| split; [| split; [| split]]].
    + cbn [app send_attempts]. rewrite Hpass.
      cbn [esp_ok negb bus record_all orb].
      assert (Hnz : (retryLimit_ (bus r) =? 0) = false)
        by (apply Z.eqb_neq; lia).
      rewrite Hnz. cbn [orb]. rewrite Hw, S2.
      rewrite to_u8_mod, Z.mod_small by lia.
      destruct (Z.ltb_spec (retryLimit_ (bus r)) (a + 1)); [lia |].
      rewrite Hrun. rewrite Hlen2.
      replace (length (sent r) + length fs
               + (length ws * length fs + k))%nat
        with (length (sent r) + n)%nat by lia.
      reflexivity.
    + rewrite Hs', S1. unfold record_all. cbn [sent length replicate concat].
      rewrite !map_app, <- !app_assoc. reflexivity.
    + congruence.
    + congruence.
    + discriminate.
Qed.

(** A refusal by the driver ends [send] at once, in the first pass and in
    any retry pass: when the driver refuses a frame, after any number of
    passes whose waits ran out unanswered, the frames up to and including
    the refused one have been handed over, the driver's result is returned
    as it is, no further wait is performed, nothing more is retried and
    the error callback is not invoked; the configuration is untouched, and
    so is the whole object when the refusal comes in the first pass. *)
Theorem send_stops_at_driver_error (T : MsgType) (prio addr : Z)
    (msg : list Z) (drv : nat -> esp_err_t) (ws rest : list WaitScript)
    (r : Run) (k : nat) :
  let pass := send_pass T prio addr msg in
  let n := (length ws * length pass + k)%nat in
  (k < length pass)%nat ->
  ws = [] \/
  ((8 < sizeof T)%nat /\
   Z.of_nat (length ws) <= retryLimit_ (bus r) <= 255 /\
   pendingAck_ (bus r) <> TypeID T /\
   Forall (fun w => unanswered (TypeID T) w /\ elapses w) ws) ->
  (forall i, (i < n)%nat -> drv (length (sent r) + i)%nat = ESP_OK) ->
  esp_ok (drv (length (sent r) + n)%nat) = false ->
  exists r',
    send T prio addr msg drv (ws ++ rest) r =
      Some (drv (length (sent r) + n)%nat, r', rest) /\
    sent r' = sent r ++
              map (fun m => Transmit m 100)
                (concat (replicate (length ws) pass) ++ take (S k) pass) /\
    retryLimit_ (bus r') = retryLimit_ (bus r) /\
    errorCb_ (bus r') = errorCb_ (bus r) /\
    (ws = [] -> bus r' = bus r /\ background r' = background r).
Proof.
  intros pass n Hk Hcase Hok Hbad.
  rewrite send_unfold.
  apply (send_attempts_refused drv prio addr (TypeID T) (8 <? sizeof T)%nat
           (send_buf T msg) k Hk ws rest 0 r).
  - destruct Hcase as [Hnil | (Hfr & Hlim & Hv & Hws)]; [left; exact Hnil |].
    right. split; [apply Nat.ltb_lt; exact Hfr |].
    split; [lia |]. split; [lia |]. split; assumption.
  - exact Hok.
  - exact Hbad.
Qed.

Lemma send_stops_at_driver_error_witness :
  let T := {| sizeof := 20; TypeID := 1 |} in
  let msg := replicate 20 7 in
  let drv := fun n : nat => if (n =? 4)%nat then ESP_ERR 259 else ESP_OK in
  let w := {| wait_start := 0;
              polls := [ {| arrivals := []; clock := 100 * ticks_per_ms |} ]
           |} in
  let r := start_run (onError 5 (setRetryLimit 2 CANBus_new)) in
  exists r',
    send T 0 5 msg drv ([w] ++ []) r = Some (ESP_ERR 259, r', []) /\
    sent r' = sent r ++
              map (fun m => Transmit m 100)
                (concat (replicate 1 (send_pass T 0 5 msg)) ++
                 take 2 (send_pass T 0 5 msg)) /\
    retryLimit_ (bus r') = retryLimit_ (bus r) /\
    errorCb_ (bus r') = errorCb_ (bus r) /\
    (@cons WaitScript w [] = [] -> bus r' = bus r /\
                                   background r' = background r).
Proof.
  intros T msg drv w r.
  apply (send_stops_at_driver_error T 0 5 msg drv [w] [] r 1).
  - vm_compute. lia.
  - right. split; [simpl; lia |]. split; [vm_compute; split; discriminate |].
    split; [vm_compute; discriminate |].
    repeat constructor.
    + intros p rx Hp Hrx.
      apply list_elem_of_singleton in Hp. subst p. inversion Hrx.
    + exists {| arrivals := []; clock := 100 * ticks_per_ms |}.
      split; [left | vm_compute; discriminate].
  - intros i Hi.
    assert (Hi' : (i < 4)%nat) by (vm_compute in Hi; exact Hi).
    unfold drv. destruct (Nat.eqb_spec (length (sent r) + i) 4) as [E |];
      [| reflexivity].
    cbn in E. lia.
  - reflexivity.
Defined.

(** ** The retry loop for any limit *)

Lemma to_u8_small (x : Z) : 0 <= x < 256 -> to_u8 x = x.
Proof. intros H. rewrite to_u8_mod. apply Z.mod_small. exact H. Qed.

Lemma sent_report_error (type addr : Z) (r : Run) :
  sent (report_error type addr r) =
  sent r ++ match errorCb_ (bus r) with
            | Some cb => [ErrorCallback cb type addr]
            | None => []
            end.
Proof.
  unfold report_error. destruct (errorCb_ (bus r)); [reflexivity |].
  symmetry. apply app_nil_r.
Qed.

Lemma send_attempts_exhaust (drv : nat -> esp_err_t) (prio addr type : Z)
    (buf : list Z) (n : Z) :
  1 <= n <= 254 ->
  (forall k, drv k = ESP_OK) ->
  forall (ws rest : list WaitScript) (a : Z) (r : Run),
    0 <= a <= n ->
    Z.of_nat (length ws) = n + 1 - a ->
    retryLimit_ (bus r) = n ->
    pendingAck_ (bus r) <> type ->
    Forall (fun w => unanswered type w /\ elapses w) ws ->
    exists r',
      send_attempts drv prio addr type true buf (ws ++ rest) a r =
        Some (ESP_FAIL, r', rest) /\
      sent r' =
        sent r ++
        map (fun m => Transmit m 100)
          (concat (replicate (length ws)
                     (fragments (length buf) prio addr type true buf 0))) ++
        match errorCb_ (bus r) with
        | Some cb => [ErrorCallback cb type addr]
        | None => []
        end.
Proof.
  intros Hn Hdrv.
  set (fs := fragments (length buf) prio addr type true buf 0).
  induction ws as [| w ws IH]; intros rest a r Ha Hlen Hlim Hv Hws.
  - cbn [length] in Hlen. lia.
  - apply Forall_cons in Hws. destruct Hws as [[Hno Hel] Hws].
    destruct (send_attempts_timeout drv prio addr type buf w (ws ++ rest)
                a r Hdrv ltac:(lia) Hv Hno Hel)
      as (r2 & Hstep & Hsent & Hl2 & Hc2 & Hv2).
    fold fs in Hsent. cbn [app]. rewrite Hstep, Hlim.
    rewrite to_u8_small by lia.
    destruct (Z.ltb_spec n (a + 1)) as [Hlast | Hmore].
    + assert (ws = []) by (destruct ws; [reflexivity | cbn in Hlen; lia]).
      subst ws. cbn [app]. eexists. split; [reflexivity |].
      rewrite sent_report_error, Hsent, Hc2. cbn [length replicate concat].
      rewrite app_nil_r, <- app_assoc. reflexivity.
    + destruct (IH rest (a + 1) r2) as (r' & Hrun & Hs');
        [lia | cbn [length] in Hlen; lia | congruence | exact Hv2
         | exact Hws |].
      exists r'. split; [exact Hrun |].
      rewrite Hs', Hsent, Hc2. cbn [length replicate concat].
      rewrite !map_app, <- !app_assoc. reflexivity.
Qed.

(** Retry exhaustion for any limit.  With a retry limit [n] from 1 to 254,
    a fragmented message, an accepting driver, and [n + 1] waits that all
    run to the end of their window with the slot never holding the
    type-id, [send] makes exactly [n + 1] passes, then invokes the error
    callback once if one is registered (and nothing if none is), and
    returns [ESP_FAIL]. *)
Theorem retry_count (T : MsgType) (prio addr : Z) (msg : list Z)
    (drv : nat -> esp_err_t) (ws rest : list WaitScript) (r : Run) :
  (8 < sizeof T)%nat ->
  1 <= retryLimit_ (bus r) <= 254 ->
  Z.of_nat (length ws) = retryLimit_ (bus r) + 1 ->
  (forall k, drv k = ESP_OK) ->
  pendingAck_ (bus r) <> TypeID T ->
  Forall (fun w => unanswered (TypeID T) w /\ elapses w) ws ->
  exists r',
    send T prio addr msg drv (ws ++ rest) r = Some (ESP_FAIL, r', rest) /\
    sent r' =
      sent r ++
      map (fun m => Transmit m 100)
        (concat (replicate (length ws) (send_pass T prio addr msg))) ++
      match errorCb_ (bus r) with
      | Some cb => [ErrorCallback cb (TypeID T) addr]
      | None => []
      end.
Proof.
  intros Hfrag Hn Hlen Hdrv Hv Hws.
  rewrite send_unfold. unfold send_pass.
  assert (Hf : (8 <? sizeof T)%nat = true) by (apply Nat.ltb_lt; exact Hfrag).
  rewrite Hf.
  apply (send_attempts_exhaust drv prio addr (TypeID T) (send_buf T msg)
           (retryLimit_ (bus r)) Hn Hdrv ws rest 0 r);
    (lia || assumption || reflexivity).
Qed.

Lemma retry_count_witness :
  let T := {| sizeof := 9; TypeID := 1 |} in
  let msg := [1; 2; 3; 4; 5; 6; 7; 8; 9] in
  let w := {| wait_start := 0;
              polls := [ {| arrivals := []; clock := 100 * ticks_per_ms |} ]
           |} in
  let r := start_run (setRetryLimit 1 CANBus_new) in
  exists r',
    send T 1 3 msg drv_ok ([w; w] ++ []) r = Some (ESP_FAIL, r', []) /\
    sent r' =
      sent r ++
      map (fun m => Transmit m 100)
        (concat (replicate 2 (send_pass T 1 3 msg))) ++ [].
Proof.
  intros T msg w r.
  assert (Hw : unanswered 1 w /\ elapses w).
  { split.
    - intros p rx Hp Hrx.
      apply list_elem_of_singleton in Hp. subst p. inversion Hrx.
    - exists {| arrivals := []; clock := 100 * ticks_per_ms |}.
      split; [left | vm_compute; discriminate]. }
  apply (retry_count T 1 3 msg drv_ok [w; w] [] r).
  - simpl. lia.
  - vm_compute. split; discriminate.
  - reflexivity.
  - reflexivity.
  - vm_compute. discriminate.
  - repeat constructor; apply Hw.
Defined.

Lemma send_attempts_never_gives_up (drv : nat -> esp_err_t)
    (prio addr type : Z) (buf : list Z) :
  (forall k, drv k = ESP_OK) ->
  forall (ws : list WaitScript) (a : Z) (r : Run),
    retryLimit_ (bus r) = 255 ->
    pendingAck_ (bus r) <> type ->
    Forall (fun w => unanswered type w /\ elapses w) ws ->
    send_attempts drv prio addr type true buf ws a r = None.
Proof.
  intros Hdrv.
  induction ws as [| w ws IH]; intros a r Hlim Hv Hws.
  - cbn [send_attempts].
    rewrite (send_frames_all_ok drv prio addr type true buf Hdrv) by lia.
    cbn [esp_ok negb bus record_all]. rewrite Hlim. reflexivity.
  - apply Forall_cons in Hws. destruct Hws as [[Hno Hel] Hws].
    destruct (send_attempts_timeout drv prio addr type buf w ws
                a r Hdrv ltac:(lia) Hv Hno Hel)
      as (r2 & Hstep & _ & Hl2 & _ & Hv2).
    rewrite Hstep, Hlim.
    pose proof (to_u8_range (a + 1)) as Hr.
    destruct (Z.ltb_spec 255 (to_u8 (a + 1))); [lia |].
    apply IH; (congruence || assumption).
Qed.

(** A retry limit of 255 disables the give-up test: the attempt counter is
    a [uint8_t] too, so [++attempts > retryLimit_] never holds.  However
    many waits run out unanswered, [send] has not returned: it goes on
    retransmitting and never reports the failure. *)
Theorem retry_limit_255_never_fails (T : MsgType) (prio addr : Z)
    (msg : list Z) (drv : nat -> esp_err_t) (ws : list WaitScript)
    (r : Run) :
  (8 < sizeof T)%nat ->
  retryLimit_ (bus r) = 255 ->
  (forall k, drv k = ESP_OK) ->
  pendingAck_ (bus r) <> TypeID T ->
  Forall (fun w => unanswered (TypeID T) w /\ elapses w) ws ->
  send T prio addr msg drv ws r = None.
Proof.
  intros Hfrag Hlim Hdrv Hv Hws.
  rewrite send_unfold.
  assert (Hf : (8 <? sizeof T)%nat = true) by (apply Nat.ltb_lt; exact Hfrag).
  rewrite Hf. apply send_attempts_never_gives_up; assumption.
Qed.

Lemma retry_limit_255_never_fails_witness :
  let T := {| sizeof := 9; TypeID := 1 |} in
  let msg := [1; 2; 3; 4; 5; 6; 7; 8; 9] in
  let w := {| wait_start := 0;
              polls := [ {| arrivals := []; clock := 100 * ticks_per_ms |} ]
           |} in
  send T 1 3 msg drv_ok (replicate 300 w)
    (start_run (setRetryLimit 255 CANBus_new)) = None.
Proof.
  intros T msg w.
  apply (retry_limit_255_never_fails T 1 3 msg drv_ok (replicate 300 w)
           (start_run (setRetryLimit 255 CANBus_new))).
  - simpl. lia.
  - reflexivity.
  - reflexivity.
  - vm_compute. discriminate.
  - apply Forall_replicate. split.
    + intros p rx Hp Hrx.
      apply list_elem_of_singleton in Hp. subst p. inversion Hrx.
    + exists {| arrivals := []; clock := 100 * ticks_per_ms |}.
      split; [left | vm_compute; discriminate].
Defined.

(** ** The acknowledgment handshake *)

Lemma handleReceive_ack_frame (to type now : Z) (b : CANBus) :
  handleReceive (Some (ack_frame to type)) now b =
  (tt, set_pendingAck type b, []).
Proof.
  unfold handleReceive.
  destruct (buildId_fields 3 to SINGLE ACK_TYPE_ID) as (_ & Hty & _).
  cbn [ack_frame identifier]. rewrite Hty. reflexivity.
Qed.

Lemma frames_of_dispatch_events (hs : gmap Z Handler) (type : Z)
    (data : list Z) :
  frames_of (dispatch_events hs type data) = [].
Proof.
  unfold dispatch_events. destruct (hs !! type) as [h |]; [| reflexivity].
  destruct (length data <? handler_sizeof h)%nat; reflexivity.
Qed.

Lemma slot_after_ack_frame (rxs : list (option twai_message_t * Z))
    (to type t v : Z) :
  slot_after (rxs ++ [(Some (ack_frame to type), t)]) v = type.
Proof.
  rewrite slot_after_app. cbn [slot_after fold_left]. unfold slot_step.
  cbn [fst ack_frame identifier].
  destruct (buildId_fields 3 to SINGLE ACK_TYPE_ID) as (_ & Hty & _).
  rewrite Hty. reflexivity.
Qed.

(** The loop of [waitAck] succeeds when, at some poll inside the window,
    the arrivals leave the type in the slot, whatever the polls before it
    saw. *)
Lemma waitAck_loop_answered (type start : Z) (p : Poll) (ps : list Poll) :
  to_ms (clock p - start) < 100 ->
  (forall v, slot_after (arrivals p) v = type) ->
  forall (pre : list Poll) (r : Run),
    Forall (fun q => to_ms (clock q - start) < 100) pre ->
    exists r',
      waitAck_loop type start (pre ++ p :: ps) r = Some (true, r') /\
      sent r' = sent r /\ pendingAck_ (bus r') = 0.
Proof.
  intros Hwin Hslot.
  induction pre as [| q pre IH]; intros r Hpre; cbn [app waitAck_loop].
  - destruct (deliver_bus (arrivals p) r) as (D1 & _ & _ & _ & D5).
    cbn zeta in D1, D5.
    apply Z.ltb_lt in Hwin. rewrite Hwin, D5, Hslot, Z.eqb_refl.
    eexists. split; [reflexivity |]. split; [exact D1 | reflexivity].
  - apply Forall_cons in Hpre. destruct Hpre as [Hq Hpre].
    destruct (deliver_bus (arrivals q) r) as (D1 & _). cbn zeta in D1.
    apply Z.ltb_lt in Hq. rewrite Hq.
    destruct (pendingAck_ (bus (deliver (arrivals q) r)) =? type).
    + eexists. split; [reflexivity |]. split; [exact D1 | reflexivity].
    + destruct (IH (deliver (arrivals q) r) Hpre) as (r' & E & S1 & S2).
      exists r'. split; [exact E |]. split; [congruence | exact S2].
Qed.

(** The handshake, end to end.  The receiver of the frames of one pass of
    a fragmented message transmits exactly one frame, the ACK frame; when
    that frame is the last one the sender's [handleReceive] has processed
    before some poll of the first wait, that poll and those before it
    lying inside the window, [send] returns [ESP_OK] after that single
    pass, without retry and without error callback, and the slot is left
    idle, whatever arrived before. *)
Theorem acknowledged_send_succeeds (T : MsgType) (prio addr : Z)
    (msg : list Z) (drv : nat -> esp_err_t) (receiver : CANBus)
    (times : list Z) (w : WaitScript) (pre : list Poll) (p : Poll)
    (ps : list Poll) (earlier : list (option twai_message_t * Z))
    (rest : list WaitScript) (r : Run) (t_ack : Z) :
  (8 < sizeof T)%nat ->
  length msg = sizeof T ->
  0 <= TypeID T < ACK_TYPE_ID ->
  retryLimit_ (bus r) <> 0 ->
  (forall k, drv k = ESP_OK) ->
  length times = length (send_pass T prio addr msg) ->
  Forall (fun t => expired (hd 0 times) t = false) times ->
  let ev := snd (receive_all (zip (map Some (send_pass T prio addr msg))
                                times) receiver) in
  polls w = pre ++ p :: ps ->
  Forall (fun q => to_ms (clock q - wait_start w) < 100) (pre ++ [p]) ->
  arrivals p = earlier ++ map (fun f => (Some f, t_ack)) (frames_of ev) ->
  frames_of ev = [ack_frame (addr mod 16) (TypeID T)] /\
  exists r',
    send T prio addr msg drv (w :: rest) r = Some (ESP_OK, r', rest) /\
    sent r' = sent r ++
              map (fun m => Transmit m 100) (send_pass T prio addr msg) /\
    pendingAck_ (bus r') = 0.
Proof.
  intros Hfrag Hlen Hty Hlim Hdrv Hlt Hts ev Hp Hwin Harr.
  assert (Hev : frames_of ev = [ack_frame (addr mod 16) (TypeID T)]).
  { unfold ev. rewrite (receive_pass T prio addr msg receiver times)
      by (assumption || lia).
    destruct (Nat.ltb_spec 8 (sizeof T)); [| lia].
    unfold frames_of at 1. rewrite omap_app.
    fold (frames_of (dispatch_events (handlers_ receiver) (TypeID T) msg)).
    rewrite frames_of_dispatch_events. reflexivity. }
  split; [exact Hev |].
  rewrite Hev in Harr. cbn [map] in Harr.
  apply Forall_app in Hwin. destruct Hwin as [Hpre Hwin].
  apply Forall_cons in Hwin. destruct Hwin as [Hwin _].
  set (fs := send_pass T prio addr msg).
  destruct (waitAck_loop_answered (TypeID T) (wait_start w) p ps Hwin
              ltac:(intros v; rewrite Harr; apply slot_after_ack_frame)
              pre (record_all fs r) Hpre)
    as (r' & Hw & S1 & S2).
  exists r'. split; [| split; [exact S1 | exact S2]].
  rewrite send_unfold. unfold fs, send_pass in *.
  assert (Hf : (8 <? sizeof T)%nat = true) by (apply Nat.ltb_lt; exact Hfrag).
  rewrite Hf in *. cbn [send_attempts].
  rewrite (send_frames_all_ok drv prio addr (TypeID T) true _ Hdrv) by lia.
  cbn [esp_ok negb bus record_all orb].
  apply Z.eqb_neq in Hlim. rewrite Hlim. cbn [orb].
  unfold waitAck. rewrite Hp, Hw. reflexivity.
Qed.

Lemma acknowledged_send_succeeds_witness :
  let T := {| sizeof := 9; TypeID := 1 |} in
  let msg := [1; 2; 3; 4; 5; 6; 7; 8; 9] in
  let q := {| arrivals := [(None, 0)]; clock := 10 * ticks_per_ms |} in
  let p := {| arrivals := [(Some (ack_frame 5 2), 0);
                           (Some (ack_frame 3 1), 0)];
              clock := 20 * ticks_per_ms |} in
  let w := {| wait_start := 0; polls := [q; q; p] |} in
  let r := start_run (setRetryLimit 2 CANBus_new) in
  exists r',
    send T 1 3 msg drv_ok (w :: []) r = Some (ESP_OK, r', []) /\
    sent r' = sent r ++ map (fun m => Transmit m 100) (send_pass T 1 3 msg) /\
    pendingAck_ (bus r') = 0.
Proof.
  intros T msg q p w r.
  destruct (acknowledged_send_succeeds T 1 3 msg drv_ok
              (onReceive T 4%nat CANBus_new) [0; 0] w [q; q] p []
              [(Some (ack_frame 5 2), 0)] [] r 0)
    as [_ H].
  - simpl. lia.
  - reflexivity.
  - unfold ACK_TYPE_ID. simpl. lia.
  - vm_compute. discriminate.
  - reflexivity.
  - reflexivity.
  - repeat constructor.
  - reflexivity.
  - repeat constructor; vm_compute; reflexivity.
  - reflexivity.
  - exact H.
Defined.

(** ** Waiting without a receive path *)

Lemma deliver_nil (r : Run) : deliver [] r = r.
Proof.
  destruct r. unfold deliver. cbn. rewrite app_nil_r. reflexivity.
Qed.

Lemma waitAck_loop_alone (type start : Z) (ps : list Poll) (r : Run) :
  Forall (fun p => arrivals p = []) ps ->
  (exists p, p ∈ ps /\ 100 <= to_ms (clock p - start)) ->
  pendingAck_ (bus r) <> type ->
  waitAck_loop type start ps r = Some (false, r).
Proof.
  intros Hno Hel Hv. induction ps as [| p ps IH].
  - destruct Hel as (q & Hin & _). inversion Hin.
  - apply Forall_cons in Hno. destruct Hno as [Hp Hno].
    cbn [waitAck_loop]. rewrite Hp, deliver_nil.
    destruct (Z.ltb_spec (to_ms (clock p - start)) 100) as [Hw | Hw];
      [| reflexivity].
    apply Z.eqb_neq in Hv. rewrite Hv. apply Z.eqb_neq in Hv.
    apply IH; [exact Hno |].
    destruct Hel as (q & Hin & Hq). exists q. split; [| exact Hq].
    inversion Hin; subst; [lia | assumption].
Qed.

(** [waitAck] itself never receives.  When no call of [handleReceive]
    completes while it runs (the single-threaded use of the example
    sketches: [handleReceive] and [send] called in turn from one loop), its
    outcome is fixed by the slot as it finds it: it succeeds at its first
    poll if the slot already holds the type-id, and otherwise spins to the
    end of the window and fails, leaving the object as it was. *)
Theorem wait_without_receive_path (type addr : Z) (w : WaitScript)
    (r : Run) :
  Forall (fun p => arrivals p = []) (polls w) ->
  elapses w ->
  (pendingAck_ (bus r) <> type ->
   waitAck type addr w r = Some (false, r)) /\
  (pendingAck_ (bus r) = type ->
   forall p ps, polls w = p :: ps ->
     to_ms (clock p - wait_start w) < 100 ->
     waitAck type addr w r = Some (true, with_bus (set_pendingAck 0) r)).
Proof.
  intros Hno Hel. split.
  - intros Hv. apply waitAck_loop_alone; assumption.
  - intros Hv p ps Hp Hwin. unfold waitAck. rewrite Hp in *.
    apply Forall_cons in Hno. destruct Hno as [Ha _].
    cbn [waitAck_loop]. rewrite Ha, deliver_nil.
    apply Z.ltb_lt in Hwin. rewrite Hwin.
    apply Z.eqb_eq in Hv. rewrite Hv. reflexivity.
Qed.

Lemma wait_without_receive_path_witness :
  let w := {| wait_start := 0;
              polls := [ {| arrivals := []; clock := 0 |};
                         {| arrivals := []; clock := 100 * ticks_per_ms |} ]
           |} in
  waitAck 3 1 w (start_run CANBus_new) = Some (false, start_run CANBus_new).
Proof.
  intros w.
  destruct (wait_without_receive_path 3 1 w (start_run CANBus_new))
    as [H _].
  - repeat constructor.
  - exists {| arrivals := []; clock := 100 * ticks_per_ms |}.
    split; [right; left | vm_compute; discriminate].
  - apply H. vm_compute. discriminate.
Defined.

(** ** What [send] does and does not do, with any driver *)

Lemma send_frames_any (drv : nat -> esp_err_t) (prio addr type : Z)
    (fragmented : bool) (buf : list Z) :
  forall (fuel offset : nat) (r : Run) (e : esp_err_t) (r' : Run),
    send_frames fuel drv prio addr type fragmented buf offset r =
      Some (e, r') ->
    bus r' = bus r /\ background r' = background r /\
    exists ms, sent r' = sent r ++ map (fun m => Transmit m 100) ms.
Proof.
  induction fuel as [| fuel IH]; intros offset r e r' H;
    cbn [send_frames] in H;
    destruct (offset <? length buf)%nat; try discriminate.
  - inversion H; subst. repeat split. exists []. cbn.
    symmetry. apply app_nil_r.
  - destruct (esp_ok (drv (length (sent r)))).
    + apply IH in H. destruct H as (Hb & Hg & ms & Hs).
      cbn [record bus background sent] in *.
      repeat split; try assumption.
      exists (chunk_frame prio addr type fragmented buf offset :: ms).
      rewrite Hs, <- app_assoc. reflexivity.
    + inversion H; subst. cbn [record bus background sent].
      repeat split.
      exists [chunk_frame prio addr type fragmented buf offset]. reflexivity.
  - inversion H; subst. repeat split. exists []. cbn.
    symmetry. apply app_nil_r.
Qed.

Lemma send_attempts_effects (drv : nat -> esp_err_t) (prio addr type : Z)
    (fragmented : bool) (buf : list Z) :
  forall (scripts : list WaitScript) (a : Z) (r : Run)
         (e : esp_err_t) (r' : Run) (rest : list WaitScript),
    send_attempts drv prio addr type fragmented buf scripts a r =
      Some (e, r', rest) ->
    retryLimit_ (bus r') = retryLimit_ (bus r) /\
    errorCb_ (bus r') = errorCb_ (bus r) /\
    handlers_ (bus r') = handlers_ (bus r) /\
    (exists used, scripts = used ++ rest) /\
    exists ms errs,
      sent r' = sent r ++ map (fun m => Transmit m 100) ms ++ errs /\
      (errs = [] \/
       e = ESP_FAIL /\
       exists cb, errorCb_ (bus r) = Some cb /\
                  errs = [ErrorCallback cb type addr]).
Proof.
  induction scripts as [| w rest0 IH]; intros a r e r' rest H;
    cbn [send_attempts] in H;
    destruct (send_frames (length buf) drv prio addr type fragmented buf 0 r)
      as [[e1 r1] |] eqn:Hf; try discriminate;
    destruct (send_frames_any _ _ _ _ _ _ _ _ _ _ _ Hf)
      as (Hb & _ & ms & Hs);
    destruct (negb (esp_ok e1)).
  - inversion H; subst. rewrite Hb. repeat split.
    + exists []. reflexivity.
    + exists ms, []. rewrite app_nil_r. split; [exact Hs | left; reflexivity].
  - destruct ((retryLimit_ (bus r1) =? 0) || negb fragmented);
      [| discriminate].
    inversion H; subst. rewrite Hb. repeat split.
    + exists []. reflexivity.
    + exists ms, []. rewrite app_nil_r. split; [exact Hs | left; reflexivity].
  - inversion H; subst. rewrite Hb. repeat split.
    + exists []. reflexivity.
    + exists ms, []. rewrite app_nil_r. split; [exact Hs | left; reflexivity].
  - destruct ((retryLimit_ (bus r1) =? 0) || negb fragmented).
    { inversion H; subst. rewrite Hb. repeat split.
      + exists []. reflexivity.
      + exists ms, []. rewrite app_nil_r.
        split; [exact Hs | left; reflexivity]. }
    destruct (waitAck type addr w r1) as [[res r2] |] eqn:Hw;
      [| discriminate].
    destruct (waitAck_loop_frame _ _ _ _ _ _ Hw) as (W1 & W2 & W3 & W4).
    destruct res.
    { inversion H; subst. rewrite W2, W3, W4, Hb. repeat split.
      + exists [w]. reflexivity.
      + exists ms, []. rewrite app_nil_r, W1.
        split; [exact Hs | left; reflexivity]. }
    destruct (retryLimit_ (bus r2) <? to_u8 (a + 1)).
    + inversion H; subst.
      assert (Hbus : bus (report_error type addr r2) = bus r2)
        by (unfold report_error; destruct (errorCb_ (bus r2)); reflexivity).
      rewrite Hbus, W2, W3, W4, Hb. repeat split.
      * exists [w]. reflexivity.
      * rewrite sent_report_error, W1, Hs, W3, Hb.
        destruct (errorCb_ (bus r)) as [cb |] eqn:Hcb.
        -- exists ms, [ErrorCallback cb type addr].
           rewrite <- app_assoc. split; [reflexivity |]. right.
           split; [reflexivity |]. exists cb. split; reflexivity.
        -- exists ms, []. rewrite <- app_assoc.
           split; [reflexivity | left; reflexivity].
    + destruct (IH _ _ _ _ _ H) as (I1 & I2 & I3 & (used & Hu) & ms' & errs
                                      & Hs' & Herr).
      rewrite I1, I2, I3, W2, W3, W4, Hb. repeat split.
      * exists (w :: used). rewrite Hu. reflexivity.
      * exists (ms ++ ms'), errs. split.
        -- rewrite Hs', W1, Hs, map_app, <- !app_assoc. reflexivity.
        -- rewrite W3, Hb in Herr. exact Herr.
Qed.

(** Whatever the driver answers and whatever arrives meanwhile, a [send]
    that returns has itself done nothing but hand frames to the driver
    (each with the 100 ms transmit timeout) and, at most once and as its
    last act, invoke the error callback, which happens only with the
    result [ESP_FAIL]; it has neither changed the retry limit, the error
    callback or the registry, nor invoked an application callback, and it
    has used up a prefix of the waits offered. *)
Theorem send_effects (T : MsgType) (prio addr : Z) (msg : list Z)
    (drv : nat -> esp_err_t) (scripts : list WaitScript) (r : Run)
    (e : esp_err_t) (r' : Run) (rest : list WaitScript) :
  send T prio addr msg drv scripts r = Some (e, r', rest) ->
  retryLimit_ (bus r') = retryLimit_ (bus r) /\
  errorCb_ (bus r') = errorCb_ (bus r) /\
  handlers_ (bus r') = handlers_ (bus r) /\
  (exists used, scripts = used ++ rest) /\
  exists ms errs,
    sent r' = sent r ++ map (fun m => Transmit m 100) ms ++ errs /\
    (errs = [] \/
     e = ESP_FAIL /\
     exists cb, errorCb_ (bus r) = Some cb /\
                errs = [ErrorCallback cb (TypeID T) addr]).
Proof.
  intros H. rewrite send_unfold in H.
  apply (send_attempts_effects _ _ _ _ _ _ _ _ _ _ _ _ H).
Qed.

Lemma send_effects_witness :
  let T := {| sizeof := 2; TypeID := 1 |} in
  let r := start_run CANBus_new in
  let r' := record_all (send_pass T 1 3 [1; 0]) r in
  retryLimit_ (bus r') = retryLimit_ (bus r) /\
  errorCb_ (bus r') = errorCb_ (bus r) /\
  handlers_ (bus r') = handlers_ (bus r) /\
  (exists used, @nil WaitScript = used ++ []) /\
  exists ms errs,
    sent r' = sent r ++ map (fun m => Transmit m 100) ms ++ errs /\
    (errs = [] \/
     ESP_OK = ESP_FAIL /\
     exists cb, errorCb_ (bus r) = Some cb /\
                errs = [ErrorCallback cb 1 3]).
Proof.
  intros T r r'.
  apply (send_effects T 1 3 [1; 0] drv_ok [] r ESP_OK r' []).
  reflexivity.
Defined.

(** ** Type-ids of declared message types *)

Lemma declared_type_id (ID : Z) (size : nat) :
  TypeID (DEFINE_CAN_MESSAGE ID size) = 0.
Proof.
  unfold DEFINE_CAN_MESSAGE, MsgTraits_TypeID. cbn [TypeID].
  destruct (Z.eqb_spec 0 ID) as [<- | _]; reflexivity.
Qed.

(** Every type declared with [DEFINE_CAN_MESSAGE] gets the type-id 0,
    whatever [ID] the declaration names, because [send] and [onReceive]
    look up [MsgTraits<T, 0>].  So all declared types share one registry
    slot and one wire type: after handlers for two declared types have
    been registered, only the second remains, and the frames of a message
    of the first type are handed to the handler of the second, which drops
    them if its type is larger and otherwise passes the first [sizeof]
    bytes to the second type's callback. *)
Theorem declared_types_collide (idA idB : Z) (sizeA sizeB : nat)
    (cbA cbB : nat) (prio addr : Z) (msg : list Z) (b : CANBus)
    (times : list Z) :
  let A := DEFINE_CAN_MESSAGE idA sizeA in
  let B := DEFINE_CAN_MESSAGE idB sizeB in
  let receiver := onReceive B cbB (onReceive A cbA b) in
  (1 <= sizeA)%nat ->
  length msg = sizeA ->
  length times = length (send_pass A prio addr msg) ->
  Forall (fun t => expired (hd 0 times) t = false) times ->
  handlers_ receiver !! TypeID A =
    Some {| handler_sizeof := sizeB; handler_cb := cbB |} /\
  callbacks_of
    (snd (receive_all (zip (map Some (send_pass A prio addr msg)) times)
            receiver)) =
  (if (sizeA <? sizeB)%nat then [] else [(cbB, take sizeB msg)]).
Proof.
  intros A B receiver Hpos Hlen Hlt Hts.
  assert (HA : TypeID A = 0) by apply declared_type_id.
  assert (HB : TypeID B = 0) by apply declared_type_id.
  assert (Hh : handlers_ receiver !! TypeID A =
               Some {| handler_sizeof := sizeB; handler_cb := cbB |}).
  { unfold receiver. rewrite HA, <- HB. apply onReceive_lookup. }
  split; [exact Hh |].
  rewrite (receive_pass A prio addr msg receiver times);
    [| exact Hpos | exact Hlen | rewrite HA; unfold ACK_TYPE_ID; lia
     | exact Hlt | exact Hts ].
  unfold dispatch_events. rewrite Hh. cbn [handler_sizeof handler_cb].
  rewrite Hlen. change (sizeof A) with sizeA.
  destruct (sizeA <? sizeB)%nat, (8 <? sizeA)%nat; reflexivity.
Qed.

Lemma declared_types_collide_witness :
  let A := DEFINE_CAN_MESSAGE 1 2 in
  let B := DEFINE_CAN_MESSAGE 20 61 in
  let receiver := onReceive B 7%nat (onReceive A 5%nat CANBus_new) in
  handlers_ receiver !! TypeID A =
    Some {| handler_sizeof := 61; handler_cb := 7 |} /\
  callbacks_of
    (snd (receive_all (zip (map Some (send_pass A 0 3 [1; 0])) [0])
            receiver)) = [].
Proof.
  intros A B receiver.
  apply (declared_types_collide 1 20 2 61 5 7 0 3 [1; 0] CANBus_new [0]).
  - lia.
  - reflexivity.
  - reflexivity.
  - repeat constructor.
Defined.
